(** * The mem0 client connection pool (src/connection_manager.py, src/utils.py)

    A shallow embedding of [ConnectionManager] and of the client factory
    [get_mem0_client], with the properties of the pool proved or refuted
    on it; and of their callers, the server's lifespan and [save_memory]
    (src/main.py) and the leak test (scripts/connection_leak_test.py).

    Conventions of the embedding
    - Python dictionaries keep insertion order; they are association
      lists without duplicate keys ([PyDict]).
    - [time.time()] readings are integers (a fixed tick of the clock); the
      clock is an oracle of the process, read one value per call.
    - A method runs in the monad [M]: it transforms the process state and
      returns a value, raises an exception, or blocks for ever.
    - [threading.Lock] is a flag.  The lock is not re-entrant: acquiring it
      while the running thread holds it never returns.
    - Calls into mem0, psycopg2 and the builtin [int] are oracles
      ([Library]); each either returns or raises.
    - Logger calls at level INFO and above and calls on a client's nested
      connections are recorded in a trace.  [logger.debug] is silent
      (the module sets the level to INFO) and is left out. *)

From Stdlib Require Import String ZArith List Bool Lia.
Import ListNotations.
Open Scope string_scope.
Open Scope list_scope.
Open Scope Z_scope.

(** ** Python dictionaries with string keys *)

Module PyDict.

Definition dict (V : Type) := list (string * V).

Section Ops.
Context {V : Type}.

(** [d.get(k)] *)
Fixpoint get (k : string) (d : dict V) : option V :=
  match d with
  | [] => None
  | (k', v) :: r => if String.eqb k k' then Some v else get k r
  end.

(** [k in d] *)
Definition mem (k : string) (d : dict V) : bool :=
  match get k d with Some _ => true | None => false end.

(** [d[k] = v]: an existing key keeps its position, a new one goes last. *)
Fixpoint set (k : string) (v : V) (d : dict V) : dict V :=
  match d with
  | [] => [(k, v)]
  | (k', v') :: r =>
      if String.eqb k k' then (k, v) :: r else (k', v') :: set k v r
  end.

(** [del d[k]] for a key that is present (the caller checks). *)
Definition del (k : string) (d : dict V) : dict V :=
  filter (fun kv => negb (String.eqb k (fst kv))) d.

(** [d.keys()], [d.items()], [len(d)] *)
Definition keys (d : dict V) : list string := map fst d.
Definition items (d : dict V) : list (string * V) := d.
Definition len (d : dict V) : Z := Z.of_nat (length d).

End Ops.

End PyDict.

Import PyDict.

(** ** Exceptions and results *)

Inductive exn :=
| KeyError (k : string)
| ValueError
| TypeError
| IndexError
| LibraryError (code : nat).   (* raised inside mem0 / psycopg2 / a driver *)

(** What an external call does: return or raise. *)
Inductive result (A : Type) :=
| Ok (a : A)
| Err (e : exn).
Arguments Ok {A} a.
Arguments Err {A} e.

(** ** Client handles

    [_cleanup_client] finds the closers of a [Memory] object with
    [hasattr]; a handle is described by the attributes it exposes and by
    what each closer does when called. *)

Record VectorClient := {
  vc_close : option (result unit);         (* .close, when present *)
  vc_inner_close : option (result unit)    (* ._client.close, when present *)
}.

Record VectorStore := {
  vs_client : option VectorClient          (* .client, when present *)
}.

Record Db := {
  db_connection : option (result unit);    (* .connection when present and truthy: its close() *)
  db_engine : option (result unit)         (* .engine when present and truthy: its dispose() *)
}.

Record Memory := {
  mem_id : nat;                            (* object identity *)
  vector_store : option VectorStore;
  db : option Db
}.

(** ** Trace *)

Inductive method :=
| vector_client_close
| vector_inner_client_close
| db_connection_close
| db_engine_dispose.

Inductive field := f_clients | f_connection_counts.

Inductive event :=
| PoolFull (n max : Z)                       (* warning, get_client *)
| Creating (k : string)                      (* info, get_client *)
| Cleaning (k : string)                      (* info, _cleanup_client *)
| Closing (m : method)                       (* info before each closer *)
| Called (obj : nat) (m : method)            (* the closer was called on handle obj *)
| CleanupCompleted (k : string)              (* info, _cleanup_client *)
| CleanupError (k : string) (e : exn)        (* error, _cleanup_client *)
| AllCleaned                                 (* info, cleanup_all *)
| GcCollect                                  (* gc.collect() *)
| ConnCountError (e : exn)                   (* error, get_connection_count *)
| Started (interval : Z)                     (* info, start_periodic_cleanup *)
| Joined (timeout : Z)                       (* Thread.join(timeout) *)
| Stopped                                    (* info, stop_periodic_cleanup *)
| Removed (k : string)                       (* info, _periodic_cleanup *)
| PeriodicError (e : exn)                    (* error, _periodic_cleanup *)
| ForceRemoved (k : string)                  (* info, _force_cleanup_idle_connections *)
| ForceError (e : exn)                       (* error, _force_cleanup_idle_connections *)
| Stats (active total db_connections : Z)    (* info, _log_stats *)
| StatsError (e : exn)                       (* error, _log_stats *)
| Mutated (f : field) (k : string) (locked : bool).
    (* ghost: a store to or a deletion from self.<f>[k], with the state of
       the lock at that moment *)

(** ** The process state *)

Inductive thread := Alive | Finished.

Record ConnectionManager := {
  max_pool_size : Z;
  cleanup_interval : Z;
  idle_timeout : Z;
  max_lifetime : Z;
  _clients : dict Memory;
  _connection_counts : dict Z;
  _last_used : dict Z;
  client_created_time : dict Z;
  _lock : bool;                         (* threading.Lock: true when held *)
  _cleanup_thread : option thread;
  _stop_cleanup : bool                  (* threading.Event *)
}.

Record world := {
  self : ConnectionManager;
  environ : dict string;                (* os.environ *)
  clock : nat -> Z;                     (* the n-th reading of time.time() *)
  ticks : nat;                          (* readings taken so far *)
  constructed : nat;                    (* Memory objects built so far *)
  trace : list event
}.

(** [ConnectionManager.__init__] *)
Definition __init__ (max_pool_size cleanup_interval idle_timeout max_lifetime : Z)
  : ConnectionManager :=
  {| max_pool_size := max_pool_size;
     cleanup_interval := cleanup_interval;
     idle_timeout := idle_timeout;
     max_lifetime := max_lifetime;
     _clients := [];
     _connection_counts := [];
     _last_used := [];
     client_created_time := [];
     _lock := false;
     _cleanup_thread := None;
     _stop_cleanup := false |}.

(** Field updates *)

Definition with_clients (f : dict Memory -> dict Memory) (m : ConnectionManager) :=
  {| max_pool_size := max_pool_size m; cleanup_interval := cleanup_interval m;
     idle_timeout := idle_timeout m; max_lifetime := max_lifetime m;
     _clients := f (_clients m); _connection_counts := _connection_counts m;
     _last_used := _last_used m; client_created_time := client_created_time m;
     _lock := _lock m; _cleanup_thread := _cleanup_thread m;
     _stop_cleanup := _stop_cleanup m |}.

Definition with_connection_counts (f : dict Z -> dict Z) (m : ConnectionManager) :=
  {| max_pool_size := max_pool_size m; cleanup_interval := cleanup_interval m;
     idle_timeout := idle_timeout m; max_lifetime := max_lifetime m;
     _clients := _clients m; _connection_counts := f (_connection_counts m);
     _last_used := _last_used m; client_created_time := client_created_time m;
     _lock := _lock m; _cleanup_thread := _cleanup_thread m;
     _stop_cleanup := _stop_cleanup m |}.

Definition with_last_used (f : dict Z -> dict Z) (m : ConnectionManager) :=
  {| max_pool_size := max_pool_size m; cleanup_interval := cleanup_interval m;
     idle_timeout := idle_timeout m; max_lifetime := max_lifetime m;
     _clients := _clients m; _connection_counts := _connection_counts m;
     _last_used := f (_last_used m); client_created_time := client_created_time m;
     _lock := _lock m; _cleanup_thread := _cleanup_thread m;
     _stop_cleanup := _stop_cleanup m |}.

Definition with_created_time (f : dict Z -> dict Z) (m : ConnectionManager) :=
  {| max_pool_size := max_pool_size m; cleanup_interval := cleanup_interval m;
     idle_timeout := idle_timeout m; max_lifetime := max_lifetime m;
     _clients := _clients m; _connection_counts := _connection_counts m;
     _last_used := _last_used m; client_created_time := f (client_created_time m);
     _lock := _lock m; _cleanup_thread := _cleanup_thread m;
     _stop_cleanup := _stop_cleanup m |}.

Definition with_lock_flag (b : bool) (m : ConnectionManager) :=
  {| max_pool_size := max_pool_size m; cleanup_interval := cleanup_interval m;
     idle_timeout := idle_timeout m; max_lifetime := max_lifetime m;
     _clients := _clients m; _connection_counts := _connection_counts m;
     _last_used := _last_used m; client_created_time := client_created_time m;
     _lock := b; _cleanup_thread := _cleanup_thread m;
     _stop_cleanup := _stop_cleanup m |}.

Definition with_cleanup_thread (t : option thread) (m : ConnectionManager) :=
  {| max_pool_size := max_pool_size m; cleanup_interval := cleanup_interval m;
     idle_timeout := idle_timeout m; max_lifetime := max_lifetime m;
     _clients := _clients m; _connection_counts := _connection_counts m;
     _last_used := _last_used m; client_created_time := client_created_time m;
     _lock := _lock m; _cleanup_thread := t;
     _stop_cleanup := _stop_cleanup m |}.

Definition with_stop_cleanup (b : bool) (m : ConnectionManager) :=
  {| max_pool_size := max_pool_size m; cleanup_interval := cleanup_interval m;
     idle_timeout := idle_timeout m; max_lifetime := max_lifetime m;
     _clients := _clients m; _connection_counts := _connection_counts m;
     _last_used := _last_used m; client_created_time := client_created_time m;
     _lock := _lock m; _cleanup_thread := _cleanup_thread m;
     _stop_cleanup := b |}.

Definition on_self (f : ConnectionManager -> ConnectionManager) (w : world) : world :=
  {| self := f (self w); environ := environ w; clock := clock w;
     ticks := ticks w; constructed := constructed w; trace := trace w |}.

Definition on_environ (f : dict string -> dict string) (w : world) : world :=
  {| self := self w; environ := f (environ w); clock := clock w;
     ticks := ticks w; constructed := constructed w; trace := trace w |}.

Definition emit (e : event) (w : world) : world :=
  {| self := self w; environ := environ w; clock := clock w;
     ticks := ticks w; constructed := constructed w; trace := trace w ++ [e] |}.

Definition tick (w : world) : world :=
  {| self := self w; environ := environ w; clock := clock w;
     ticks := S (ticks w); constructed := constructed w; trace := trace w |}.

Definition built (w : world) : world :=
  {| self := self w; environ := environ w; clock := clock w;
     ticks := ticks w; constructed := S (constructed w); trace := trace w |}.

(** ** The monad of methods *)

Inductive outcome (A : Type) :=
| Ret (a : A)        (* the call returned a *)
| Raise (e : exn)    (* the call raised e *)
| Block.             (* the call never returns *)
Arguments Ret {A} a.
Arguments Raise {A} e.
Arguments Block {A}.

Definition M (A : Type) := world -> outcome A * world.

Definition ret {A} (a : A) : M A := fun w => (Ret a, w).

Definition bind {A B} (c : M A) (k : A -> M B) : M B :=
  fun w =>
    match c w with
    | (Ret a, w') => k a w'
    | (Raise e, w') => (Raise e, w')
    | (Block, w') => (Block, w')
    end.

Notation "x <- c ;; k" := (bind c (fun x => k))
  (at level 61, c at next level, right associativity).
Notation "c ;; k" := (bind c (fun _ => k))
  (at level 61, right associativity).

Definition raise {A} (e : exn) : M A := fun w => (Raise e, w).

Definition gets {A} (f : ConnectionManager -> A) : M A :=
  fun w => (Ret (f (self w)), w).

Definition modify (f : ConnectionManager -> ConnectionManager) : M unit :=
  fun w => (Ret tt, on_self f w).

Definition log (e : event) : M unit := fun w => (Ret tt, emit e w).

(** [try: body except Exception as e: handler e] *)
Definition try_except {A} (body : M A) (handler : exn -> M A) : M A :=
  fun w =>
    match body w with
    | (Raise e, w') => handler e w'
    | r => r
    end.

(** [with self._lock: body].  Acquiring a held lock blocks; the lock is
    released when the body returns or raises. *)
Definition with_lock {A} (body : M A) : M A :=
  fun w =>
    if _lock (self w) then (Block, w)
    else
      match body (on_self (with_lock_flag true) w) with
      | (Block, w') => (Block, w')
      | (r, w') => (r, on_self (with_lock_flag false) w')
      end.

(** [for x in xs: body x] *)
Fixpoint for_each {X} (xs : list X) (body : X -> M unit) : M unit :=
  match xs with
  | [] => ret tt
  | x :: r => body x ;; for_each r body
  end.

(** [time.time()] *)
Definition time_time : M Z :=
  fun w => (Ret (clock w (ticks w)), tick w).

(** An external call. *)
Definition call {A} (r : result A) : M A :=
  match r with
  | Ok a => ret a
  | Err e => raise e
  end.

(** A store to [self.<f>[k]], recorded with the state of the lock. *)
Definition mutated (f : field) (k : string) : M unit :=
  held <- gets _lock ;; log (Mutated f k held).

(** [try: body finally: cleanup] *)
Definition try_finally {A} (body : M A) (cleanup : M unit) : M A :=
  fun w =>
    match body w with
    | (Block, w') => (Block, w')
    | (r, w') =>
        match cleanup w' with
        | (Ret _, w'') => (r, w'')
        | (Raise e, w'') => (Raise e, w'')
        | (Block, w'') => (Block, w'')
        end
    end.

(** [os.getenv(k)] and [os.environ[k] = v] *)
Definition os_getenv (k : string) : M (option string) :=
  fun w => (Ret (get k (environ w)), w).

Definition os_setenv (k v : string) : M unit :=
  fun w => (Ret tt, on_environ (set k v) w).

(** Truth value of a [str] or [None]. *)
Definition truthy (o : option string) : bool :=
  match o with
  | Some s => negb (String.eqb s "")
  | None => false
  end.

(** [o or d] *)
Definition or_default (o : option string) (d : string) : string :=
  match o with
  | Some s => if String.eqb s "" then d else s
  | None => d
  end.

(** [o == s] *)
Definition is_str (o : option string) (s : string) : bool :=
  match o with
  | Some t => String.eqb t s
  | None => false
  end.

(** [needle in hay] on strings *)
Fixpoint contains (needle hay : string) : bool :=
  if String.prefix needle hay then true
  else match hay with
       | EmptyString => false
       | String _ r => contains needle r
       end.

(** ** The configuration handed to mem0 (src/utils.py) *)

Record LlmConfig := {
  llm_model : option string;
  llm_temperature : string;              (* the literal 0.2 *)
  llm_max_tokens : Z;
  llm_base_url : option (string * string)  (* key and value, when set *)
}.

Record EmbedderConfig := {
  ec_model : string;
  ec_embedding_dims : Z;
  ec_base_url : option (string * string)
}.

Record VectorStoreConfig := {
  connection_string : string;
  collection_name : string;
  embedding_model_dims : Z
}.

Record Config := {
  cfg_llm : option (string * LlmConfig);            (* provider, config *)
  cfg_embedder : option (string * EmbedderConfig);  (* provider, config *)
  cfg_vector_store : option (string * VectorStoreConfig)
}.

(** ** The libraries behind the pool *)

Record Postgres := {
  pg_connect : string -> result unit;        (* psycopg2.connect(url) *)
  pg_cursor : result unit;                   (* conn.cursor() *)
  pg_execute : result unit;                  (* cursor.execute(query) *)
  pg_fetchone : result (option (list Z));    (* cursor.fetchone() *)
  pg_cursor_close : result unit;             (* cursor.close() *)
  pg_conn_close : result unit                (* conn.close() *)
}.

Record Library := {
  Memory_from_config : nat -> Config -> result Memory;
    (* mem0: the n-th call of Memory.from_config *)
  py_int : string -> result Z;               (* int(s) on a str *)
  psycopg2 : Postgres
}.

Section Pool.

Variable lib : Library.

(** ** The client factory: [get_mem0_client] (src/utils.py) *)

(** [if llm_api_key and not os.environ.get("OPENAI_API_KEY"): os.environ[...] = llm_api_key] *)
Definition set_openai_key_if_unset (llm_api_key : option string) : M unit :=
  current <- os_getenv "OPENAI_API_KEY" ;;
  match llm_api_key with
  | Some key =>
      if truthy llm_api_key && negb (truthy current)
      then os_setenv "OPENAI_API_KEY" key
      else ret tt
  | None => ret tt
  end.

(** [llm_base_url = os.getenv('LLM_BASE_URL')], stored under [key] when truthy *)
Definition base_url_entry (key : string) : M (option (string * string)) :=
  llm_base_url <- os_getenv "LLM_BASE_URL" ;;
  match llm_base_url with
  | Some url => ret (if truthy llm_base_url then Some (key, url) else None)
  | None => ret None
  end.

(** [int(embedding_dims) if embedding_dims else default_dims] *)
Definition dims_or_default (embedding_dims : option string) (default_dims : Z) : M Z :=
  match embedding_dims with
  | Some s => if truthy embedding_dims then call (py_int lib s) else ret default_dims
  | None => ret default_dims
  end.

Definition llm_section (llm_provider llm_api_key llm_model : option string)
  : M (option (string * LlmConfig)) :=
  if is_str llm_provider "openai" || is_str llm_provider "openrouter" then
    base <- base_url_entry "openai_base_url" ;;
    set_openai_key_if_unset llm_api_key ;;
    (match llm_api_key with
     | Some key =>
         if is_str llm_provider "openrouter" && truthy llm_api_key
         then os_setenv "OPENROUTER_API_KEY" key
         else ret tt
     | None => ret tt
     end) ;;
    ret (Some ("openai",
               {| llm_model := llm_model; llm_temperature := "0.2";
                  llm_max_tokens := 2000; llm_base_url := base |}))
  else if is_str llm_provider "ollama" then
    base <- base_url_entry "ollama_base_url" ;;
    ret (Some ("ollama",
               {| llm_model := llm_model; llm_temperature := "0.2";
                  llm_max_tokens := 2000; llm_base_url := base |}))
  else ret None.

Definition embedder_section (llm_provider llm_api_key embedding_model embedding_dims : option string)
  : M (option (string * EmbedderConfig)) :=
  if is_str llm_provider "openai" then
    let default_dims :=
      if is_str embedding_model "text-embedding-3-large" then 3072
      else if is_str embedding_model "text-embedding-ada-002" then 1536
      else 1536 in
    dims <- dims_or_default embedding_dims default_dims ;;
    base <- base_url_entry "openai_base_url" ;;
    set_openai_key_if_unset llm_api_key ;;
    ret (Some ("openai",
               {| ec_model := or_default embedding_model "text-embedding-3-small";
                  ec_embedding_dims := dims; ec_base_url := base |}))
  else if is_str llm_provider "ollama" then
    let named (s : string) :=
      match embedding_model with
      | Some m => truthy embedding_model && contains s m
      | None => false
      end in
    let default_dims :=
      if named "nomic-embed-text" then 768
      else if named "all-minilm" then 384
      else 768 in
    dims <- dims_or_default embedding_dims default_dims ;;
    base <- base_url_entry "ollama_base_url" ;;
    ret (Some ("ollama",
               {| ec_model := or_default embedding_model "nomic-embed-text";
                  ec_embedding_dims := dims; ec_base_url := base |}))
  else ret None.

(** [Memory.from_config(config)] *)
Definition from_config (config : Config) : M Memory :=
  fun w => call (Memory_from_config lib (constructed w) config) (built w).

Definition get_mem0_client : M Memory :=
  llm_provider <- os_getenv "LLM_PROVIDER" ;;
  llm_api_key <- os_getenv "LLM_API_KEY" ;;
  llm_model <- os_getenv "LLM_CHOICE" ;;
  embedding_model <- os_getenv "EMBEDDING_MODEL_CHOICE" ;;
  embedding_dims <- os_getenv "EMBEDDING_DIMS" ;;
  llm <- llm_section llm_provider llm_api_key llm_model ;;
  embedder <- embedder_section llm_provider llm_api_key embedding_model embedding_dims ;;
  let embedder_dims :=
    match embedder with
    | Some (_, c) => ec_embedding_dims c
    | None => 1536
    end in
  database_url <- os_getenv "DATABASE_URL" ;;
  from_config
    {| cfg_llm := llm;
       cfg_embedder := embedder;
       cfg_vector_store :=
         Some ("supabase",
               {| connection_string :=
                    match database_url with Some s => s | None => "" end;
                  collection_name := "mem0_memories";
                  embedding_model_dims := embedder_dims |}) |}.

(** ** [ConnectionManager.get_connection_count] *)

(** [row[0]] on the value of [fetchone()] *)
Definition first_column (row : option (list Z)) : M Z :=
  match row with
  | None => raise TypeError
  | Some [] => raise IndexError
  | Some (count :: _) => ret count
  end.

(** The body of the [try] of [get_connection_count]. *)
Definition count_sessions : M Z :=
  database_url <- os_getenv "DATABASE_URL" ;;
  match database_url with
  | Some url =>
      if truthy database_url then
        call (pg_connect (psycopg2 lib) url) ;;
        call (pg_cursor (psycopg2 lib)) ;;
        call (pg_execute (psycopg2 lib)) ;;
        row <- call (pg_fetchone (psycopg2 lib)) ;;
        count <- first_column row ;;
        call (pg_cursor_close (psycopg2 lib)) ;;
        call (pg_conn_close (psycopg2 lib)) ;;
        ret count
      else ret 0
  | None => ret 0
  end.

Definition get_connection_count : M Z :=
  try_except count_sessions
    (fun e => log (ConnCountError e) ;; ret (-1)).

(** ** [ConnectionManager._cleanup_client] *)

(** The [hasattr] probes on the vector store: the closer they select and
    what calling it does. *)
Definition vector_closer (client : Memory) : option (method * result unit) :=
  match vector_store client with
  | Some vs =>
      match vs_client vs with
      | Some vector_client =>
          match vc_close vector_client with
          | Some r => Some (vector_client_close, r)
          | None =>
              match vc_inner_close vector_client with
              | Some r => Some (vector_inner_client_close, r)
              | None => None
              end
          end
      | None => None
      end
  | None => None
  end.

(** The probes on the database. *)
Definition db_closer (client : Memory) : option (method * result unit) :=
  match db client with
  | Some d =>
      match db_connection d with
      | Some r => Some (db_connection_close, r)
      | None =>
          match db_engine d with
          | Some r => Some (db_engine_dispose, r)
          | None => None
          end
      end
  | None => None
  end.

(** Log the selected closer and call it. *)
Definition close_with (client : Memory) (closer : option (method * result unit)) : M unit :=
  match closer with
  | Some (m, r) =>
      log (Closing m) ;;
      log (Called (mem_id client) m) ;;
      call r
  | None => ret tt
  end.

(** [del self._clients[client_id]] *)
Definition del_client (client_id : string) : M unit :=
  clients <- gets _clients ;;
  if mem client_id clients
  then mutated f_clients client_id ;; modify (with_clients (del client_id))
  else raise (KeyError client_id).

(** [del self._connection_counts[client_id]] *)
Definition del_connection_count (client_id : string) : M unit :=
  counts <- gets _connection_counts ;;
  if mem client_id counts
  then mutated f_connection_counts client_id ;;
       modify (with_connection_counts (del client_id))
  else raise (KeyError client_id).

Definition _cleanup_client (client_id : string) : M unit :=
  clients <- gets _clients ;;
  match get client_id clients with
  | Some client =>
      log (Cleaning client_id) ;;
      try_except
        (close_with client (vector_closer client) ;;
         close_with client (db_closer client) ;;
         del_client client_id ;;
         del_connection_count client_id ;;
         log (CleanupCompleted client_id))
        (fun e => log (CleanupError client_id e))
  | None => ret tt
  end.

(** [_cleanup_client] on either side of the point between its two [del]
    statements.  The reclaimer calls [_cleanup_client] with the lock
    free, so a call of another thread can run at that point.  The first
    half says whether the second is still to run. *)
Definition _cleanup_client_begin (client_id : string) : M bool :=
  clients <- gets _clients ;;
  match get client_id clients with
  | Some client =>
      log (Cleaning client_id) ;;
      try_except
        (close_with client (vector_closer client) ;;
         close_with client (db_closer client) ;;
         del_client client_id ;;
         ret true)
        (fun e => log (CleanupError client_id e) ;; ret false)
  | None => ret false
  end.

Definition _cleanup_client_end (client_id : string) : M unit :=
  try_except
    (del_connection_count client_id ;;
     log (CleanupCompleted client_id))
    (fun e => log (CleanupError client_id e)).

(** ** [release_client], [cleanup_all] *)

Definition release_client (client_id : string) : M unit :=
  with_lock
    (counts <- gets _connection_counts ;;
     match get client_id counts with
     | Some n =>
         mutated f_connection_counts client_id ;;
         modify (with_connection_counts (set client_id (n - 1))) ;;
         if n - 1 <=? 0 then _cleanup_client client_id else ret tt
     | None => ret tt
     end).

Definition cleanup_all : M unit :=
  with_lock
    (clients <- gets _clients ;;
     let client_ids := keys clients in
     for_each client_ids _cleanup_client) ;;
  log GcCollect ;;
  log AllCleaned.

(** ** [_force_cleanup_idle_connections], [get_client]

    [hasattr(self, '_last_used')] holds for every instance ([__init__]
    sets the attribute), so that branch is not taken. *)

Definition _force_cleanup_idle_connections : M unit :=
  try_except
    (current_time <- time_time ;;
     full_timeout <- gets idle_timeout ;;
     let idle_timeout := full_timeout / 2 in
     clients_to_remove <-
       with_lock
         (last_used <- gets _last_used ;;
          ret (map fst
                 (filter (fun kv => current_time - snd kv >? idle_timeout)
                         (items last_used)))) ;;
     for_each clients_to_remove
       (fun client_id => _cleanup_client client_id ;; log (ForceRemoved client_id)))
    (fun e => log (ForceError e)).

Definition _create_client : M Memory := get_mem0_client.

Definition get_client (client_id : string) : M Memory :=
  with_lock
    (current_time <- time_time ;;
     clients <- gets _clients ;;
     (if negb (mem client_id clients) then
        max <- gets max_pool_size ;;
        (if len clients >=? max
         then log (PoolFull (len clients) max) ;; _force_cleanup_idle_connections
         else ret tt) ;;
        log (Creating client_id) ;;
        client <- _create_client ;;
        mutated f_clients client_id ;;
        modify (with_clients (set client_id client)) ;;
        mutated f_connection_counts client_id ;;
        modify (with_connection_counts (set client_id 0)) ;;
        modify (with_created_time (set client_id current_time))
      else ret tt) ;;
     counts <- gets _connection_counts ;;
     match get client_id counts with
     | Some n =>
         mutated f_connection_counts client_id ;;
         modify (with_connection_counts (set client_id (n + 1))) ;;
         modify (with_last_used (set client_id current_time)) ;;
         clients <- gets _clients ;;
         match get client_id clients with
         | Some client => ret client
         | None => raise (KeyError client_id)
         end
     | None => raise (KeyError client_id)
     end).

(** ** The reclaimer: [start_periodic_cleanup], [stop_periodic_cleanup],
    [_periodic_cleanup], [_log_stats] *)

(** [interval or self.cleanup_interval] *)
Definition start_periodic_cleanup (interval : option Z) : M unit :=
  t <- gets _cleanup_thread ;;
  match t with
  | Some Alive => ret tt
  | _ =>
      default <- gets cleanup_interval ;;
      let cleanup_interval :=
        match interval with
        | Some i => if i =? 0 then default else i
        | None => default
        end in
      modify (with_stop_cleanup false) ;;
      modify (with_cleanup_thread (Some Alive)) ;;
      log (Started cleanup_interval)
  end.

(** [exits]: whether the reclaimer thread ends within the join's timeout. *)
Definition stop_periodic_cleanup (exits : bool) : M unit :=
  modify (with_stop_cleanup true) ;;
  t <- gets _cleanup_thread ;;
  (match t with
   | Some _ =>
       log (Joined 5) ;;
       if exits then modify (with_cleanup_thread (Some Finished)) else ret tt
   | None => ret tt
   end) ;;
  log Stopped.

Definition _log_stats : M unit :=
  try_except
    (stats <-
       with_lock
         (clients <- gets _clients ;;
          counts <- gets _connection_counts ;;
          ret (len clients, fold_right Z.add 0 (map snd counts))) ;;
     db_connections <- get_connection_count ;;
     log (Stats (fst stats) (snd stats) db_connections) ;;
     with_lock
       (counts <- gets _connection_counts ;;
        for_each (items counts) (fun _ => time_time ;; ret tt)))
    (fun e => log (StatsError e)).

(** The entries the scan marks at [current_time]. *)
Definition expired (idle_timeout max_lifetime current_time : Z)
  (created : dict Z) (entry : string * Z) : bool :=
  let client_id := fst entry in
  let last_used := snd entry in
  let created_time :=
    match get client_id created with
    | Some t => t
    | None => current_time
    end in
  let idle_time := current_time - last_used in
  let lifetime := current_time - created_time in
  (idle_time >? idle_timeout) || (lifetime >? max_lifetime).

(** The first half of an iteration: read the clock and, under the lock,
    collect [clients_to_remove]. *)
Definition _periodic_cleanup_mark : M (list string) :=
  idle_timeout <- gets idle_timeout ;;
  max_lifetime <- gets max_lifetime ;;
  current_time <- time_time ;;
  with_lock
    (last_used <- gets _last_used ;;
     created <- gets client_created_time ;;
     ret (map fst
            (filter (expired idle_timeout max_lifetime current_time created)
                    (items last_used)))).

(** The second half: [for client_id in clients_to_remove: ...], after the
    [with] block has ended. *)
Definition _periodic_cleanup_evict (clients_to_remove : list string) : M unit :=
  for_each clients_to_remove
    (fun client_id => _cleanup_client client_id ;; log (Removed client_id)).

(** One iteration of the loop of [_periodic_cleanup]. *)
Definition _periodic_cleanup_scan (interval : Z) : M unit :=
  try_except
    (clients_to_remove <- _periodic_cleanup_mark ;;
     _periodic_cleanup_evict clients_to_remove ;;
     if interval >=? 60 then _log_stats else ret tt)
    (fun e => log (PeriodicError e)).

(** The loop over its first [wakes] wake-ups:
    [while not self._stop_cleanup.wait(interval): ...]. *)
Fixpoint _periodic_cleanup (interval : Z) (wakes : nat) : M unit :=
  match wakes with
  | O => ret tt
  | S n =>
      stop <- gets _stop_cleanup ;;
      if stop then ret tt
      else _periodic_cleanup_scan interval ;; _periodic_cleanup interval n
  end.

(** ** [managed_mem0_client] *)

Definition managed_mem0_client {A} (client_id : string) (body : Memory -> M A) : M A :=
  client <- get_client client_id ;;
  try_finally (body client) (release_client client_id).

End Pool.

(** ** Sample handles, libraries and processes *)

(** A handle with a vector client and a database connection; [vector]
    and [database] say what their [close()] does. *)
Definition handle (n : nat) (vector database : result unit) : Memory :=
  {| mem_id := n;
     vector_store :=
       Some {| vs_client := Some {| vc_close := Some vector; vc_inner_close := None |} |};
     db := Some {| db_connection := Some database; db_engine := None |} |}.

Definition sound_handle (n : nat) : Memory := handle n (Ok tt) (Ok tt).

Definition faulty_handle (n : nat) : Memory := handle n (Err (LibraryError 1)) (Ok tt).

Definition postgres_down : Postgres :=
  {| pg_connect := fun _ => Err (LibraryError 2);
     pg_cursor := Ok tt; pg_execute := Ok tt; pg_fetchone := Ok None;
     pg_cursor_close := Ok tt; pg_conn_close := Ok tt |}.

Definition postgres_up (sessions : Z) : Postgres :=
  {| pg_connect := fun _ => Ok tt;
     pg_cursor := Ok tt; pg_execute := Ok tt; pg_fetchone := Ok (Some [sessions]);
     pg_cursor_close := Ok tt; pg_conn_close := Ok tt |}.

(** A mem0 that accepts every configuration and builds handles with [mk]. *)
Definition lenient_library (mk : nat -> Memory) : Library :=
  {| Memory_from_config := fun n _ => Ok (mk n);
     py_int := fun _ => Err ValueError;
     psycopg2 := postgres_down |}.


(** Such a mem0, which accepts every other configuration and builds
    handles with [mk]. *)
Definition strict_library (mk : nat -> Memory) : Library :=
  {| Memory_from_config := fun n cfg =>
       match cfg_vector_store cfg with
       | Some (_, vs) =>
           if String.eqb (connection_string vs) ""
           then Err (LibraryError 3) else Ok (mk n)
       | None => Ok (mk n)
       end;
     py_int := fun _ => Err ValueError;
     psycopg2 := postgres_down |}.

(** A process whose clock reads [start], [start + 1], ... *)
Definition process (m : ConnectionManager) (env : dict string) (start : Z) : world :=
  {| self := m; environ := env; clock := fun n => start + Z.of_nat n;
     ticks := 0; constructed := 0; trace := [] |}.

(** Run [c] and keep the state. *)
Definition exec {A} (c : M A) (w : world) : world := snd (c w).

(** Run [c] and keep the outcome. *)
Definition eval {A} (c : M A) (w : world) : outcome A := fst (c w).

(** ** Notions used in the statements *)

(** What a closer does when called; no closer, nothing to fail. *)
Definition closer_result (closer : option (method * result unit)) : result unit :=
  match closer with
  | Some (_, r) => r
  | None => Ok tt
  end.

(** Neither close step of [client] raises. *)
Definition closes_cleanly (client : Memory) : bool :=
  match closer_result (vector_closer client), closer_result (db_closer client) with
  | Ok _, Ok _ => true
  | _, _ => false
  end.

(** The manager after [_cleanup_client client_id]. *)
Definition cleaned (client_id : string) (m : ConnectionManager) : ConnectionManager :=
  match get client_id (_clients m) with
  | Some client =>
      if closes_cleanly client
      then with_connection_counts (del client_id) (with_clients (del client_id) m)
      else m
  | None => m
  end.

(** The manager after the first half of a teardown, whether the second
    half is to run, and the manager after the second half. *)
Definition begins (client_id : string) (m : ConnectionManager) : bool :=
  match get client_id (_clients m) with
  | Some client => closes_cleanly client
  | None => false
  end.

Definition begun (client_id : string) (m : ConnectionManager) : ConnectionManager :=
  if begins client_id m then with_clients (del client_id) m else m.

Definition ended (client_id : string) (m : ConnectionManager) : ConnectionManager :=
  with_connection_counts (del client_id) m.

Definition is_cleaning (k : string) (e : event) : bool :=
  match e with
  | Cleaning k' => String.eqb k k'
  | _ => false
  end.

(** How many times the teardown of [k] was started in a trace. *)
Definition cleanings (k : string) (t : list event) : nat :=
  length (filter (is_cleaning k) t).

(** The time a trace may have spent in [Thread.join]. *)
Definition join_time (t : list event) : Z :=
  fold_right (fun e acc => match e with Joined timeout => timeout + acc | _ => acc end) 0 t.

(** The lock states under which a trace touched the pool maps. *)
Definition mutation_locks (t : list event) : list bool :=
  flat_map (fun e => match e with Mutated _ _ b => [b] | _ => [] end) t.

(** The closers called on handle [obj] in a trace. *)
Definition calls_on (obj : nat) (t : list event) : list method :=
  flat_map (fun e => match e with
                     | Called o m => if Nat.eqb o obj then [m] else []
                     | _ => []
                     end) t.

(** The process after a step that leaves the manager as [m] and logs [evs]. *)
Definition after (m : ConnectionManager) (evs : list event) (w : world) : world :=
  {| self := m; environ := environ w; clock := clock w; ticks := ticks w;
     constructed := constructed w; trace := trace w ++ evs |}.

Definition closer_events (client : Memory) (closer : option (method * result unit))
  : list event :=
  match closer with
  | Some (m, _) => [Closing m; Called (mem_id client) m]
  | None => []
  end.

(** What [_cleanup_client client_id] logs on manager [m]. *)
Definition cleanup_events (client_id : string) (m : ConnectionManager) : list event :=
  match get client_id (_clients m) with
  | None => []
  | Some client =>
      Cleaning client_id ::
      closer_events client (vector_closer client) ++
      match closer_result (vector_closer client) with
      | Err e => [CleanupError client_id e]
      | Ok _ =>
          closer_events client (db_closer client) ++
          match closer_result (db_closer client) with
          | Err e => [CleanupError client_id e]
          | Ok _ =>
              Mutated f_clients client_id (_lock m) ::
              if mem client_id (_connection_counts m)
              then [Mutated f_connection_counts client_id (_lock m);
                    CleanupCompleted client_id]
              else [CleanupError client_id (KeyError client_id)]
          end
      end
  end.

(** The manager after the teardown of each key of [ks] in turn. *)
Definition sweep (ks : list string) (m : ConnectionManager) : ConnectionManager :=
  fold_left (fun m k => cleaned k m) ks m.

(** What a loop over [ks] logs when its body at [k] tears [k] down and
    then logs [note k]. *)
Fixpoint sweep_events (note : string -> list event) (ks : list string)
  (m : ConnectionManager) : list event :=
  match ks with
  | [] => []
  | k :: r => (cleanup_events k m ++ note k) ++ sweep_events note r (cleaned k m)
  end.

(** The client map after the teardown of one key, and of a list of keys. *)
Definition purge1 (k : string) (d : dict Memory) : dict Memory :=
  match get k d with
  | Some c => if closes_cleanly c then del k d else d
  | None => d
  end.

Definition purge (ks : list string) (d : dict Memory) : dict Memory :=
  fold_left (fun d k => purge1 k d) ks d.

(** The entries whose teardown raises. *)
Definition faulty (d : dict Memory) : dict Memory :=
  filter (fun kv => negb (closes_cleanly (snd kv))) d.

(** The keys the reclaimer marks on manager [m] at time [now]. *)
Definition marked (m : ConnectionManager) (now : Z) : list string :=
  map fst
    (filter (expired (idle_timeout m) (max_lifetime m) now (client_created_time m))
            (items (_last_used m))).

(** The manager after [get_client] has created [client] under [client_id]
    at time [now]. *)
Definition admitted (client_id : string) (client : Memory) (now : Z)
  (m : ConnectionManager) : ConnectionManager :=
  with_last_used (set client_id now)
    (with_connection_counts (set client_id 1)
       (with_created_time (set client_id now)
          (with_clients (set client_id client) m))).

(** The manager after [get_client] has found [client_id], used [n] times,
    at time [now]. *)
Definition reused (client_id : string) (n now : Z) (m : ConnectionManager)
  : ConnectionManager :=
  with_last_used (set client_id now)
    (with_connection_counts (set client_id (n + 1)) m).

(** [w'] differs from [w] at most in environment variables other than
    DATABASE_URL. *)
Definition env_only (w w' : world) : Prop :=
  self w' = self w /\ trace w' = trace w /\ clock w' = clock w /\
  ticks w' = ticks w /\ constructed w' = constructed w /\
  get "DATABASE_URL" (environ w') = get "DATABASE_URL" (environ w).

(** The outcome of a library call. *)
Definition outcome_of {A} (r : result A) : outcome A :=
  match r with
  | Ok a => Ret a
  | Err e => Raise e
  end.

(** ** Scenarios *)

(** The pool of the scenario: [maxSize = 2], [idleTimeout = 100],
    [maxLifetime = 1000]; the clock starts at 0. *)
Definition empty_pool : world := process (__init__ 2 300 100 1000) [] 0.

(** "a" and "b" acquired once each, with handles that close cleanly. *)
Definition two_clients : world :=
  exec (get_client (lenient_library sound_handle) "b")
    (exec (get_client (lenient_library sound_handle) "a") empty_pool).

(** "a" acquired once; the close of its vector client raises. *)
Definition one_faulty_client : world :=
  exec (get_client (lenient_library faulty_handle) "a") empty_pool.

(** The same process looked at when the clock reads [now]. *)
Definition at_time (now : Z) (w : world) : world :=
  {| self := self w; environ := environ w; clock := fun n => now + Z.of_nat n;
     ticks := 0; constructed := constructed w; trace := trace w |}.

(** The steps of a process on its pool, and the state they leave.

    [get_client], [release_client] and [cleanup_all] hold the lock for
    all they do to the maps, so the calls of any number of threads follow
    one another.  The reclaimer evicts with the lock free.  [Scan] is a
    whole iteration of its loop with no call of another thread in
    between, which is one of the runs the program has; [EvictBegin] and
    [EvictEnd] are the two halves of one of its evictions, between which
    the calls of other threads can be placed.  The reclaimer runs
    [EvictEnd k] only after an [EvictBegin k] that has deleted the
    client. *)
Inductive op :=
| Acquire (client_id : string)
| Release (client_id : string)
| EvictAll
| Scan (interval : Z)
| StartReclaiming (interval : option Z)
| StopReclaiming (exits : bool)
| EvictBegin (client_id : string)
| EvictEnd (client_id : string).

Definition step (lib : Library) (o : op) (w : world) : world :=
  match o with
  | Acquire k => exec (get_client lib k) w
  | Release k => exec (release_client k) w
  | EvictAll => exec cleanup_all w
  | Scan interval => exec (_periodic_cleanup_scan lib interval) w
  | StartReclaiming interval => exec (start_periodic_cleanup interval) w
  | StopReclaiming exits => exec (stop_periodic_cleanup exits) w
  | EvictBegin k => exec (_cleanup_client_begin k) w
  | EvictEnd k => exec (_cleanup_client_end k) w
  end.

(** The steps that are whole calls: everything but the halves of an
    eviction. *)
Definition whole (o : op) : bool :=
  match o with
  | EvictBegin _ | EvictEnd _ => false
  | _ => true
  end.

Definition steps (lib : Library) (os : list op) (w : world) : world :=
  fold_left (fun w o => step lib o w) os w.

(** Every key with a last-used time or a creation time in [w] still has
    one in [w']. *)
Definition remembers (w w' : world) : Prop :=
  forall k,
    (mem k (_last_used (self w)) = true -> mem k (_last_used (self w')) = true) /\
    (mem k (client_created_time (self w)) = true ->
     mem k (client_created_time (self w')) = true).

(** ** Well-formed pools *)

(** What one call can do to the manager.  [P] holds of the handles the
    call may store. *)
Inductive pool_move (P : Memory -> Prop) : ConnectionManager -> ConnectionManager -> Prop :=
| move_none m : pool_move P m m
| move_lock m b : pool_move P m (with_lock_flag b m)
| move_thread m t : pool_move P m (with_cleanup_thread t m)
| move_stop m b : pool_move P m (with_stop_cleanup b m)
| move_reuse m k c n now :
    get k (_clients m) = Some c ->
    get k (_connection_counts m) = Some n ->
    pool_move P m (reused k n now m)
| move_admit m k c now :
    get k (_clients m) = None ->
    P c ->
    pool_move P m (admitted k c now m)
| move_release m k n :
    get k (_connection_counts m) = Some n ->
    pool_move P m
      (if n - 1 <=? 0
       then cleaned k (with_connection_counts (set k (n - 1)) m)
       else with_connection_counts (set k (n - 1)) m)
| move_clean m k : pool_move P m (cleaned k m)
| move_then m1 m2 m3 : pool_move P m1 m2 -> pool_move P m2 m3 -> pool_move P m1 m3.

(** The handles [Memory.from_config] of [lib] can return. *)
Definition built_by (lib : Library) (c : Memory) : Prop :=
  exists n cfg, Memory_from_config lib n cfg = Ok c.

(** The maps of the manager agree: no key twice, a refcount exactly for
    the keys that have a client, and both times for every such key. *)
Record pool_ok (m : ConnectionManager) : Prop := {
  ok_clients : NoDup (keys (_clients m));
  ok_counts : NoDup (keys (_connection_counts m));
  ok_last_used : NoDup (keys (_last_used m));
  ok_created : NoDup (keys (client_created_time m));
  ok_same : forall k, mem k (_connection_counts m) = mem k (_clients m);
  ok_times : forall k, mem k (_clients m) = true ->
                       mem k (_last_used m) = true /\
                       mem k (client_created_time m) = true
}.

(** Every handle of the pool closes without raising and every refcount
    is positive. *)
Definition all_held (m : ConnectionManager) : Prop :=
  (forall k c, get k (_clients m) = Some c -> closes_cleanly c = true) /\
  (forall k n, get k (_connection_counts m) = Some n -> 1 <= n).

(** [lib] only builds handles that close without raising. *)
Definition clean_library (lib : Library) : Prop :=
  forall c, built_by lib c -> closes_cleanly c = true.

(** A block that uses a handle without calling the pool: it ends, and
    leaves the manager as it found it. *)
Definition leaves_pool_alone {A} (body : M A) : Prop :=
  forall w, eval body w <> Block /\ self (exec body w) = self w.

(** The keys [_force_cleanup_idle_connections] collects on manager [m] at
    time [now]: those idle for more than half the idle timeout, rounded
    down. *)
Definition pressure_marked (m : ConnectionManager) (now : Z) : list string :=
  map fst (filter (fun kv => now - snd kv >? idle_timeout m / 2) (items (_last_used m))).

(** ** What [get_mem0_client] assembles, as functions of the environment *)

(** The base-url entry stored under [key]. *)
Definition base_url_of (key : string) (env : dict string) : option (string * string) :=
  match get "LLM_BASE_URL" env with
  | Some url => if truthy (Some url) then Some (key, url) else None
  | None => None
  end.

(** The environment after [set_openai_key_if_unset]. *)
Definition openai_key_environ (llm_api_key : option string) (env : dict string)
  : dict string :=
  match llm_api_key with
  | Some key =>
      if truthy llm_api_key && negb (truthy (get "OPENAI_API_KEY" env))
      then set "OPENAI_API_KEY" key env
      else env
  | None => env
  end.

(** The environment after the LLM part. *)
Definition llm_environ (env : dict string) : dict string :=
  let p := get "LLM_PROVIDER" env in
  let a := get "LLM_API_KEY" env in
  if is_str p "openai" || is_str p "openrouter" then
    match a with
    | Some key =>
        if is_str p "openrouter" && truthy a
        then set "OPENROUTER_API_KEY" key (openai_key_environ a env)
        else openai_key_environ a env
    | None => openai_key_environ a env
    end
  else env.

(** The ["llm"] entry of the configuration. *)
Definition llm_value (env : dict string) : option (string * LlmConfig) :=
  let p := get "LLM_PROVIDER" env in
  if is_str p "openai" || is_str p "openrouter" then
    Some ("openai",
          {| llm_model := get "LLM_CHOICE" env; llm_temperature := "0.2";
             llm_max_tokens := 2000; llm_base_url := base_url_of "openai_base_url" env |})
  else if is_str p "ollama" then
    Some ("ollama",
          {| llm_model := get "LLM_CHOICE" env; llm_temperature := "0.2";
             llm_max_tokens := 2000; llm_base_url := base_url_of "ollama_base_url" env |})
  else None.

(** The dimensions used when EMBEDDING_DIMS is unset or empty. *)
Definition default_dims (env : dict string) : Z :=
  let p := get "LLM_PROVIDER" env in
  let em := get "EMBEDDING_MODEL_CHOICE" env in
  if is_str p "openai" then
    if is_str em "text-embedding-3-large" then 3072 else 1536
  else if is_str p "ollama" then
    match em with
    | Some m =>
        if truthy em && contains "nomic-embed-text" m then 768
        else if truthy em && contains "all-minilm" m then 384
        else 768
    | None => 768
    end
  else 1536.

(** The dimensions of the embedder: EMBEDDING_DIMS through [int] when it
    is set and not empty. *)
Definition embedder_dims (lib : Library) (env : dict string) : result Z :=
  match get "EMBEDDING_DIMS" env with
  | Some s => if truthy (Some s) then py_int lib s else Ok (default_dims env)
  | None => Ok (default_dims env)
  end.

(** The ["embedder"] entry of the configuration, for dimensions [dims]. *)
Definition embedder_value (env : dict string) (dims : Z) : option (string * EmbedderConfig) :=
  let p := get "LLM_PROVIDER" env in
  let em := get "EMBEDDING_MODEL_CHOICE" env in
  if is_str p "openai" then
    Some ("openai",
          {| ec_model := or_default em "text-embedding-3-small";
             ec_embedding_dims := dims;
             ec_base_url := base_url_of "openai_base_url" env |})
  else if is_str p "ollama" then
    Some ("ollama",
          {| ec_model := or_default em "nomic-embed-text";
             ec_embedding_dims := dims;
             ec_base_url := base_url_of "ollama_base_url" env |})
  else None.

(** Whether the provider has an embedder section. *)
Definition has_embedder (env : dict string) : bool :=
  is_str (get "LLM_PROVIDER" env) "openai" || is_str (get "LLM_PROVIDER" env) "ollama".

(** The configuration handed to [Memory.from_config], for embedder
    dimensions [dims]. *)
Definition config_of (env : dict string) (dims : Z) : Config :=
  {| cfg_llm := llm_value env;
     cfg_embedder := embedder_value env dims;
     cfg_vector_store :=
       Some ("supabase",
             {| connection_string :=
                  match get "DATABASE_URL" env with Some s => s | None => "" end;
                collection_name := "mem0_memories";
                embedding_model_dims := if has_embedder env then dims else 1536 |}) |}.

(** The process with environment [env]. *)
Definition with_environ (env : dict string) (w : world) : world :=
  {| self := self w; environ := env; clock := clock w; ticks := ticks w;
     constructed := constructed w; trace := trace w |}.

(** A mem0 that accepts every configuration, an [int] that reads every
    string as [dims], and a database with [sessions] sessions. *)
Definition answering_library (mk : nat -> Memory) (dims sessions : Z) : Library :=
  {| Memory_from_config := fun n _ => Ok (mk n);
     py_int := fun _ => Ok dims;
     psycopg2 := postgres_up sessions |}.

(** A process with an empty pool and environment [env]. *)
Definition configured (env : dict string) : world :=
  process (__init__ 10 300 600 3600) env 0.

(** ** The server's lifespan: [mem0_lifespan] (src/main.py)

    The [print]s write to standard output, which the state does not
    hold. *)

(** The [try] block up to the [yield]. *)
Definition lifespan_startup (lib : Library) : M Memory :=
  start_periodic_cleanup (Some 300) ;;
  mem0_client <- get_client lib "main_server" ;;
  initial_connections <- get_connection_count lib ;;
  ret mem0_client.

(** The [finally] block. *)
Definition lifespan_shutdown (lib : Library) (exits : bool) : M unit :=
  try_except
    (release_client "main_server" ;;
     stop_periodic_cleanup exits ;;
     cleanup_all ;;
     final_connections <- get_connection_count lib ;;
     ret tt)
    (fun cleanup_error => ret tt).


(** The manager after [start_periodic_cleanup] and after
    [stop_periodic_cleanup]. *)
Definition started (m : ConnectionManager) : ConnectionManager :=
  match _cleanup_thread m with
  | Some Alive => m
  | _ => with_cleanup_thread (Some Alive) (with_stop_cleanup false m)
  end.

Definition stopped (exits : bool) (m : ConnectionManager) : ConnectionManager :=
  match _cleanup_thread m with
  | Some _ =>
      if exits then with_cleanup_thread (Some Finished) (with_stop_cleanup true m)
      else with_stop_cleanup true m
  | None => with_stop_cleanup true m
  end.

(** Every handle of the pool closes without raising. *)
Definition closable (m : ConnectionManager) : Prop :=
  forall k c, get k (_clients m) = Some c -> closes_cleanly c = true.

(** The manager between calls: the lock is free, the maps agree and the
    handles close without raising. *)
Definition quiescent (m : ConnectionManager) : Prop :=
  _lock m = false /\ pool_ok m /\ closable m.


(** A process with the default pool that reads its clock every twenty
    minutes. *)
Definition unhurried : world :=
  {| self := __init__ 10 300 600 3600; environ := [];
     clock := fun n => 1200 * Z.of_nat n; ticks := 0; constructed := 0; trace := [] |}.

(** ** The tool [save_memory] (src/main.py)

    A Python [str] is the sequence of its code points: [len] counts them
    and a slice takes them, whatever their encoding.  [add text] is what
    [mem0_client.add(messages, user_id=DEFAULT_USER_ID)] does for the
    message built from [text], and [message e] is [str(e)]. *)
Definition str := list N.

(** The [str] of a literal of the source, all of whose characters are
    ASCII. *)
Definition literal (s : string) : str :=
  map Ascii.N_of_ascii (list_ascii_of_string s).

Definition save_memory (add : str -> result unit) (message : exn -> str)
  (text : str) : str :=
  match add text with
  | Ok _ =>
      if (100 <? length text)%nat
      then literal "Successfully saved memory: " ++ firstn 100 text ++ literal "..."
      else literal "Successfully saved memory: " ++ text
  | Err e => literal "Error saving memory: " ++ message e
  end.

(** ** The leak test (scripts/connection_leak_test.py)

    The script keeps its counters in local variables that survive the
    exceptions it catches, and it queries a database whose answer changes
    from one query to the next.  Its functions run in a monad of their
    own: the state holds the process, the two counters and the number of
    queries made so far.  Output written with [print] is not recorded,
    and [time.sleep] changes nothing. *)

Module LeakTest.

(** [urlparse(url)], as far as the script reads it. *)
Record ParseResult := {
  hostname : option string;
  port : result (option Z);    (* the property raises on a port that is no number *)
  path : string;
  username : option string;
  password : option string
}.

(** The keyword arguments of [psycopg2.connect]. *)
Record ConnInfo := {
  ci_host : option string;
  ci_port : Z;
  ci_database : string;
  ci_user : option string;
  ci_password : option string
}.

(** One [with psycopg2.connect(...) as conn: with conn.cursor() as cursor:]
    block. *)
Record Session := {
  ss_connect : result unit;                  (* psycopg2.connect on the keyword arguments *)
  ss_cursor : result unit;                   (* conn.cursor() *)
  ss_execute : result unit;                  (* cursor.execute(query) *)
  ss_fetchone : result (option (list Z));    (* cursor.fetchone() *)
  ss_cursor_exit : result unit;              (* leaving the inner block: cursor.close() *)
  ss_conn_exit : result unit                 (* leaving the outer block: conn.commit() *)
}.

(** What lies outside the script: the URL parser, the database at its
    n-th query, and mem0's operations on a client. *)
Record Outside := {
  urlparse : string -> result ParseResult;
  session : nat -> ConnInfo -> Session;
  client_add : Memory -> Z -> result unit;      (* client.add(...) of test test_id *)
  client_search : Memory -> Z -> result unit    (* client.search(...) and the use of its result *)
}.

(** The dictionary [run_connection_leak_test] returns. *)
Record Report := {
  report_successful_tests : Z;
  report_failed_tests : Z;
  report_initial_connections : Z;
  report_final_connections : Z;
  report_leaked_connections : Z
}.

Record lab := {
  proc : world;
  asked : nat;               (* calls of count_database_connections so far *)
  successful_tests : Z;
  failed_tests : Z
}.

Definition Script (A : Type) := lab -> outcome A * lab.

Definition sret {A} (a : A) : Script A := fun s => (Ret a, s).

Definition sbind {A B} (c : Script A) (k : A -> Script B) : Script B :=
  fun s =>
    match c s with
    | (Ret a, s') => k a s'
    | (Raise e, s') => (Raise e, s')
    | (Block, s') => (Block, s')
    end.

Declare Scope script_scope.
Delimit Scope script_scope with script.
Notation "x <- c ;; k" := (sbind c (fun x => k))
  (at level 61, c at next level, right associativity) : script_scope.
Notation "c ;; k" := (sbind c (fun _ => k))
  (at level 61, right associativity) : script_scope.
Local Open Scope script_scope.

Definition sraise {A} (e : exn) : Script A := fun s => (Raise e, s).

Definition scall {A} (r : result A) : Script A :=
  match r with
  | Ok a => sret a
  | Err e => sraise e
  end.

(** [try: body except Exception as e: handler e] *)
Definition stry_except {A} (body : Script A) (handler : exn -> Script A) : Script A :=
  fun s =>
    match body s with
    | (Raise e, s') => handler e s'
    | r => r
    end.

(** [try: body finally: cleanup] *)
Definition stry_finally {A} (body : Script A) (cleanup : Script unit) : Script A :=
  fun s =>
    match body s with
    | (Block, s') => (Block, s')
    | (r, s') =>
        match cleanup s' with
        | (Ret _, s'') => (r, s'')
        | (Raise e, s'') => (Raise e, s'')
        | (Block, s'') => (Block, s'')
        end
    end.

Fixpoint sfor_each {X} (xs : list X) (body : X -> Script unit) : Script unit :=
  match xs with
  | [] => sret tt
  | x :: r => body x ;; sfor_each r body
  end.

(** A step of the process. *)
Definition lift {A} (c : M A) : Script A :=
  fun s =>
    let (o, w) := c (proc s) in
    (o, {| proc := w; asked := asked s;
           successful_tests := successful_tests s; failed_tests := failed_tests s |}).

Definition next_query : Script nat :=
  fun s =>
    (Ret (asked s),
     {| proc := proc s; asked := S (asked s);
        successful_tests := successful_tests s; failed_tests := failed_tests s |}).

Definition set_successful_tests (n : Z) : Script unit :=
  fun s =>
    (Ret tt, {| proc := proc s; asked := asked s;
                successful_tests := n; failed_tests := failed_tests s |}).

Definition set_failed_tests (n : Z) : Script unit :=
  fun s =>
    (Ret tt, {| proc := proc s; asked := asked s;
                successful_tests := successful_tests s; failed_tests := n |}).

Definition reads {A} (f : lab -> A) : Script A := fun s => (Ret (f s), s).

Section Run.

Variable lib : Library.
Variable out : Outside.

Definition get_db_connection_info : Script ConnInfo :=
  database_url <- lift (os_getenv "DATABASE_URL") ;;
  match database_url with
  | Some url =>
      if truthy database_url then
        parsed <- scall (urlparse out url) ;;
        parsed_port <- scall (port parsed) ;;
        sret {| ci_host := hostname parsed;
                ci_port := match parsed_port with
                           | Some p => if p =? 0 then 5432 else p
                           | None => 5432
                           end;
                ci_database := match path parsed with
                               | EmptyString => "postgres"
                               | String _ rest => rest
                               end;
                ci_user := username parsed;
                ci_password := password parsed |}
      else sraise ValueError
  | None => sraise ValueError
  end.

(** [row[0]] on the value of [fetchone()] *)
Definition first_of (row : option (list Z)) : Script Z :=
  match row with
  | None => sraise TypeError
  | Some [] => sraise IndexError
  | Some (count :: _) => sret count
  end.

(** Whatever is raised, also by the exit of a [with] block, ends in the
    [except] clause. *)
Definition count_database_connections : Script Z :=
  n <- next_query ;;
  stry_except
    (conn_info <- get_db_connection_info ;;
     let db := session out n conn_info in
     scall (ss_connect db) ;;
     scall (ss_cursor db) ;;
     scall (ss_execute db) ;;
     row <- scall (ss_fetchone db) ;;
     count <- first_of row ;;
     scall (ss_cursor_exit db) ;;
     scall (ss_conn_exit db) ;;
     sret count)
    (fun e => sret (-1)).

(** Call the closer found on [client], if any. *)
Definition close_found (client : Memory) (closer : option (method * result unit))
  : Script unit :=
  match closer with
  | Some (m, r) => lift (log (Called (mem_id client) m)) ;; scall r
  | None => sret tt
  end.

(** The probes of the script on the database of a client: the connection
    only.  A connection attribute without a [close] raises in the [try]
    as one that raises on [close()] does. *)
Definition connection_closer (client : Memory) : option (method * result unit) :=
  match db client with
  | Some d =>
      match db_connection d with
      | Some r => Some (db_connection_close, r)
      | None => None
      end
  | None => None
  end.

(** The [finally] block of [memory_client_context] for a client that was
    created. *)
Definition context_cleanup (client : Memory) : Script unit :=
  stry_except
    (close_found client (vector_closer client) ;;
     close_found client (connection_closer client))
    (fun cleanup_error => sret tt) ;;
  lift (log GcCollect).

(** [with memory_client_context() as client: body client].  When
    [get_mem0_client] raises, [client] is still [None] and the [finally]
    block does nothing; a client that was built is an object without
    [__bool__] or [__len__], hence true. *)
Definition memory_client_context {A} (body : Memory -> Script A) : Script A :=
  stry_except
    (client <- lift (get_mem0_client lib) ;;
     stry_finally (body client) (context_cleanup client))
    (fun e => sraise e).

Definition test_memory_operations (client : Memory) (test_id : Z) : Script bool :=
  stry_except
    (scall (client_add out client test_id) ;;
     scall (client_search out client test_id) ;;
     sret true)
    (fun e => sret false).

(** The body of the loop of [run_connection_leak_test]. *)
Definition leak_test_iteration (i : Z) : Script unit :=
  pre_test_connections <- count_database_connections ;;
  stry_except
    (memory_client_context
       (fun client =>
          success <- test_memory_operations client i ;;
          if success
          then n <- reads successful_tests ;; set_successful_tests (n + 1)
          else n <- reads failed_tests ;; set_failed_tests (n + 1)))
    (fun e => n <- reads failed_tests ;; set_failed_tests (n + 1)) ;;
  post_test_connections <- count_database_connections ;;
  sret tt.

(** [range(1, n + 1)] *)
Definition range_from_1 (n : Z) : list Z :=
  map (fun i => Z.of_nat i) (seq 1 (Z.to_nat n)).

Definition run_connection_leak_test (num_iterations : Z) : Script Report :=
  initial_connections <- count_database_connections ;;
  set_successful_tests 0 ;;
  set_failed_tests 0 ;;
  sfor_each (range_from_1 num_iterations) leak_test_iteration ;;
  final_connections <- count_database_connections ;;
  successful <- reads successful_tests ;;
  failed <- reads failed_tests ;;
  sret {| report_successful_tests := successful;
          report_failed_tests := failed;
          report_initial_connections := initial_connections;
          report_final_connections := final_connections;
          report_leaked_connections := Z.max 0 (final_connections - initial_connections) |}.

(** The exit code.  [KeyboardInterrupt] is no [Exception] and is not
    among the exceptions of the embedding. *)
Definition main : Script Z :=
  stry_except
    (database_url <- lift (os_getenv "DATABASE_URL") ;;
     if negb (truthy database_url) then sret 1
     else
       result <- run_connection_leak_test 5 ;;
       if report_leaked_connections result >? 0 then sret 1
       else if report_failed_tests result >? 0 then sret 2
       else sret 0)
    (fun e => sret 1).

End Run.

(** The script at its start, in process [w]. *)
Definition start (w : world) : lab :=
  {| proc := w; asked := 0; successful_tests := 0; failed_tests := 0 |}.

(** The state in another process, and at another query. *)
Definition in_process (w : world) (s : lab) : lab :=
  {| proc := w; asked := asked s;
     successful_tests := successful_tests s; failed_tests := failed_tests s |}.

Definition at_query (q : nat) (s : lab) : lab :=
  {| proc := proc s; asked := q;
     successful_tests := successful_tests s; failed_tests := failed_tests s |}.

(** What [count_database_connections] answers in the process of [s] when
    it is the [q]-th query. *)
Definition reading (out : Outside) (q : nat) (s : lab) : outcome Z :=
  fst (count_database_connections out (at_query q s)).

(** The same as a function of DATABASE_URL and [q]: the first column of
    the row when every step succeeds, and -1 otherwise. *)
Definition answer (out : Outside) (database_url : option string) (q : nat) : Z :=
  match database_url with
  | Some url =>
      if truthy database_url then
        match urlparse out url with
        | Ok parsed =>
            match port parsed with
            | Ok parsed_port =>
                let db :=
                  session out q
                    {| ci_host := hostname parsed;
                       ci_port := match parsed_port with
                                  | Some p => if p =? 0 then 5432 else p
                                  | None => 5432
                                  end;
                       ci_database := match path parsed with
                                      | EmptyString => "postgres"
                                      | String _ rest => rest
                                      end;
                       ci_user := username parsed;
                       ci_password := password parsed |} in
                match ss_connect db, ss_cursor db, ss_execute db,
                      ss_fetchone db, ss_cursor_exit db, ss_conn_exit db with
                | Ok _, Ok _, Ok _, Ok (Some (count :: _)), Ok _, Ok _ => count
                | _, _, _, _, _, _ => -1
                end
            | Err _ => -1
            end
        | Err _ => -1
        end
      else -1
  | None => -1
  end.

(** The closer calls of [context_cleanup client]. *)
Definition context_calls (client : Memory) : list event :=
  let connection :=
    match connection_closer client with
    | Some (m, _) => [Called (mem_id client) m]
    | None => []
    end in
  match vector_closer client with
  | Some (m, Ok _) => Called (mem_id client) m :: connection
  | Some (m, Err _) => [Called (mem_id client) m]
  | None => connection
  end.

End LeakTest.

(** A handle whose database offers an engine and no connection. *)
Definition engine_handle (n : nat) : Memory :=
  {| mem_id := n;
     vector_store := None;
     db := Some {| db_connection := None; db_engine := Some (Ok tt) |} |}.

(** An outside where the URL parses, the database answers [counts q] at
    the [q]-th query, and mem0's operations succeed. *)
Definition calm_outside (counts : nat -> result Z) : LeakTest.Outside :=
  {| LeakTest.urlparse := fun _ =>
       Ok {| LeakTest.hostname := Some "db"; LeakTest.port := Ok None;
             LeakTest.path := "/postgres";
             LeakTest.username := None; LeakTest.password := None |};
     LeakTest.session := fun q _ =>
       {| LeakTest.ss_connect := match counts q with Ok _ => Ok tt | Err e => Err e end;
          LeakTest.ss_cursor := Ok tt;
          LeakTest.ss_execute := Ok tt;
          LeakTest.ss_fetchone := match counts q with
                                  | Ok n => Ok (Some [n])
                                  | Err e => Err e
                                  end;
          LeakTest.ss_cursor_exit := Ok tt;
          LeakTest.ss_conn_exit := Ok tt |};
     LeakTest.client_add := fun _ _ => Ok tt;
     LeakTest.client_search := fun _ _ => Ok tt |}.

(** ** Dictionaries *)

Section DictFacts.
Context {V : Type}.
Implicit Types (d : dict V) (k : string) (v : V).

Lemma get_set_same k v d : get k (set k v d) = Some v.
Proof.
  induction d as [|[k' v'] r IH]; simpl.
  - now rewrite String.eqb_refl.
  - destruct (String.eqb k k') eqn:E; simpl.
    + now rewrite String.eqb_refl.
    + now rewrite E.
Qed.

Lemma get_set_other k k' v d : k <> k' -> get k' (set k v d) = get k' d.
Proof.
  intros Hne. induction d as [|[k0 v0] r IH]; simpl.
  - destruct (String.eqb_spec k' k); congruence.
  - destruct (String.eqb_spec k k0) as [->|Hk]; simpl.
    + destruct (String.eqb_spec k' k0); congruence.
    + destruct (String.eqb_spec k' k0); congruence.
Qed.

Lemma get_del_same k d : get k (del k d) = None.
Proof.
  induction d as [|[k' v'] r IH]; simpl; auto.
  destruct (String.eqb k k') eqn:E; simpl; auto.
  now rewrite E.
Qed.

Lemma get_del_other k k' d : k <> k' -> get k' (del k d) = get k' d.
Proof.
  intros Hne. induction d as [|[k0 v0] r IH]; simpl; auto.
  destruct (String.eqb_spec k k0) as [->|Hk]; simpl.
  - destruct (String.eqb_spec k' k0); congruence.
  - destruct (String.eqb_spec k' k0); congruence.
Qed.

Lemma del_absent k d : get k d = None -> del k d = d.
Proof.
  induction d as [|[k' v'] r IH]; simpl; auto.
  destruct (String.eqb k k') eqn:E; simpl; try discriminate.
  intros H. now rewrite (IH H).
Qed.

Lemma del_set k v d : del k (set k v d) = del k d.
Proof.
  induction d as [|[k' v'] r IH]; simpl.
  - now rewrite String.eqb_refl.
  - destruct (String.eqb k k') eqn:E; simpl.
    + now rewrite String.eqb_refl.
    + now rewrite E, IH.
Qed.

Lemma set_set k v v' d : set k v (set k v' d) = set k v d.
Proof.
  induction d as [|[k' v0] r IH]; simpl.
  - now rewrite String.eqb_refl.
  - destruct (String.eqb k k') eqn:E; simpl.
    + now rewrite String.eqb_refl.
    + now rewrite E, IH.
Qed.

Lemma mem_get k d : mem k d = true <-> get k d <> None.
Proof. unfold mem. destruct (get k d); split; congruence. Qed.

Lemma mem_false_get k d : mem k d = false <-> get k d = None.
Proof. unfold mem. destruct (get k d); split; congruence. Qed.

Lemma mem_set k k' v d : mem k' d = true -> mem k' (set k v d) = true.
Proof.
  unfold mem. destruct (string_dec k k') as [->|Hne].
  - now rewrite get_set_same.
  - now rewrite get_set_other.
Qed.

Lemma get_in_keys k d : get k d <> None <-> In k (keys d).
Proof.
  induction d as [|[k' v'] r IH]; simpl.
  - tauto.
  - destruct (String.eqb_spec k k') as [->|Hk].
    + split; [auto | discriminate].
    + rewrite IH. split; [auto | intros [H|H]; congruence].
Qed.

Lemma get_in_items k v d : get k d = Some v -> In (k, v) (items d).
Proof.
  induction d as [|[k' v'] r IH]; simpl; try discriminate.
  destruct (String.eqb_spec k k') as [->|Hk].
  - intros [= ->]. now left.
  - intros H. right. now apply IH.
Qed.

Lemma del_head k v d :
  ~ In k (keys d) ->
  del k ((k, v) :: d) = d.
Proof.
  intros Hk. simpl. rewrite String.eqb_refl. simpl.
  apply del_absent. destruct (get k d) eqn:E; auto.
  exfalso. apply Hk. apply get_in_keys. congruence.
Qed.

End DictFacts.

(** ** The monad *)

(** Run the next primitive steps of a method on a state. *)
Ltac run :=
  cbv beta iota delta [bind gets log modify ret raise call try_except mutated
                         os_getenv os_setenv time_time];
  cbn [self trace environ clock ticks constructed emit on_self tick built on_environ
       fst snd _clients _connection_counts _last_used client_created_time _lock
       _cleanup_thread _stop_cleanup max_pool_size cleanup_interval idle_timeout
       max_lifetime with_clients with_connection_counts with_last_used
       with_created_time with_lock_flag with_cleanup_thread with_stop_cleanup].

Lemma after_after m1 e1 m2 e2 w :
  after m2 e2 (after m1 e1 w) = after m2 (e1 ++ e2) w.
Proof. unfold after; simpl. now rewrite app_assoc. Qed.

Lemma after_nothing w : after (self w) [] w = w.
Proof. destruct w; unfold after; simpl. now rewrite app_nil_r. Qed.

(** Expose the fields of a state built by a run. *)
Ltac flat :=
  cbn [self trace environ clock ticks constructed emit on_self on_environ tick built
       after fst snd _clients _connection_counts _last_used client_created_time _lock
       _cleanup_thread _stop_cleanup max_pool_size cleanup_interval idle_timeout
       max_lifetime with_clients with_connection_counts with_last_used
       with_created_time with_lock_flag with_cleanup_thread with_stop_cleanup].

Lemma world_ext w1 w2 :
  self w1 = self w2 -> environ w1 = environ w2 -> clock w1 = clock w2 ->
  ticks w1 = ticks w2 -> constructed w1 = constructed w2 -> trace w1 = trace w2 ->
  w1 = w2.
Proof. destruct w1, w2; simpl; intros; subst; reflexivity. Qed.

Lemma manager_ext m1 m2 :
  max_pool_size m1 = max_pool_size m2 -> cleanup_interval m1 = cleanup_interval m2 ->
  idle_timeout m1 = idle_timeout m2 -> max_lifetime m1 = max_lifetime m2 ->
  _clients m1 = _clients m2 -> _connection_counts m1 = _connection_counts m2 ->
  _last_used m1 = _last_used m2 -> client_created_time m1 = client_created_time m2 ->
  _lock m1 = _lock m2 -> _cleanup_thread m1 = _cleanup_thread m2 ->
  _stop_cleanup m1 = _stop_cleanup m2 ->
  m1 = m2.
Proof. destruct m1, m2; simpl; intros; subst; reflexivity. Qed.

(** Two runs end in the same state: compare field by field. *)
Ltac same_world :=
  apply world_ext; flat; try reflexivity.

Ltac same_manager :=
  apply manager_ext; flat; try reflexivity.

(** ** Teardown of one entry *)

Lemma cleaned_lock k m : _lock (cleaned k m) = _lock m.
Proof.
  unfold cleaned. destruct (get k (_clients m)) as [c|]; auto.
  destruct (closes_cleanly c); auto.
Qed.

Lemma cleaned_last_used k m : _last_used (cleaned k m) = _last_used m.
Proof.
  unfold cleaned. destruct (get k (_clients m)) as [c|]; auto.
  destruct (closes_cleanly c); auto.
Qed.

Lemma cleaned_created_time k m : client_created_time (cleaned k m) = client_created_time m.
Proof.
  unfold cleaned. destruct (get k (_clients m)) as [c|]; auto.
  destruct (closes_cleanly c); auto.
Qed.

Lemma cleaned_clients_other k k' m :
  k <> k' -> get k' (_clients (cleaned k m)) = get k' (_clients m).
Proof.
  intros Hne. unfold cleaned. destruct (get k (_clients m)) as [c|]; auto.
  destruct (closes_cleanly c); auto. simpl. now apply get_del_other.
Qed.

Lemma cleaned_counts_other k k' m :
  k <> k' -> get k' (_connection_counts (cleaned k m)) = get k' (_connection_counts m).
Proof.
  intros Hne. unfold cleaned. destruct (get k (_clients m)) as [c|]; auto.
  destruct (closes_cleanly c); auto. simpl. now apply get_del_other.
Qed.

(** [_cleanup_client] always returns; its effect is [cleaned] and its log
    [cleanup_events]. *)
Lemma _cleanup_client_run k w :
  _cleanup_client k w = (Ret tt, after (cleaned k (self w)) (cleanup_events k (self w)) w).
Proof.
  unfold _cleanup_client, cleaned, cleanup_events, closes_cleanly.
  run.
  destruct (get k (_clients (self w))) as [c|] eqn:Hget.
  2:{ now rewrite after_nothing. }
  unfold del_client, del_connection_count, close_with, mem, closer_result, closer_events.
  destruct (vector_closer c) as [[mv [[]|ev]]|];
    destruct (db_closer c) as [[md [[]|ed]]|];
    run; rewrite ?Hget; run;
    try (destruct (get k (_connection_counts (self w))) eqn:Hc); run;
    f_equal; same_world;
    try (repeat rewrite <- app_assoc; reflexivity).
  all: same_manager; symmetry; now apply del_absent.
Qed.

(** The two halves, and the whole they make. *)
Lemma _cleanup_client_begin_run k w :
  exists evs,
    _cleanup_client_begin k w = (Ret (begins k (self w)), after (begun k (self w)) evs w).
Proof.
  unfold _cleanup_client_begin, begun, begins, closes_cleanly.
  run.
  destruct (get k (_clients (self w))) as [c|] eqn:Hget.
  2:{ exists []. now rewrite after_nothing. }
  unfold del_client, close_with, mem, closer_result.
  destruct (vector_closer c) as [[mv [[]|ev]]|];
    destruct (db_closer c) as [[md [[]|ed]]|];
    run; rewrite ?Hget; run;
    eexists; f_equal; same_world; rewrite <- ?app_assoc; reflexivity.
Qed.

Lemma _cleanup_client_end_run k w :
  exists evs,
    _cleanup_client_end k w = (Ret tt, after (ended k (self w)) evs w).
Proof.
  unfold _cleanup_client_end, ended, del_connection_count, mem. run.
  destruct (get k (_connection_counts (self w))) eqn:Hc; run.
  - eexists. f_equal. same_world. rewrite <- ?app_assoc. reflexivity.
  - eexists [_]. f_equal. same_world. same_manager. symmetry. now apply del_absent.
Qed.

Lemma _cleanup_client_split k w :
  _cleanup_client k w =
  (go <- _cleanup_client_begin k ;; if go then _cleanup_client_end k else ret tt) w.
Proof.
  unfold _cleanup_client, _cleanup_client_begin, _cleanup_client_end.
  run.
  destruct (get k (_clients (self w))) as [c|] eqn:Hget; [|reflexivity].
  unfold del_client, del_connection_count, close_with, mem.
  destruct (vector_closer c) as [[mv [[]|ev]]|];
    destruct (db_closer c) as [[md [[]|ed]]|];
    run; rewrite ?Hget; run;
    try (destruct (get k (_connection_counts (self w))) eqn:Hc); run;
    reflexivity.
Qed.

Lemma cleaned_split k m :
  cleaned k m = if begins k m then ended k (begun k m) else m.
Proof.
  unfold cleaned, begun, begins, ended.
  destruct (get k (_clients m)) as [c|]; [|reflexivity].
  destruct (closes_cleanly c); reflexivity.
Qed.

Lemma cleaned_clients k m : _clients (cleaned k m) = purge1 k (_clients m).
Proof.
  unfold cleaned, purge1. destruct (get k (_clients m)) as [c|]; auto.
  destruct (closes_cleanly c); auto.
Qed.

(** ** Teardown of a list of keys *)

Lemma sweep_clients ks m : _clients (sweep ks m) = purge ks (_clients m).
Proof.
  revert m. induction ks as [|k r IH]; intros m; simpl; auto.
  unfold sweep, purge in *. simpl. rewrite IH. now rewrite cleaned_clients.
Qed.

Lemma sweep_last_used ks m : _last_used (sweep ks m) = _last_used m.
Proof.
  revert m. induction ks as [|k r IH]; intros m; simpl; auto.
  unfold sweep in *. simpl. rewrite IH. apply cleaned_last_used.
Qed.

Lemma sweep_created_time ks m : client_created_time (sweep ks m) = client_created_time m.
Proof.
  revert m. induction ks as [|k r IH]; intros m; simpl; auto.
  unfold sweep in *. simpl. rewrite IH. apply cleaned_created_time.
Qed.

Lemma sweep_lock ks m : _lock (sweep ks m) = _lock m.
Proof.
  revert m. induction ks as [|k r IH]; intros m; simpl; auto.
  unfold sweep in *. simpl. rewrite IH. apply cleaned_lock.
Qed.

Lemma purge1_other k k' d : k <> k' -> get k' (purge1 k d) = get k' d.
Proof.
  intros Hne. unfold purge1. destruct (get k d) as [c|]; auto.
  destruct (closes_cleanly c); auto. now apply get_del_other.
Qed.

Lemma purge1_same k d :
  get k (purge1 k d) =
  match get k d with
  | Some c => if closes_cleanly c then None else Some c
  | None => None
  end.
Proof.
  unfold purge1. destruct (get k d) as [c|] eqn:E; auto.
  destruct (closes_cleanly c); auto. apply get_del_same.
Qed.

Lemma purge_untouched ks k d : ~ In k ks -> get k (purge ks d) = get k d.
Proof.
  revert d. induction ks as [|k0 r IH]; intros d Hin; simpl; auto.
  unfold purge in *. simpl. rewrite IH by (simpl in Hin; tauto).
  apply purge1_other. simpl in Hin. intros ->. tauto.
Qed.

Lemma purge_touched ks k d :
  In k ks ->
  get k (purge ks d) =
  match get k d with
  | Some c => if closes_cleanly c then None else Some c
  | None => None
  end.
Proof.
  revert d. induction ks as [|k0 r IH]; intros d Hin; simpl in Hin; [tauto|].
  change (purge (k0 :: r) d) with (purge r (purge1 k0 d)).
  destruct (string_dec k0 k) as [->|Hne].
  - destruct (in_dec string_dec k r) as [Hr|Hr].
    + rewrite (IH _ Hr), purge1_same.
      destruct (get k d) as [c|]; auto.
      destruct (closes_cleanly c) eqn:E; auto. now rewrite E.
    + rewrite (purge_untouched _ _ _ Hr). apply purge1_same.
  - destruct Hin as [?|Hr]; [congruence|].
    rewrite (IH _ Hr). now rewrite (purge1_other _ _ _ Hne).
Qed.

Lemma purge_cons_fresh ks k c d :
  ~ In k ks -> purge ks ((k, c) :: d) = (k, c) :: purge ks d.
Proof.
  revert d. induction ks as [|k0 r IH]; intros d Hin; auto.
  change (purge (k0 :: r) ((k, c) :: d)) with (purge r (purge1 k0 ((k, c) :: d))).
  change (purge (k0 :: r) d) with (purge r (purge1 k0 d)).
  simpl in Hin.
  assert (Hne : String.eqb k0 k = false) by (apply String.eqb_neq; intros ->; tauto).
  assert (E : purge1 k0 ((k, c) :: d) = (k, c) :: purge1 k0 d).
  { unfold purge1. simpl. rewrite Hne.
    destruct (get k0 d) as [c0|]; auto.
    destruct (closes_cleanly c0); auto; simpl; now rewrite ?Hne. }
  rewrite E. apply IH. tauto.
Qed.

(** Tearing down every key of the map leaves the entries whose teardown
    raises. *)
Lemma purge_keys d : NoDup (keys d) -> purge (keys d) d = faulty d.
Proof.
  induction d as [|[k c] r IH]; intros Hnd; auto.
  simpl in Hnd. inversion Hnd as [|? ? Hk Hr]; subst.
  change (keys ((k, c) :: r)) with (k :: keys r).
  change (purge (k :: keys r) ((k, c) :: r)) with (purge (keys r) (purge1 k ((k, c) :: r))).
  unfold purge1 at 1. simpl get. rewrite String.eqb_refl.
  unfold faulty. simpl filter. fold (faulty r).
  destruct (closes_cleanly c); simpl negb; cbv iota.
  - rewrite (del_head k c r Hk). now apply IH.
  - rewrite (purge_cons_fresh _ _ _ _ Hk). now rewrite IH.
Qed.

Lemma faulty_none d :
  (forall k c, get k d = Some c -> closes_cleanly c = true) -> NoDup (keys d) -> faulty d = [].
Proof.
  induction d as [|[k c] r IH]; intros H Hnd; auto.
  simpl in Hnd. inversion Hnd as [|? ? Hk Hr]; subst.
  unfold faulty. simpl. fold (faulty r).
  rewrite (H k c) by (simpl; now rewrite String.eqb_refl). simpl.
  apply IH; auto. intros k' c' Hg. apply (H k' c'). simpl.
  destruct (String.eqb_spec k' k) as [->|]; auto.
  exfalso. apply Hk. apply get_in_keys. congruence.
Qed.

(** A loop whose body at [k] tears [k] down and logs [note k]. *)
Lemma for_each_sweep (body : string -> M unit) (note : string -> list event) ks :
  (forall k w,
     body k w = (Ret tt, after (cleaned k (self w)) (cleanup_events k (self w) ++ note k) w)) ->
  forall w,
    for_each ks body w =
    (Ret tt, after (sweep ks (self w)) (sweep_events note ks (self w)) w).
Proof.
  intros Hbody. induction ks as [|k r IH]; intros w.
  - simpl. unfold ret. now rewrite after_nothing.
  - simpl for_each. unfold bind. rewrite Hbody, IH.
    now rewrite after_after.
Qed.

(** ** Counting teardowns in a trace *)

Lemma cleanings_app k t1 t2 : cleanings k (t1 ++ t2) = (cleanings k t1 + cleanings k t2)%nat.
Proof. unfold cleanings. now rewrite filter_app, length_app. Qed.

Lemma cleanings_cleanup_events k' k m :
  cleanings k' (cleanup_events k m) =
  if (String.eqb k' k && mem k (_clients m))%bool then 1%nat else 0%nat.
Proof.
  unfold cleanup_events, mem.
  destruct (get k (_clients m)) as [c|].
  2:{ now rewrite andb_false_r. }
  rewrite andb_true_r.
  change (Cleaning k :: ?t) with ([Cleaning k] ++ t).
  unfold closer_events, closer_result.
  destruct (vector_closer c) as [[mv [[]|ev]]|];
    destruct (db_closer c) as [[md [[]|ed]]|];
    destruct (match get k (_connection_counts m) with Some _ => true | None => false end);
    unfold cleanings; simpl; destruct (String.eqb k' k); reflexivity.
Qed.

Lemma cleanings_sweep_absent (note : string -> list event) k ks m :
  (forall k0, cleanings k (note k0) = 0%nat) ->
  ~ In k ks -> cleanings k (sweep_events note ks m) = 0%nat.
Proof.
  intros Hquiet. revert m. induction ks as [|k0 r IH]; intros m Hin; auto.
  simpl in Hin. simpl sweep_events.
  rewrite !cleanings_app, cleanings_cleanup_events, Hquiet, IH by tauto.
  destruct (String.eqb_spec k k0) as [E|]; [exfalso; apply Hin; left; congruence|reflexivity].
Qed.

Lemma cleanings_sweep_once (note : string -> list event) k ks m :
  (forall k0, cleanings k (note k0) = 0%nat) ->
  NoDup ks -> In k ks -> mem k (_clients m) = true ->
  cleanings k (sweep_events note ks m) = 1%nat.
Proof.
  intros Hquiet. revert m.
  induction ks as [|k0 r IH]; intros m Hnd Hin Hmem; simpl in Hin; [tauto|].
  inversion Hnd as [|? ? Hk0 Hr]; subst.
  simpl sweep_events. rewrite !cleanings_app, cleanings_cleanup_events, Hquiet.
  destruct (String.eqb_spec k k0) as [E|Hne].
  - subst k0. rewrite Hmem. cbn [andb]. now rewrite cleanings_sweep_absent.
  - cbn [andb]. simpl. apply IH; auto.
    + destruct Hin; congruence.
    + unfold mem in *. rewrite cleaned_clients_other; auto.
Qed.

Lemma cleanings_sweep_some (note : string -> list event) k ks m :
  In k ks -> mem k (_clients m) = true ->
  (1 <= cleanings k (sweep_events note ks m))%nat.
Proof.
  revert m. induction ks as [|k0 r IH]; intros m Hin Hmem; simpl in Hin; [tauto|].
  simpl sweep_events. rewrite !cleanings_app, cleanings_cleanup_events.
  destruct (String.eqb_spec k k0) as [E|Hne].
  - subst k0. rewrite Hmem. cbn [andb]. lia.
  - cbn [andb]. assert (1 <= cleanings k (sweep_events note r (cleaned k0 m)))%nat; [|lia].
    apply IH.
    + destruct Hin; congruence.
    + unfold mem in *. rewrite cleaned_clients_other; auto.
Qed.

(** ** Runs of the pool methods *)

Lemma unlock_lock m : _lock m = false -> with_lock_flag false (with_lock_flag true m) = m.
Proof. destruct m; simpl. now intros ->. Qed.

Lemma unlock_lock_world w :
  _lock (self w) = false ->
  on_self (with_lock_flag false) (on_self (with_lock_flag true) w) = w.
Proof.
  intros H. destruct w as [m ? ? ? ? ?]. unfold on_self; simpl in *.
  now rewrite unlock_lock.
Qed.

Lemma with_lock_free {A} (body : M A) w :
  _lock (self w) = false ->
  with_lock body w =
  match body (on_self (with_lock_flag true) w) with
  | (Block, w') => (Block, w')
  | (r, w') => (r, on_self (with_lock_flag false) w')
  end.
Proof. unfold with_lock. now intros ->. Qed.

Lemma bind_run {A B} (c : M A) (k : A -> M B) w o w' :
  c w = (o, w') ->
  bind c k w =
  match o with
  | Ret a => k a w'
  | Raise e => (Raise e, w')
  | Block => (Block, w')
  end.
Proof. unfold bind. now intros ->. Qed.

Lemma with_lock_held {A} (body : M A) w :
  _lock (self w) = true -> with_lock body w = (Block, w).
Proof. unfold with_lock. now intros ->. Qed.

Lemma for_each_cleanup ks w :
  for_each ks _cleanup_client w =
  (Ret tt, after (sweep ks (self w)) (sweep_events (fun _ => []) ks (self w)) w).
Proof.
  apply for_each_sweep. intros k w'. rewrite _cleanup_client_run.
  now rewrite app_nil_r.
Qed.

Lemma for_each_cleanup_log (ev : string -> event) ks w :
  for_each ks (fun k => _cleanup_client k ;; log (ev k)) w =
  (Ret tt, after (sweep ks (self w)) (sweep_events (fun k => [ev k]) ks (self w)) w).
Proof.
  apply for_each_sweep. intros k w'. unfold bind. rewrite _cleanup_client_run.
  unfold log, emit, after. simpl. now rewrite app_assoc.
Qed.

Lemma cleanup_all_run w :
  _lock (self w) = false ->
  cleanup_all w =
  (Ret tt,
   after (with_lock_flag false
            (sweep (keys (_clients (self w))) (with_lock_flag true (self w))))
         (sweep_events (fun _ => []) (keys (_clients (self w)))
            (with_lock_flag true (self w)) ++ [GcCollect; AllCleaned])
         w).
Proof.
  intros Hfree. unfold cleanup_all. unfold bind at 1.
  rewrite (with_lock_free _ _ Hfree).
  unfold bind at 1. unfold gets at 1. cbv beta iota.
  rewrite for_each_cleanup. run.
  f_equal. same_world. now rewrite <- !app_assoc.
Qed.

Lemma release_client_run k w :
  _lock (self w) = false ->
  release_client k w =
  match get k (_connection_counts (self w)) with
  | None => (Ret tt, w)
  | Some n =>
      let m := with_connection_counts (set k (n - 1)) (with_lock_flag true (self w)) in
      let ev := Mutated f_connection_counts k true in
      if n - 1 <=? 0
      then (Ret tt, after (with_lock_flag false (cleaned k m)) (ev :: cleanup_events k m) w)
      else (Ret tt, after (with_lock_flag false m) [ev] w)
  end.
Proof.
  intros Hfree. unfold release_client. rewrite (with_lock_free _ _ Hfree).
  run. destruct (get k (_connection_counts (self w))) as [n|] eqn:Hn.
  - run. destruct (n - 1 <=? 0).
    + rewrite _cleanup_client_run. f_equal. same_world. now rewrite <- app_assoc.
    + f_equal.
  - f_equal. now apply unlock_lock_world.
Qed.

(** ** The factory touches the environment only *)

Lemma env_only_refl w : env_only w w.
Proof. unfold env_only. auto 10. Qed.

Lemma env_only_trans w1 w2 w3 : env_only w1 w2 -> env_only w2 w3 -> env_only w1 w3.
Proof. unfold env_only. intuition congruence. Qed.

Lemma env_only_setenv k v w :
  k <> "DATABASE_URL" -> env_only w (on_environ (set k v) w).
Proof.
  intros Hk. unfold env_only, on_environ; simpl.
  rewrite get_set_other by exact Hk. auto 10.
Qed.

Lemma set_openai_key_if_unset_run key w :
  exists w', set_openai_key_if_unset key w = (Ret tt, w') /\ env_only w w'.
Proof.
  unfold set_openai_key_if_unset. run.
  destruct key as [s|]; [|exists w; split; [reflexivity|apply env_only_refl]].
  destruct (truthy (Some s) && negb (truthy (get "OPENAI_API_KEY" (environ w))))%bool.
  - eexists; split; [reflexivity|]. apply env_only_setenv. discriminate.
  - exists w; split; [reflexivity|apply env_only_refl].
Qed.

Lemma base_url_entry_run key w :
  exists b, base_url_entry key w = (Ret b, w).
Proof.
  unfold base_url_entry. run.
  destruct (get "LLM_BASE_URL" (environ w)); eexists; reflexivity.
Qed.

Lemma llm_section_run p a m w :
  exists x w', llm_section p a m w = (Ret x, w') /\ env_only w w'.
Proof.
  unfold llm_section.
  destruct (is_str p "openai" || is_str p "openrouter")%bool.
  - destruct (base_url_entry_run "openai_base_url" w) as [b Hb].
    rewrite (bind_run _ _ _ _ _ Hb).
    destruct (set_openai_key_if_unset_run a w) as [w1 [Hk H1]].
    rewrite (bind_run _ _ _ _ _ Hk).
    destruct a as [key|]; run.
    + destruct (is_str p "openrouter" && truthy (Some key))%bool; run.
      * do 2 eexists; split; [reflexivity|].
        eapply env_only_trans; [exact H1|]. apply env_only_setenv. discriminate.
      * do 2 eexists; split; [reflexivity|exact H1].
    + do 2 eexists; split; [reflexivity|exact H1].
  - destruct (is_str p "ollama").
    + destruct (base_url_entry_run "ollama_base_url" w) as [b Hb].
      rewrite (bind_run _ _ _ _ _ Hb). run.
      do 2 eexists; split; [reflexivity|apply env_only_refl].
    + run. do 2 eexists; split; [reflexivity|apply env_only_refl].
Qed.

(** The only exception of [dims_or_default] is that of [int]. *)
Lemma dims_or_default_run (lib : Library) ed dflt w :
  (exists n, dims_or_default lib ed dflt w = (Ret n, w)) \/
  (exists e s, ed = Some s /\ py_int lib s = Err e /\
               dims_or_default lib ed dflt w = (Raise e, w)).
Proof.
  unfold dims_or_default. destruct ed as [s|]; [|left; eexists; reflexivity].
  destruct (truthy (Some s)); [|left; eexists; reflexivity].
  destruct (py_int lib s) as [n|e] eqn:E; unfold call.
  - left; eexists; reflexivity.
  - right. exists e, s. repeat split; auto.
Qed.

Lemma embedder_section_run (lib : Library) p a em ed w :
  (exists x w', embedder_section lib p a em ed w = (Ret x, w') /\ env_only w w') \/
  (exists e s, ed = Some s /\ py_int lib s = Err e /\
               embedder_section lib p a em ed w = (Raise e, w)).
Proof.
  unfold embedder_section.
  destruct (is_str p "openai").
  - match goal with
    | |- context [dims_or_default lib ed ?d] =>
        destruct (dims_or_default_run lib ed d w) as [[n Hn]|[e [s [Hs [He Hn]]]]]
    end; rewrite (bind_run _ _ _ _ _ Hn).
    + left.
      destruct (base_url_entry_run "openai_base_url" w) as [b Hb].
      rewrite (bind_run _ _ _ _ _ Hb).
      destruct (set_openai_key_if_unset_run a w) as [w1 [Hk H1]].
      rewrite (bind_run _ _ _ _ _ Hk).
      run. do 2 eexists; split; [reflexivity|exact H1].
    + right. exists e, s. repeat split; auto.
  - destruct (is_str p "ollama").
    + match goal with
      | |- context [dims_or_default lib ed ?d] =>
          destruct (dims_or_default_run lib ed d w) as [[n Hn]|[e [s [Hs [He Hn]]]]]
      end; rewrite (bind_run _ _ _ _ _ Hn).
      * left.
        destruct (base_url_entry_run "ollama_base_url" w) as [b Hb].
        rewrite (bind_run _ _ _ _ _ Hb). run.
        do 2 eexists; split; [reflexivity|apply env_only_refl].
      * right. exists e, s. repeat split; auto.
    + left. run. do 2 eexists; split; [reflexivity|apply env_only_refl].
Qed.


(** [get_mem0_client] either fails in [int(EMBEDDING_DIMS)] or returns what
    [Memory.from_config] does on a configuration whose connection string
    is DATABASE_URL, or the empty string. *)
Lemma get_mem0_client_run (lib : Library) w :
  (exists e s, get "EMBEDDING_DIMS" (environ w) = Some s /\ py_int lib s = Err e /\
               exists w', get_mem0_client lib w = (Raise e, w') /\ env_only w w') \/
  (exists cfg vs w1,
     cfg_vector_store cfg = Some ("supabase", vs) /\
     connection_string vs =
       match get "DATABASE_URL" (environ w) with Some s => s | None => "" end /\
     env_only w w1 /\
     get_mem0_client lib w =
       (outcome_of (Memory_from_config lib (constructed w) cfg), built w1)).
Proof.
  unfold get_mem0_client. run.
  destruct (llm_section_run (get "LLM_PROVIDER" (environ w)) (get "LLM_API_KEY" (environ w))
              (get "LLM_CHOICE" (environ w)) w) as [llm [w1 [Hl H1]]].
  destruct (embedder_section_run lib (get "LLM_PROVIDER" (environ w))
              (get "LLM_API_KEY" (environ w))
              (get "EMBEDDING_MODEL_CHOICE" (environ w))
              (get "EMBEDDING_DIMS" (environ w)) w1)
    as [[emb [w2 [Hemb H2]]]|[e [s [Hs [He Hemb]]]]].
  - right.
    pose proof (env_only_trans _ _ _ H1 H2) as H12.
    destruct H12 as (_ & _ & _ & _ & Hc & Hurl).
    set (vs := {| connection_string :=
                    match get "DATABASE_URL" (environ w) with Some s => s | None => "" end;
                  collection_name := "mem0_memories";
                  embedding_model_dims :=
                    match emb with Some (_, c) => ec_embedding_dims c | None => 1536 end |}).
    exists {| cfg_llm := llm; cfg_embedder := emb; cfg_vector_store := Some ("supabase", vs) |},
           vs, w2.
    split; [reflexivity|]. split; [reflexivity|].
    split; [eapply env_only_trans; eauto|].
    rewrite Hl. run. rewrite Hemb. run.
    unfold from_config. rewrite Hc, Hurl. fold vs.
    destruct (Memory_from_config lib (constructed w) _); reflexivity.
  - left. exists e, s. repeat split; auto. exists w1. split; auto.
    rewrite Hl. run. now rewrite Hemb.
Qed.

(** ** The diagnostic query *)

Lemma count_sessions_run (lib : Library) w :
  exists o, count_sessions lib w = (o, w) /\ o <> Block.
Proof.
  unfold count_sessions, first_column. run.
  destruct (get "DATABASE_URL" (environ w)) as [url|]; [|eexists; split; [reflexivity|discriminate]].
  destruct (truthy (Some url)); [|eexists; split; [reflexivity|discriminate]].
  destruct (pg_connect (psycopg2 lib) url) as [[]|?];
    [|eexists; split; [reflexivity|discriminate]].
  destruct (pg_cursor (psycopg2 lib)) as [[]|?];
    [|eexists; split; [reflexivity|discriminate]].
  destruct (pg_execute (psycopg2 lib)) as [[]|?];
    [|eexists; split; [reflexivity|discriminate]].
  destruct (pg_fetchone (psycopg2 lib)) as [[[|count row]|]|?];
    try (eexists; split; [reflexivity|discriminate]).
  destruct (pg_cursor_close (psycopg2 lib)) as [[]|?];
    [|eexists; split; [reflexivity|discriminate]].
  destruct (pg_conn_close (psycopg2 lib)) as [[]|?];
    eexists; split; try reflexivity; discriminate.
Qed.

Lemma get_connection_count_run (lib : Library) w :
  exists n evs,
    get_connection_count lib w = (Ret n, after (self w) evs w) /\
    ((evs = [] /\ count_sessions lib w = (Ret n, w)) \/
     (n = -1 /\ exists e, evs = [ConnCountError e] /\ count_sessions lib w = (Raise e, w))).
Proof.
  unfold get_connection_count, try_except.
  destruct (count_sessions_run lib w) as [o [Ho Hb]]. rewrite Ho.
  destruct o as [n|e|]; [| |congruence].
  - exists n, []. rewrite after_nothing. auto.
  - exists (-1), [ConnCountError e]. split; [reflexivity|]. right. eauto.
Qed.

(** ** The reclaimer *)

Lemma _periodic_cleanup_mark_run w :
  _lock (self w) = false ->
  _periodic_cleanup_mark w = (Ret (marked (self w) (clock w (ticks w))), tick w).
Proof.
  intros Hfree. unfold _periodic_cleanup_mark. run.
  rewrite with_lock_free by exact Hfree. run.
  f_equal. same_world. now apply unlock_lock.
Qed.

Lemma _periodic_cleanup_evict_run ks w :
  _periodic_cleanup_evict ks w =
  (Ret tt, after (sweep ks (self w)) (sweep_events (fun k => [Removed k]) ks (self w)) w).
Proof. apply for_each_cleanup_log. Qed.

Lemma for_each_readings {X} (xs : list X) w :
  exists w', for_each xs (fun _ => time_time ;; ret tt) w = (Ret tt, w') /\
             self w' = self w /\ trace w' = trace w.
Proof.
  revert w. induction xs as [|x r IH]; intros w.
  - exists w. auto.
  - destruct (IH (tick w)) as [w' [Hrun [Hs Ht]]]. exists w'.
    split; [|auto]. simpl for_each.
    erewrite bind_run by (unfold bind, time_time, ret; reflexivity).
    exact Hrun.
Qed.

(** A method that returns and leaves the manager alone also does so
    under the lock. *)
Lemma with_lock_quiet {A} (body : M A) w a w1 :
  _lock (self w) = false ->
  body (on_self (with_lock_flag true) w) = (Ret a, w1) ->
  self w1 = with_lock_flag true (self w) ->
  exists w', with_lock body w = (Ret a, w') /\ self w' = self w /\ trace w' = trace w1.
Proof.
  intros Hfree Hbody Hself. rewrite with_lock_free by exact Hfree. rewrite Hbody.
  eexists; split; [reflexivity|]. flat. rewrite Hself. split; [|reflexivity].
  now apply unlock_lock.
Qed.

(** [_log_stats] leaves the manager as it is and logs neither a teardown
    nor a change of the maps. *)
Lemma _log_stats_run (lib : Library) w :
  _lock (self w) = false ->
  exists evs w',
    _log_stats lib w = (Ret tt, w') /\ self w' = self w /\ trace w' = trace w ++ evs /\
    (forall k, cleanings k evs = 0%nat) /\ mutation_locks evs = [].
Proof.
  intros Hfree. unfold _log_stats, try_except.
  edestruct (with_lock_quiet
               (clients <- gets _clients ;;
                counts <- gets _connection_counts ;;
                ret (len clients, fold_right Z.add 0 (map snd counts))) w)
    as [w1 [H1 [Hs1 Ht1]]]; [exact Hfree|reflexivity|reflexivity|].
  rewrite (bind_run _ _ _ _ _ H1).
  destruct (get_connection_count_run lib w1) as [n [evs [H2 Hevs]]].
  rewrite (bind_run _ _ _ _ _ H2).
  erewrite bind_run by (unfold log; reflexivity).
  match goal with
  | |- context [with_lock ?b ?w0] =>
      destruct (for_each_readings (items (_connection_counts (self w)))
                  (on_self (with_lock_flag true) w0)) as [w3 [H3 [Hs3 Ht3]]];
      edestruct (with_lock_quiet b w0) as [w4 [H4 [Hs4 Ht4]]]
  end.
  - flat. now rewrite Hs1.
  - run. flat. rewrite Hs1 in *. exact H3.
  - rewrite Hs3. reflexivity.
  - rewrite H4. eexists (evs ++ [Stats _ _ n]), w4.
    split; [reflexivity|]. rewrite Hs4, Ht4, Ht3. flat. rewrite Hs1, Ht1. flat.
    split; [reflexivity|]. split; [rewrite app_assoc; reflexivity|].
    destruct Hevs as [[-> _]|[_ [e [-> _]]]]; split; reflexivity.
Qed.

Lemma _periodic_cleanup_scan_run (lib : Library) interval w :
  _lock (self w) = false ->
  exists evs w',
    _periodic_cleanup_scan lib interval w = (Ret tt, w') /\
    self w' = sweep (marked (self w) (clock w (ticks w))) (self w) /\
    trace w' =
      trace w ++
      sweep_events (fun k => [Removed k]) (marked (self w) (clock w (ticks w))) (self w) ++
      evs /\
    (forall k, cleanings k evs = 0%nat) /\ mutation_locks evs = [].
Proof.
  intros Hfree. unfold _periodic_cleanup_scan, try_except.
  rewrite (bind_run _ _ _ _ _ (_periodic_cleanup_mark_run w Hfree)).
  rewrite (bind_run _ _ _ _ _ (_periodic_cleanup_evict_run _ (tick w))).
  destruct (interval >=? 60).
  - match goal with
    | |- context [_log_stats lib ?w0] =>
        destruct (_log_stats_run lib w0) as [evs [w' [Hrun [Hs [Ht [Hc Hm]]]]]]
    end.
    { flat. now rewrite sweep_lock. }
    rewrite Hrun. exists evs, w'. split; [reflexivity|]. rewrite Hs, Ht. flat.
    split; [reflexivity|]. split; [now rewrite app_assoc|]. auto.
  - eexists [], _. split; [reflexivity|]. flat. rewrite app_nil_r. auto.
Qed.

(** ** Acquiring *)

Lemma get_client_held (lib : Library) k w :
  _lock (self w) = true -> get_client lib k w = (Block, w).
Proof. intros H. unfold get_client. now apply with_lock_held. Qed.

(** A new key on a full pool: the forced cleanup takes the lock that
    [get_client] holds. *)
Lemma get_client_full (lib : Library) k w :
  _lock (self w) = false ->
  get k (_clients (self w)) = None ->
  max_pool_size (self w) <= len (_clients (self w)) ->
  get_client lib k w =
  (Block,
   tick (after (with_lock_flag true (self w))
           [PoolFull (len (_clients (self w))) (max_pool_size (self w))] (tick w))).
Proof.
  intros Hfree Habs Hfull. unfold get_client.
  rewrite with_lock_free by exact Hfree. run.
  unfold mem. rewrite Habs. cbn [negb]. run.
  assert (E : (len (_clients (self w)) >=? max_pool_size (self w)) = true)
    by (apply Z.geb_le; lia).
  rewrite E. run.
  unfold _force_cleanup_idle_connections. run.
  rewrite with_lock_held by reflexivity.
  reflexivity.
Qed.

Lemma get_client_present (lib : Library) k w c n :
  _lock (self w) = false ->
  get k (_clients (self w)) = Some c ->
  get k (_connection_counts (self w)) = Some n ->
  get_client lib k w =
  (Ret c,
   after (reused k n (clock w (ticks w)) (self w))
         [Mutated f_connection_counts k true] (tick w)).
Proof.
  intros Hfree Hc Hn. unfold get_client.
  rewrite with_lock_free by exact Hfree. run.
  unfold mem. rewrite Hc. cbn [negb]. run. rewrite Hn. run. rewrite Hc.
  f_equal. same_world. unfold reused. same_manager. now rewrite Hfree.
Qed.

Lemma get_client_fresh (lib : Library) k w :
  _lock (self w) = false ->
  get k (_clients (self w)) = None ->
  len (_clients (self w)) < max_pool_size (self w) ->
  exists o w',
    get_client lib k w = (o, w') /\
    ((exists e, o = Raise e /\ self w' = self w /\ trace w' = trace w ++ [Creating k]) \/
     (exists c, o = Ret c /\
        self w' = admitted k c (clock w (ticks w)) (self w) /\
        trace w' = trace w ++ [Creating k; Mutated f_clients k true;
                               Mutated f_connection_counts k true;
                               Mutated f_connection_counts k true])).
Proof.
  intros Hfree Habs Hroom. unfold get_client.
  rewrite with_lock_free by exact Hfree. run.
  unfold mem. rewrite Habs. cbn [negb]. run.
  assert (E : (len (_clients (self w)) >=? max_pool_size (self w)) = false)
    by (rewrite Z.geb_leb; apply Z.leb_gt; lia).
  rewrite E. run. unfold _create_client.
  match goal with
  | |- context [get_mem0_client lib ?w0] =>
      destruct (get_mem0_client_run lib w0)
        as [(e & s & _ & _ & w1 & Hrun & H1)|(cfg & vs & w1 & _ & _ & H1 & Hrun)]
  end; rewrite Hrun; destruct H1 as (Hs & Ht & _).
  - do 2 eexists. split; [reflexivity|]. left. exists e.
    split; [reflexivity|]. flat.
    rewrite Hs, Ht. flat. rewrite unlock_lock by exact Hfree.
    rewrite <- ?app_assoc. auto.
  - match goal with
    | |- context [outcome_of ?r] => destruct r as [c|e]
    end; cbn [outcome_of].
    + run. rewrite !get_set_same. run. rewrite !get_set_same.
      do 2 eexists. split; [reflexivity|]. right. exists c.
      split; [reflexivity|]. flat. rewrite Hs, Ht. flat.
      rewrite <- !app_assoc. split; [|reflexivity].
      unfold admitted. same_manager; [|now rewrite Hfree].
      rewrite set_set. reflexivity.
    + do 2 eexists. split; [reflexivity|]. left. exists e.
      split; [reflexivity|]. flat.
      rewrite Hs, Ht. flat. rewrite unlock_lock by exact Hfree.
      rewrite <- ?app_assoc. auto.
Qed.

(** ** What the reclaimer marks and deletes *)

Lemma expired_marked m now k last_used :
  get k (_last_used m) = Some last_used ->
  now - last_used > idle_timeout m \/
  now - match get k (client_created_time m) with Some t => t | None => now end
    > max_lifetime m ->
  In k (marked m now).
Proof.
  intros Hget Hexp. unfold marked.
  change k with (fst (k, last_used)). apply in_map. apply filter_In. split.
  - now apply get_in_items.
  - unfold expired. cbn [fst snd]. apply orb_true_iff.
    destruct Hexp as [H|H]; [left|right]; apply Z.gtb_lt; lia.
Qed.

Lemma sweep_absent_stays ks k m :
  get k (_clients m) = None -> get k (_connection_counts m) = None ->
  get k (_connection_counts (sweep ks m)) = None.
Proof.
  revert m. induction ks as [|k0 r IH]; intros m Hc Hn; auto.
  change (sweep (k0 :: r) m) with (sweep r (cleaned k0 m)).
  destruct (string_dec k0 k) as [->|Hne].
  - apply IH; unfold cleaned; rewrite Hc; auto.
  - apply IH.
    + now rewrite cleaned_clients_other.
    + now rewrite cleaned_counts_other.
Qed.

Lemma sweep_counts_removed ks k c m :
  In k ks -> get k (_clients m) = Some c -> closes_cleanly c = true ->
  get k (_connection_counts (sweep ks m)) = None.
Proof.
  revert m. induction ks as [|k0 r IH]; intros m Hin Hc Hclean; simpl in Hin; [tauto|].
  change (sweep (k0 :: r) m) with (sweep r (cleaned k0 m)).
  destruct (string_dec k0 k) as [->|Hne].
  - apply sweep_absent_stays; unfold cleaned; rewrite Hc, Hclean; flat; apply get_del_same.
  - destruct Hin as [?|Hin]; [congruence|].
    apply IH; auto. now rewrite cleaned_clients_other.
Qed.

Lemma in_mutation_locks f k b t : In (Mutated f k b) t -> In b (mutation_locks t).
Proof.
  intros H. unfold mutation_locks. apply in_flat_map.
  exists (Mutated f k b). split; [exact H|now left].
Qed.

Lemma cleanup_events_locks k m b :
  In b (mutation_locks (cleanup_events k m)) -> b = _lock m.
Proof.
  unfold cleanup_events, closer_events, closer_result.
  destruct (get k (_clients m)) as [c|]; [|intros []].
  destruct (vector_closer c) as [[mv [[]|ev]]|];
    destruct (db_closer c) as [[md [[]|ed]]|];
    destruct (mem k (_connection_counts m));
    simpl; intuition congruence.
Qed.

Lemma mutation_locks_app t1 t2 :
  mutation_locks (t1 ++ t2) = mutation_locks t1 ++ mutation_locks t2.
Proof. unfold mutation_locks. apply flat_map_app. Qed.

Lemma sweep_events_locks (note : string -> list event) ks m b :
  (forall k, mutation_locks (note k) = []) ->
  In b (mutation_locks (sweep_events note ks m)) -> b = _lock m.
Proof.
  intros Hnote. revert m. induction ks as [|k r IH]; intros m; simpl; [tauto|].
  rewrite !mutation_locks_app, Hnote, app_nil_r. intros H.
  apply in_app_or in H. destruct H as [H|H].
  - now apply cleanup_events_locks in H.
  - apply IH in H. now rewrite cleaned_lock in H.
Qed.

Lemma cleanup_events_deletes k c m :
  get k (_clients m) = Some c -> closes_cleanly c = true ->
  In (Mutated f_clients k (_lock m)) (cleanup_events k m).
Proof.
  intros Hc Hclean. unfold cleanup_events. rewrite Hc.
  unfold closes_cleanly in Hclean.
  destruct (closer_result (vector_closer c)) as [[]|]; [|discriminate].
  destruct (closer_result (db_closer c)) as [[]|]; [|discriminate].
  right. apply in_or_app. right. apply in_or_app. right. now left.
Qed.

Lemma sweep_events_deletes (note : string -> list event) ks k c m :
  In k ks -> get k (_clients m) = Some c -> closes_cleanly c = true ->
  In (Mutated f_clients k (_lock m)) (sweep_events note ks m).
Proof.
  revert m. induction ks as [|k0 r IH]; intros m Hin Hc Hclean; simpl in Hin; [tauto|].
  simpl sweep_events.
  destruct (string_dec k0 k) as [->|Hne].
  - apply in_or_app. left. apply in_or_app. left. now apply (cleanup_events_deletes k c).
  - destruct Hin as [?|Hin]; [congruence|].
    apply in_or_app. right. rewrite <- (cleaned_lock k0 m).
    apply IH; auto. now rewrite cleaned_clients_other.
Qed.

(** ** The time maps only grow *)

Lemma remembers_same w w' :
  _last_used (self w') = _last_used (self w) ->
  client_created_time (self w') = client_created_time (self w) ->
  remembers w w'.
Proof. intros H1 H2 k. rewrite H1, H2. auto. Qed.

Lemma remembers_trans w1 w2 w3 : remembers w1 w2 -> remembers w2 w3 -> remembers w1 w3.
Proof.
  intros H12 H23 k. destruct (H12 k), (H23 k). auto.
Qed.

Lemma get_client_orphan (lib : Library) k w c :
  _lock (self w) = false ->
  get k (_clients (self w)) = Some c ->
  get k (_connection_counts (self w)) = None ->
  get_client lib k w = (Raise (KeyError k), tick w).
Proof.
  intros Hfree Hc Hn. unfold get_client.
  rewrite with_lock_free by exact Hfree. run.
  unfold mem. rewrite Hc. cbn [negb]. run. rewrite Hn.
  f_equal. same_world. now apply unlock_lock.
Qed.

Lemma get_client_remembers (lib : Library) k w :
  remembers w (exec (get_client lib k) w).
Proof.
  unfold exec. destruct (_lock (self w)) eqn:Hlock.
  { rewrite get_client_held by exact Hlock. now apply remembers_same. }
  destruct (get k (_clients (self w))) as [c|] eqn:Hc.
  - destruct (get k (_connection_counts (self w))) as [n|] eqn:Hn.
    + rewrite (get_client_present lib k w c n Hlock Hc Hn).
      intros k'. unfold reused. flat. split; [apply mem_set|auto].
    + rewrite (get_client_orphan lib k w c Hlock Hc Hn). now apply remembers_same.
  - destruct (Z_lt_le_dec (len (_clients (self w))) (max_pool_size (self w))) as [Hroom|Hfull].
    + destruct (get_client_fresh lib k w Hlock Hc Hroom) as (o & w' & Hrun & Hcase).
      rewrite Hrun. cbn [snd].
      destruct Hcase as [(e & _ & Hs & _)|(c & _ & Hs & _)].
      * apply remembers_same; now rewrite Hs.
      * intros k'. rewrite Hs. unfold admitted. flat. split; apply mem_set.
    + rewrite (get_client_full lib k w Hlock Hc Hfull). now apply remembers_same.
Qed.

Lemma release_client_remembers k w : remembers w (exec (release_client k) w).
Proof.
  unfold exec. destruct (_lock (self w)) eqn:Hlock.
  { unfold release_client. rewrite with_lock_held by exact Hlock. now apply remembers_same. }
  rewrite (release_client_run k w Hlock).
  destruct (get k (_connection_counts (self w))) as [n|]; [|now apply remembers_same].
  cbv zeta. destruct (n - 1 <=? 0); apply remembers_same; flat;
    rewrite ?cleaned_last_used, ?cleaned_created_time; reflexivity.
Qed.

Lemma cleanup_all_remembers w : remembers w (exec cleanup_all w).
Proof.
  unfold exec. destruct (_lock (self w)) eqn:Hlock.
  { unfold cleanup_all.
    rewrite (bind_run _ _ _ _ _ (with_lock_held _ w Hlock)). now apply remembers_same. }
  rewrite (cleanup_all_run w Hlock).
  apply remembers_same; flat; rewrite ?sweep_last_used, ?sweep_created_time; reflexivity.
Qed.

Lemma _periodic_cleanup_scan_remembers (lib : Library) interval w :
  remembers w (exec (_periodic_cleanup_scan lib interval) w).
Proof.
  unfold exec. destruct (_lock (self w)) eqn:Hlock.
  { unfold _periodic_cleanup_scan, try_except, _periodic_cleanup_mark. run.
    rewrite with_lock_held by exact Hlock. now apply remembers_same. }
  destruct (_periodic_cleanup_scan_run lib interval w Hlock)
    as (evs & w' & Hrun & Hself & _).
  rewrite Hrun. cbn [snd]. apply remembers_same; rewrite Hself.
  - apply sweep_last_used.
  - apply sweep_created_time.
Qed.

Lemma step_remembers (lib : Library) o w : remembers w (step lib o w).
Proof.
  destruct o as [k|k| |interval|interval|exits|k|k]; cbn [step].
  - apply get_client_remembers.
  - apply release_client_remembers.
  - apply cleanup_all_remembers.
  - apply _periodic_cleanup_scan_remembers.
  - unfold exec, start_periodic_cleanup. run.
    destruct (_cleanup_thread (self w)) as [[]|]; now apply remembers_same.
  - unfold exec, stop_periodic_cleanup. run.
    destruct (_cleanup_thread (self w)) as [t|]; [destruct exits|]; now apply remembers_same.
  - unfold exec. destruct (_cleanup_client_begin_run k w) as (evs & ->).
    apply remembers_same; flat; unfold begun; now destruct (begins k (self w)).
  - unfold exec. destruct (_cleanup_client_end_run k w) as (evs & ->).
    now apply remembers_same.
Qed.

Lemma steps_remembers (lib : Library) os w : remembers w (steps lib os w).
Proof.
  revert w. induction os as [|o r IH]; intros w.
  - now apply remembers_same.
  - change (steps lib (o :: r) w) with (steps lib r (step lib o w)).
    eapply remembers_trans; [apply step_remembers|apply IH].
Qed.

(** * The claims *)

(** ** C1: acquiring a new key on a full pool *)

(** C1.  The claim says that [get_client] on an absent key of a full pool
    completes: it evicts under pressure and admits the new entry.  The
    code does not: [get_client] holds the pool's lock when it calls
    [_force_cleanup_idle_connections], which takes the same lock; the
    lock is not re-entrant, so the call never returns.  No entry is
    admitted and the lock stays held. *)
Theorem get_client_blocks_on_full_pool (lib : Library) (client_id : string) (w : world) :
  _lock (self w) = false ->
  mem client_id (_clients (self w)) = false ->
  len (_clients (self w)) >= max_pool_size (self w) ->
  eval (get_client lib client_id) w = Block /\
  _clients (self (exec (get_client lib client_id) w)) = _clients (self w) /\
  _lock (self (exec (get_client lib client_id) w)) = true.
Proof.
  intros Hfree Habs Hfull. apply mem_false_get in Habs.
  unfold eval, exec. rewrite get_client_full by (auto; lia).
  repeat split.
Qed.

Lemma get_client_blocks_on_full_pool_witness :
  eval (get_client (lenient_library sound_handle) "c") two_clients = Block /\
  _clients (self (exec (get_client (lenient_library sound_handle) "c") two_clients))
    = _clients (self two_clients) /\
  _lock (self (exec (get_client (lenient_library sound_handle) "c") two_clients)) = true.
Proof.
  apply (get_client_blocks_on_full_pool (lenient_library sound_handle) "c" two_clients).
  - reflexivity.
  - reflexivity.
  - vm_compute. discriminate.
Defined.

(** ** C2: teardown when a close step raises *)

(** C2 (as stated, refuted).  One entry whose vector client raises on
    [close()]: [cleanup_all] returns, but the database connection of the
    handle is never closed and the entry is still in the pool. *)
Lemma cleanup_all_keeps_faulty_entry :
  eval cleanup_all one_faulty_client = Ret tt /\
  get "a" (_clients (self (exec cleanup_all one_faulty_client))) = Some (faulty_handle 0) /\
  db_closer (faulty_handle 0) = Some (db_connection_close, Ok tt) /\
  calls_on 0 (trace (exec cleanup_all one_faulty_client)) = [vector_client_close].
Proof. vm_compute. repeat split. Qed.

(** C2 (amended).  A close step that raises is caught and logged, never
    propagated, but it ends the teardown of that entry: when the close of
    the vector client raises, nothing else is called on the handle, and
    whenever a close step raises the entry stays in the pool.
    [cleanup_all] always returns and releases the lock, starts the
    teardown of every entry exactly once, and leaves exactly the entries
    whose teardown raised; the pool is empty when none raises. *)
Theorem teardown_stops_at_first_failure :
  (forall (w : world) (k : string) (c : Memory),
     get k (_clients (self w)) = Some c ->
     let w' := exec (_cleanup_client k) w in
     eval (_cleanup_client k) w = Ret tt /\
     (closes_cleanly c = true ->
      get k (_clients (self w')) = None /\ get k (_connection_counts (self w')) = None) /\
     (closes_cleanly c = false -> self w' = self w) /\
     (forall e, closer_result (vector_closer c) = Err e ->
        trace w' =
        trace w ++ Cleaning k :: closer_events c (vector_closer c) ++ [CleanupError k e])) /\
  (forall w : world,
     _lock (self w) = false ->
     NoDup (keys (_clients (self w))) ->
     let w' := exec cleanup_all w in
     eval cleanup_all w = Ret tt /\
     _lock (self w') = false /\
     _clients (self w') = faulty (_clients (self w)) /\
     (forall k, In k (keys (_clients (self w))) ->
        cleanings k (trace w') = S (cleanings k (trace w))) /\
     ((forall k c, get k (_clients (self w)) = Some c -> closes_cleanly c = true) ->
      _clients (self w') = [])).
Proof.
  split.
  - intros w k c Hget. unfold eval, exec. rewrite _cleanup_client_run. flat.
    split; [reflexivity|]. unfold cleaned, cleanup_events. rewrite Hget.
    split; [|split].
    + intros Hclean. rewrite Hclean. flat. split; apply get_del_same.
    + intros Hfaulty. now rewrite Hfaulty.
    + intros e He. now rewrite He.
  - intros w Hfree Hnd. unfold eval, exec. rewrite (cleanup_all_run w Hfree). flat.
    assert (Hclients :
              _clients (sweep (keys (_clients (self w))) (with_lock_flag true (self w)))
              = faulty (_clients (self w))).
    { rewrite sweep_clients. flat. now apply purge_keys. }
    split; [reflexivity|]. split; [reflexivity|]. split; [exact Hclients|]. split.
    + intros k Hin. rewrite !cleanings_app.
      rewrite (cleanings_sweep_once (fun _ => []) k); auto.
      * unfold cleanings at 2. simpl. lia.
      * flat. apply mem_get. now apply get_in_keys.
    + intros Hall. rewrite Hclients. now apply faulty_none.
Qed.

Lemma teardown_stops_at_first_failure_witness :
  eval cleanup_all two_clients = Ret tt /\
  _lock (self (exec cleanup_all two_clients)) = false /\
  _clients (self (exec cleanup_all two_clients)) = [] /\
  cleanings "a" (trace (exec cleanup_all two_clients)) = 1%nat /\
  cleanings "b" (trace (exec cleanup_all two_clients)) = 1%nat.
Proof.
  assert (Hfree : _lock (self two_clients) = false) by reflexivity.
  assert (Hnd : NoDup (keys (_clients (self two_clients)))).
  { vm_compute. repeat constructor; simpl; intuition discriminate. }
  destruct (proj2 teardown_stops_at_first_failure two_clients Hfree Hnd)
    as (Hret & Hlock & Hclients & Honce & _).
  split; [exact Hret|]. split; [exact Hlock|]. split; [exact Hclients|].
  split.
  - apply (Honce "a"). vm_compute. auto.
  - apply (Honce "b"). vm_compute. auto.
Defined.

(** ** C3: the lock and the reclaimer *)

(** C3.  The claim says every removal from the pool maps is made under
    the lock, also by the reclaimer.  The code marks under the lock, leaves
    the [with] block, and only then calls [_cleanup_client]: for every
    expired entry whose teardown succeeds, the scan deletes it from
    [_clients] while the lock is free, and no store or deletion of the
    scan is made under the lock. *)
Theorem reclaimer_deletes_outside_lock
  (lib : Library) (interval : Z) (w : world) (k : string) (c : Memory) (last_used : Z) :
  _lock (self w) = false ->
  get k (_clients (self w)) = Some c ->
  closes_cleanly c = true ->
  get k (_last_used (self w)) = Some last_used ->
  clock w (ticks w) - last_used > idle_timeout (self w) ->
  exists evs,
    trace (exec (_periodic_cleanup_scan lib interval) w) = trace w ++ evs /\
    In (Mutated f_clients k false) evs /\
    forall f k' b, In (Mutated f k' b) evs -> b = false.
Proof.
  intros Hfree Hc Hclean Hlu Hexp.
  pose proof (expired_marked (self w) _ k last_used Hlu (or_introl Hexp)) as Hmarked.
  destruct (_periodic_cleanup_scan_run lib interval w Hfree)
    as (evs & w' & Hrun & _ & Htrace & _ & Hlocks).
  unfold exec. rewrite Hrun. cbn [snd]. eexists. split; [exact Htrace|]. split.
  - apply in_or_app. left. rewrite <- Hfree.
    now apply (sweep_events_deletes _ _ k c).
  - intros f k' b Hin. apply in_mutation_locks in Hin.
    rewrite mutation_locks_app, Hlocks, app_nil_r in Hin.
    rewrite <- Hfree.
    apply (sweep_events_locks (fun k => [Removed k]) _ _ _ (fun _ => eq_refl) Hin).
Qed.

Lemma reclaimer_deletes_outside_lock_witness :
  let w := at_time 200 two_clients in
  exists evs,
    trace (exec (_periodic_cleanup_scan (lenient_library sound_handle) 1) w)
    = trace w ++ evs /\
    In (Mutated f_clients "a" false) evs /\
    forall f k' b, In (Mutated f k' b) evs -> b = false.
Proof.
  intros w.
  apply (reclaimer_deletes_outside_lock
           (lenient_library sound_handle) 1 w "a" (sound_handle 0) 0).
  - reflexivity.
  - reflexivity.
  - reflexivity.
  - reflexivity.
  - lazy. reflexivity.
Defined.

(** The same entry released by [release_client]: its deletions are made
    under the lock. *)
Example release_deletes_under_lock :
  mutation_locks
    (skipn (length (trace two_clients))
       (trace (exec (release_client "a") two_clients)))
  = [true; true; true].
Proof. lazy. reflexivity. Qed.

(** What the free lock allows: the reclaimer marks "a" at time 200; before
    it evicts, another thread acquires "a" and is handed the handle with a
    fresh last-used time; the eviction then closes that very handle and
    removes the entry and its refcount. *)
Example reclaimer_evicts_entry_acquired_after_marking :
  let lib := lenient_library sound_handle in
  let w := at_time 200 two_clients in
  let ks := marked (self w) (clock w (ticks w)) in
  let w1 := exec _periodic_cleanup_mark w in
  let w2 := exec (get_client lib "a") w1 in
  let w3 := exec (_periodic_cleanup_evict ks) w2 in
  eval (get_client lib "a") w1 = Ret (sound_handle 0) /\
  get "a" (_connection_counts (self w2)) = Some 2 /\
  get "a" (_last_used (self w2)) = Some 201 /\
  get "a" (_clients (self w3)) = None /\
  get "a" (_connection_counts (self w3)) = None /\
  calls_on 0 (skipn (length (trace w2)) (trace w3))
  = [vector_client_close; db_connection_close].
Proof. lazy. repeat split. Qed.

(** ** C4: what a scan evicts *)

(** C4 (as stated, refuted).  "a" was last used at time 0 and is looked at
    at time 200 with [idle_timeout = 100]; its vector client raises on
    [close()].  The scan marks it and starts its teardown, but the entry
    is still in the pool afterwards. *)
Lemma scan_keeps_expired_faulty_entry :
  let w := at_time 200 one_faulty_client in
  let w' := exec (_periodic_cleanup_scan (lenient_library faulty_handle) 1) w in
  get "a" (_last_used (self w)) = Some 0 /\
  clock w (ticks w) - 0 > idle_timeout (self w) /\
  marked (self w) (clock w (ticks w)) = ["a"] /\
  get "a" (_clients (self w')) = Some (faulty_handle 0).
Proof. lazy. auto. Qed.

(** C4 (amended).  A scan marks every entry whose idle time exceeds
    [idle_timeout] or whose age exceeds [max_lifetime] and starts its
    teardown, whatever its refcount (the statement puts no condition on
    [_connection_counts]).  The entry is removed from the client map and
    the refcount map unless a close step of its teardown raises; then it
    stays in the pool. *)
Theorem scan_tears_down_expired_entries
  (lib : Library) (interval : Z) (w : world) (k : string) (c : Memory) (last_used : Z) :
  _lock (self w) = false ->
  get k (_clients (self w)) = Some c ->
  get k (_last_used (self w)) = Some last_used ->
  clock w (ticks w) - last_used > idle_timeout (self w) \/
  clock w (ticks w)
    - match get k (client_created_time (self w)) with
      | Some t => t
      | None => clock w (ticks w)
      end
    > max_lifetime (self w) ->
  let w' := exec (_periodic_cleanup_scan lib interval) w in
  eval (_periodic_cleanup_scan lib interval) w = Ret tt /\
  In k (marked (self w) (clock w (ticks w))) /\
  (cleanings k (trace w) < cleanings k (trace w'))%nat /\
  get k (_clients (self w')) = (if closes_cleanly c then None else Some c) /\
  (closes_cleanly c = true -> get k (_connection_counts (self w')) = None).
Proof.
  intros Hfree Hc Hlu Hexp.
  pose proof (expired_marked (self w) _ k last_used Hlu Hexp) as Hmarked.
  destruct (_periodic_cleanup_scan_run lib interval w Hfree)
    as (evs & w' & Hrun & Hself & Htrace & Hquiet & _).
  unfold eval, exec. rewrite Hrun. cbn [fst snd].
  split; [reflexivity|]. split; [exact Hmarked|]. split; [|split].
  - rewrite Htrace, !cleanings_app, Hquiet.
    pose proof (cleanings_sweep_some (fun k => [Removed k]) k _ (self w) Hmarked) as H.
    unfold mem in H. rewrite Hc in H. specialize (H eq_refl). lia.
  - rewrite Hself, sweep_clients, (purge_touched _ _ _ Hmarked), Hc. reflexivity.
  - intros Hclean. rewrite Hself. now apply (sweep_counts_removed _ k c).
Qed.

Lemma scan_tears_down_expired_entries_witness :
  let w := at_time 200 two_clients in
  let w' := exec (_periodic_cleanup_scan (lenient_library sound_handle) 1) w in
  get "a" (_connection_counts (self w)) = Some 1 /\
  get "a" (_clients (self w')) = None /\
  get "a" (_connection_counts (self w')) = None.
Proof.
  intros w w'.
  destruct (scan_tears_down_expired_entries
              (lenient_library sound_handle) 1 w "a" (sound_handle 0) 0)
    as (_ & _ & _ & H1 & H2).
  - reflexivity.
  - reflexivity.
  - reflexivity.
  - left. lazy. reflexivity.
  - split; [reflexivity|]. split; [exact H1|]. apply H2. reflexivity.
Defined.

(** ** C5: releasing *)

(** C5 (as stated, refuted).  "a" is held once by a handle whose vector
    client raises on [close()].  Releasing it drops the refcount to 0 and
    starts the teardown, but the entry is not removed. *)
Lemma release_keeps_faulty_entry :
  get "a" (_connection_counts (self one_faulty_client)) = Some 1 /\
  eval (release_client "a") one_faulty_client = Ret tt /\
  get "a" (_connection_counts (self (exec (release_client "a") one_faulty_client))) = Some 0 /\
  get "a" (_clients (self (exec (release_client "a") one_faulty_client)))
    = Some (faulty_handle 0).
Proof. vm_compute. repeat split. Qed.

(** C5 (amended).  [release_client] never raises and releases the lock.
    On an absent key it changes nothing.  On a present key it decrements
    the refcount; when the result is 0 or less it starts the teardown of
    the entry at once, and the entry is removed from the client map and
    the refcount map unless a close step raises, in which case the entry
    stays with its decremented refcount. *)
Theorem release_client_decrements_and_tears_down (w : world) (k : string) :
  _lock (self w) = false ->
  let w' := exec (release_client k) w in
  eval (release_client k) w = Ret tt /\
  _lock (self w') = false /\
  match get k (_connection_counts (self w)) with
  | None => w' = w
  | Some n =>
      if n - 1 <=? 0 then
        match get k (_clients (self w)) with
        | Some c =>
            cleanings k (trace w') = S (cleanings k (trace w)) /\
            if closes_cleanly c
            then get k (_clients (self w')) = None /\
                 get k (_connection_counts (self w')) = None
            else get k (_clients (self w')) = Some c /\
                 get k (_connection_counts (self w')) = Some (n - 1)
        | None => get k (_connection_counts (self w')) = Some (n - 1)
        end
      else
        get k (_connection_counts (self w')) = Some (n - 1) /\
        _clients (self w') = _clients (self w) /\
        trace w' = trace w ++ [Mutated f_connection_counts k true]
  end.
Proof.
  intros Hfree. unfold eval, exec. rewrite (release_client_run k w Hfree).
  destruct (get k (_connection_counts (self w))) as [n|] eqn:Hn.
  2:{ auto. }
  cbv zeta. destruct (n - 1 <=? 0).
  - flat. split; [reflexivity|]. split; [reflexivity|].
    destruct (get k (_clients (self w))) as [c|] eqn:Hc.
    + split.
      * change (Mutated f_connection_counts k true :: ?t)
          with ([Mutated f_connection_counts k true] ++ t).
        rewrite !cleanings_app, cleanings_cleanup_events, String.eqb_refl.
        unfold mem. flat. rewrite Hc. unfold cleanings at 2. simpl. lia.
      * unfold cleaned. flat. rewrite Hc.
        destruct (closes_cleanly c); flat.
        -- split; apply get_del_same.
        -- split; [exact Hc|apply get_set_same].
    + unfold cleaned. flat. rewrite Hc. flat. apply get_set_same.
  - flat. split; [reflexivity|]. split; [reflexivity|].
    split; [apply get_set_same|]. auto.
Qed.

Lemma release_client_decrements_and_tears_down_witness :
  eval (release_client "a") two_clients = Ret tt /\
  get "a" (_clients (self (exec (release_client "a") two_clients))) = None /\
  get "a" (_connection_counts (self (exec (release_client "a") two_clients))) = None.
Proof.
  assert (Hfree : _lock (self two_clients) = false) by reflexivity.
  destruct (release_client_decrements_and_tears_down two_clients "a" Hfree)
    as (Hret & _ & H).
  split; [exact Hret|].
  exact (proj2 H).
Defined.

(** ** C6: one acquire, two releases *)

(** C6 (as stated, refuted).  "a" is acquired once and released twice; the
    vector client of its handle raises on [close()].  Each release starts
    a teardown that fails: the entry is still in the pool after the second
    release and its stored refcount is -1. *)
Lemma double_release_of_faulty_entry_goes_negative :
  let w1 := one_faulty_client in
  let w2 := exec (release_client "a") w1 in
  let w3 := exec (release_client "a") w2 in
  get "a" (_connection_counts (self w1)) = Some 1 /\
  get "a" (_connection_counts (self w2)) = Some 0 /\
  get "a" (_clients (self w3)) = Some (faulty_handle 0) /\
  get "a" (_connection_counts (self w3)) = Some (-1).
Proof. lazy. auto. Qed.

(** C6 (amended).  A key that is acquired once, with a handle whose close
    steps do not raise, and released twice: the acquire stores refcount 1;
    the first release reaches 0 and removes the entry at once; the second
    release finds no entry and changes nothing.  After it the entry is
    absent and the refcount map holds no entry for the key: the underflow
    stops at the removal, no negative refcount is stored. *)
Theorem acquire_once_release_twice (lib : Library) (w : world) (k : string) (c : Memory) :
  _lock (self w) = false ->
  mem k (_clients (self w)) = false ->
  len (_clients (self w)) < max_pool_size (self w) ->
  eval (get_client lib k) w = Ret c ->
  closes_cleanly c = true ->
  let w1 := exec (get_client lib k) w in
  let w2 := exec (release_client k) w1 in
  let w3 := exec (release_client k) w2 in
  (get k (_clients (self w1)) = Some c /\ get k (_connection_counts (self w1)) = Some 1) /\
  (eval (release_client k) w1 = Ret tt /\
   get k (_clients (self w2)) = None /\ get k (_connection_counts (self w2)) = None) /\
  (eval (release_client k) w2 = Ret tt /\ w3 = w2 /\
   get k (_clients (self w3)) = None /\ get k (_connection_counts (self w3)) = None /\
   forall k' n, get k' (_connection_counts (self w3)) = Some n ->
                get k' (_connection_counts (self w)) = Some n).
Proof.
  intros Hfree Habs Hroom Hret Hclean. apply mem_false_get in Habs.
  destruct (get_client_fresh lib k w Hfree Habs Hroom) as (o & w1 & Hrun & Hcase).
  assert (Hw1 : exec (get_client lib k) w = w1) by (unfold exec; now rewrite Hrun).
  unfold eval in Hret. rewrite Hrun in Hret. cbn [fst] in Hret.
  destruct Hcase as [(e & -> & _)|(c' & -> & Hself & Htrace)]; [discriminate|].
  injection Hret as ->.
  cbv zeta. rewrite Hw1.
  set (w2 := exec (release_client k) w1).
  set (w3 := exec (release_client k) w2).
  assert (Hfree1 : _lock (self w1) = false) by (rewrite Hself; exact Hfree).
  assert (Hc1 : get k (_clients (self w1)) = Some c)
    by (rewrite Hself; unfold admitted; flat; apply get_set_same).
  assert (Hn1 : get k (_connection_counts (self w1)) = Some 1)
    by (rewrite Hself; unfold admitted; flat; apply get_set_same).
  split; [auto|].
  pose proof (release_client_run k w1 Hfree1) as Hrel1.
  rewrite Hn1 in Hrel1. cbv zeta in Hrel1. change (1 - 1 <=? 0) with true in Hrel1.
  cbv iota in Hrel1.
  assert (Hself2 :
            self w2 =
            with_lock_flag false
              (with_connection_counts (del k)
                 (with_clients (del k)
                    (with_connection_counts (set k (1 - 1)) (with_lock_flag true (self w1)))))).
  { unfold w2, exec. rewrite Hrel1. flat. unfold cleaned. flat. rewrite Hc1, Hclean.
    reflexivity. }
  assert (Hc2 : get k (_clients (self w2)) = None)
    by (rewrite Hself2; flat; apply get_del_same).
  assert (Hn2 : get k (_connection_counts (self w2)) = None)
    by (rewrite Hself2; flat; apply get_del_same).
  assert (Hfree2 : _lock (self w2) = false) by (rewrite Hself2; reflexivity).
  split.
  { unfold eval. rewrite Hrel1. auto. }
  pose proof (release_client_run k w2 Hfree2) as Hrel2. rewrite Hn2 in Hrel2.
  assert (H32 : w3 = w2) by (unfold w3, exec; now rewrite Hrel2).
  split; [unfold eval; now rewrite Hrel2|].
  split; [exact H32|]. rewrite H32. split; [exact Hc2|]. split; [exact Hn2|].
  intros k' n. rewrite Hself2. flat. rewrite del_set. rewrite Hself. unfold admitted. flat.
  rewrite ?del_set.
  destruct (String.eqb_spec k k') as [->|Hne].
  - now rewrite get_del_same.
  - now rewrite get_del_other.
Qed.

Lemma acquire_once_release_twice_witness :
  let lib := lenient_library sound_handle in
  let w1 := exec (get_client lib "a") empty_pool in
  let w2 := exec (release_client "a") w1 in
  let w3 := exec (release_client "a") w2 in
  get "a" (_connection_counts (self w1)) = Some 1 /\
  get "a" (_clients (self w2)) = None /\
  w3 = w2 /\
  get "a" (_connection_counts (self w3)) = None.
Proof.
  intros lib w1 w2 w3.
  destruct (acquire_once_release_twice lib empty_pool "a" (sound_handle 0))
    as ((_ & H1) & (_ & H2 & _) & (_ & H3 & _ & H4 & _)).
  - reflexivity.
  - reflexivity.
  - lazy. reflexivity.
  - lazy. reflexivity.
  - reflexivity.
  - split; [exact H1|]. split; [exact H2|]. split; [exact H3|exact H4].
Defined.

(** ** C7: the factory and a missing connection string *)



(** ** C8: the time maps keep the keys of removed entries *)

(** C8 (as stated, refuted).  An entry whose vector client raises on
    [close()] is torn down by a release that reaches refcount 0 and by an
    eviction of the reclaimer, and its key is removed from no map: after
    either, "a" is in the client map, the refcount map and the two time
    maps, so the four maps still have the same keys. *)
Lemma teardown_of_faulty_entry_removes_no_key :
  let lib := lenient_library faulty_handle in
  let released := steps lib [Acquire "a"; Release "a"] empty_pool in
  let evicted := step lib (Scan 1) (at_time 200 one_faulty_client) in
  cleanings "a" (trace released) = 1%nat /\
  keys (_clients (self released)) = ["a"] /\
  keys (_connection_counts (self released)) = ["a"] /\
  keys (_last_used (self released)) = ["a"] /\
  keys (client_created_time (self released)) = ["a"] /\
  cleanings "a" (trace evicted) = 1%nat /\
  keys (_clients (self evicted)) = ["a"] /\
  keys (_connection_counts (self evicted)) = ["a"] /\
  keys (_last_used (self evicted)) = ["a"] /\
  keys (client_created_time (self evicted)) = ["a"].
Proof. vm_compute. auto 12. Qed.

(** C8 (amended).  [_cleanup_client] leaves [_last_used] and
    [client_created_time] as they are.  When no close step raises it
    removes the key from [_clients] and [_connection_counts]; when one
    raises it leaves these two maps as they are too.  No step of the pool,
    the halves of an eviction included, removes a key from the two time
    maps, so they keep every key ever acquired and only grow.  After one
    acquire and one release of a handle that closes cleanly, and likewise
    after a scan that evicts it, the key is gone from the client and
    refcount maps and still in the two time maps: the four maps no longer
    have the same keys. *)
Theorem time_maps_keep_removed_keys (lib : Library) :
  (forall (k : string) (w : world),
     let w' := exec (_cleanup_client k) w in
     _last_used (self w') = _last_used (self w) /\
     client_created_time (self w') = client_created_time (self w) /\
     forall c, get k (_clients (self w)) = Some c ->
               if closes_cleanly c
               then mem k (_clients (self w')) = false /\
                    mem k (_connection_counts (self w')) = false
               else _clients (self w') = _clients (self w) /\
                    _connection_counts (self w') = _connection_counts (self w)) /\
  (forall (os : list op) (w : world), remembers w (steps lib os w)) /\
  (forall (k : string) (w : world) (c : Memory),
     eval (get_client lib k) w = Ret c ->
     mem k (_last_used (self (exec (get_client lib k) w))) = true /\
     (mem k (_clients (self w)) = false ->
      mem k (client_created_time (self (exec (get_client lib k) w))) = true)) /\
  (let w := steps (lenient_library sound_handle) [Acquire "a"; Release "a"] empty_pool in
   mem "a" (_clients (self w)) = false /\
   mem "a" (_connection_counts (self w)) = false /\
   mem "a" (_last_used (self w)) = true /\
   mem "a" (client_created_time (self w)) = true) /\
  (let w := step (lenient_library sound_handle) (Scan 1) (at_time 200 two_clients) in
   mem "a" (_clients (self w)) = false /\
   mem "a" (_connection_counts (self w)) = false /\
   mem "a" (_last_used (self w)) = true /\
   mem "a" (client_created_time (self w)) = true).
Proof.
  split; [|split; [|split; [|split]]].
  - intros k w. unfold exec. rewrite _cleanup_client_run. flat.
    split; [apply cleaned_last_used|]. split; [apply cleaned_created_time|].
    intros c Hc. unfold cleaned, mem. rewrite Hc.
    destruct (closes_cleanly c); flat.
    + now rewrite !get_del_same.
    + split; reflexivity.
  - intros os w. apply steps_remembers.
  - intros k w c Hret. unfold eval in Hret. unfold exec.
    destruct (_lock (self w)) eqn:Hlock.
    { rewrite get_client_held in Hret by exact Hlock. discriminate. }
    unfold mem at 2. destruct (get k (_clients (self w))) as [c0|] eqn:Hc.
    + destruct (get k (_connection_counts (self w))) as [n|] eqn:Hn.
      * rewrite (get_client_present lib k w c0 n Hlock Hc Hn). unfold reused, mem. flat.
        rewrite get_set_same. split; [reflexivity|discriminate].
      * rewrite (get_client_orphan lib k w c0 Hlock Hc Hn) in Hret. discriminate.
    + destruct (Z_lt_le_dec (len (_clients (self w))) (max_pool_size (self w)))
        as [Hroom|Hfull].
      * destruct (get_client_fresh lib k w Hlock Hc Hroom) as (o & w' & Hrun & Hcase).
        rewrite Hrun in *. cbn [fst snd] in *.
        destruct Hcase as [(e & -> & _)|(c' & _ & Hs & _)]; [discriminate|].
        rewrite Hs. unfold admitted, mem. flat. now rewrite !get_set_same.
      * rewrite (get_client_full lib k w Hlock Hc Hfull) in Hret. discriminate.
  - lazy. auto.
  - lazy. auto.
Qed.

Lemma time_maps_keep_removed_keys_witness :
  let lib := lenient_library sound_handle in
  mem "a" (_last_used (self (exec (get_client lib "a") empty_pool))) = true /\
  mem "a" (client_created_time (self (exec (get_client lib "a") empty_pool))) = true /\
  mem "a" (_clients (self (exec (_cleanup_client "a") two_clients))) = false /\
  _clients (self (exec (_cleanup_client "a") one_faulty_client))
  = _clients (self one_faulty_client).
Proof.
  intros lib.
  destruct (proj1 (proj2 (proj2 (time_maps_keep_removed_keys lib)))
              "a" empty_pool (sound_handle 0)) as (H1 & H2).
  - reflexivity.
  - split; [exact H1|]. split; [apply H2; reflexivity|]. split.
    + destruct (proj1 (time_maps_keep_removed_keys lib) "a" two_clients) as (_ & _ & H3).
      exact (proj1 (H3 (sound_handle 0) eq_refl)).
    + destruct (proj1 (time_maps_keep_removed_keys lib) "a" one_faulty_client)
        as (_ & _ & H3).
      exact (proj1 (H3 (faulty_handle 0) eq_refl)).
Defined.

(** ** C9: the connection count *)

(** C9.  [get_connection_count] always returns an integer: it neither
    raises nor blocks, and whenever the query inside its [try] raises,
    whatever the step and the exception, the value returned is -1. *)
Theorem get_connection_count_never_raises (lib : Library) (w : world) :
  (exists n, eval (get_connection_count lib) w = Ret n) /\
  (forall e, eval (count_sessions lib) w = Raise e ->
             eval (get_connection_count lib) w = Ret (-1)).
Proof.
  destruct (get_connection_count_run lib w) as (n & evs & Hrun & Hcase).
  unfold eval. rewrite Hrun. split; [now exists n|].
  intros e He. destruct Hcase as [[_ Hq]|[-> _]]; [|reflexivity].
  rewrite Hq in He. discriminate.
Qed.

Lemma get_connection_count_never_raises_witness :
  let w := process (__init__ 10 300 600 3600) [("DATABASE_URL", "postgresql://db")] 0 in
  eval (count_sessions (lenient_library sound_handle)) w = Raise (LibraryError 2) /\
  eval (get_connection_count (lenient_library sound_handle)) w = Ret (-1).
Proof.
  intros w. split; [reflexivity|].
  apply (proj2 (get_connection_count_never_raises (lenient_library sound_handle) w)
               (LibraryError 2)).
  reflexivity.
Defined.

(** With a reachable database the count is the first column of the row. *)
Example get_connection_count_reports_sessions :
  let lib := {| Memory_from_config := fun n _ => Ok (sound_handle n);
                py_int := fun _ => Err ValueError;
                psycopg2 := postgres_up 7 |} in
  let w := process (__init__ 10 300 600 3600) [("DATABASE_URL", "postgresql://db")] 0 in
  eval (get_connection_count lib) w = Ret 7 /\
  eval (get_connection_count lib) empty_pool = Ret 0.
Proof. lazy. auto. Qed.

(** ** C10: stopping a reclaimer that was never started *)

(** C10.  [stop_periodic_cleanup] returns normally in every state.  When
    no reclaimer thread was ever started it sets the stop event, joins
    nothing (so it waits for nothing) and logs; a second call returns
    normally too and leaves the manager as the first one did.  In any
    state a call joins at most once, with the timeout of 5. *)
Theorem stop_periodic_cleanup_is_safe (w : world) (exits again : bool) :
  _cleanup_thread (self w) = None ->
  let w' := exec (stop_periodic_cleanup exits) w in
  eval (stop_periodic_cleanup exits) w = Ret tt /\
  trace w' = trace w ++ [Stopped] /\
  join_time [Stopped] = 0 /\
  _stop_cleanup (self w') = true /\
  _cleanup_thread (self w') = None /\
  eval (stop_periodic_cleanup again) w' = Ret tt /\
  self (exec (stop_periodic_cleanup again) w') = self w' /\
  (forall (w0 : world) (b : bool),
     eval (stop_periodic_cleanup b) w0 = Ret tt /\
     exists evs, trace (exec (stop_periodic_cleanup b) w0) = trace w0 ++ evs /\
                 0 <= join_time evs <= 5).
Proof.
  intros Hnone. unfold eval, exec, stop_periodic_cleanup. run. rewrite Hnone. run.
  rewrite Hnone. flat.
  repeat (split; [reflexivity|]).
  intros w0 b. destruct (_cleanup_thread (self w0)) as [t|]; [destruct b|]; run; flat;
    (split; [reflexivity|]); rewrite <- ?app_assoc;
    eexists; (split; [reflexivity|]); simpl; lia.
Qed.

Lemma stop_periodic_cleanup_is_safe_witness :
  eval (stop_periodic_cleanup true) empty_pool = Ret tt /\
  trace (exec (stop_periodic_cleanup true) empty_pool) = [Stopped] /\
  eval (stop_periodic_cleanup true) (exec (stop_periodic_cleanup true) empty_pool) = Ret tt.
Proof.
  destruct (stop_periodic_cleanup_is_safe empty_pool true true)
    as (H1 & H2 & _ & _ & _ & H3 & _).
  - reflexivity.
  - split; [exact H1|]. split; [exact H2|exact H3].
Defined.

(** * Further properties of the code *)

(** ** More on dictionaries *)

Section MoreDictFacts.
Context {V : Type}.
Implicit Types (d : dict V) (k : string) (v : V).

Lemma mem_set_same k v d : mem k (set k v d) = true.
Proof. unfold mem. now rewrite get_set_same. Qed.

Lemma mem_set_other k k' v d : k <> k' -> mem k' (set k v d) = mem k' d.
Proof. intros H. unfold mem. now rewrite get_set_other. Qed.

Lemma mem_del_same k d : mem k (del k d) = false.
Proof. unfold mem. now rewrite get_del_same. Qed.

Lemma mem_del_other k k' d : k <> k' -> mem k' (del k d) = mem k' d.
Proof. intros H. unfold mem. now rewrite get_del_other. Qed.

Lemma keys_set k v d :
  keys (set k v d) = if mem k d then keys d else keys d ++ [k].
Proof.
  unfold mem. induction d as [|[k' v'] r IH]; simpl; auto.
  destruct (String.eqb_spec k k') as [->|Hne]; simpl; auto.
  fold (keys (set k v r)). fold (keys r). rewrite IH.
  destruct (get k r); reflexivity.
Qed.

Lemma NoDup_keys_set k v d : NoDup (keys d) -> NoDup (keys (set k v d)).
Proof.
  intros Hnd. rewrite keys_set. destruct (mem k d) eqn:E; auto.
  apply NoDup_app; auto.
  - repeat constructor. simpl. tauto.
  - intros x Hx [->|[]]. apply mem_false_get in E. apply get_in_keys in Hx. congruence.
Qed.

Lemma in_keys_del k k' d : In k' (keys (del k d)) -> In k' (keys d).
Proof.
  intros H. apply get_in_keys in H. apply get_in_keys.
  destruct (string_dec k k') as [->|Hne].
  - now rewrite get_del_same in H.
  - now rewrite get_del_other in H.
Qed.

Lemma NoDup_keys_del k d : NoDup (keys d) -> NoDup (keys (del k d)).
Proof.
  induction d as [|[k' v'] r IH]; simpl; auto.
  intros Hnd. inversion Hnd as [|? ? Hk Hr]; subst.
  destruct (String.eqb k k'); simpl; auto.
  constructor; auto. intros Hin. apply Hk. now apply (in_keys_del k).
Qed.

End MoreDictFacts.

(** ** Every call is a pool move *)

(** The creating path of [get_client], with where the handle comes from
    and what else changes. *)
Lemma get_client_fresh_built (lib : Library) k w :
  _lock (self w) = false ->
  get k (_clients (self w)) = None ->
  len (_clients (self w)) < max_pool_size (self w) ->
  exists o w',
    get_client lib k w = (o, w') /\
    ticks w' = S (ticks w) /\ clock w' = clock w /\
    ((exists e, o = Raise e /\ self w' = self w /\ trace w' = trace w ++ [Creating k]) \/
     (exists c, o = Ret c /\ built_by lib c /\
        constructed w' = S (constructed w) /\
        self w' = admitted k c (clock w (ticks w)) (self w) /\
        trace w' = trace w ++ [Creating k; Mutated f_clients k true;
                               Mutated f_connection_counts k true;
                               Mutated f_connection_counts k true])).
Proof.
  intros Hfree Habs Hroom. unfold get_client.
  rewrite with_lock_free by exact Hfree. run.
  unfold mem. rewrite Habs. cbn [negb]. run.
  assert (E : (len (_clients (self w)) >=? max_pool_size (self w)) = false)
    by (rewrite Z.geb_leb; apply Z.leb_gt; lia).
  rewrite E. run. unfold _create_client.
  match goal with
  | |- context [get_mem0_client lib ?w0] =>
      destruct (get_mem0_client_run lib w0)
        as [(e & s & _ & _ & w1 & Hrun & H1)|(cfg & vs & w1 & _ & _ & H1 & Hrun)]
  end; rewrite Hrun; destruct H1 as (Hs & Ht & Hclock & Hticks & Hcons & _).
  - do 2 eexists. split; [reflexivity|]. flat. rewrite Hticks, Hclock. flat.
    split; [reflexivity|]. split; [reflexivity|]. left. exists e.
    split; [reflexivity|].
    rewrite Hs, Ht. flat. rewrite unlock_lock by exact Hfree.
    rewrite <- ?app_assoc. auto.
  - flat.
    destruct (Memory_from_config lib (constructed w) cfg) as [c|e] eqn:Hlib;
      cbn [outcome_of].
    + run. rewrite !get_set_same. run. rewrite !get_set_same.
      do 2 eexists. split; [reflexivity|]. flat. rewrite Hticks, Hclock, Hcons. flat.
      split; [reflexivity|]. split; [reflexivity|]. right. exists c.
      split; [reflexivity|]. split; [now exists (constructed w), cfg|].
      split; [reflexivity|]. rewrite Hs, Ht. flat.
      rewrite <- !app_assoc. split; [|reflexivity].
      unfold admitted. same_manager; [|now rewrite Hfree].
      rewrite set_set. reflexivity.
    + do 2 eexists. split; [reflexivity|]. flat. rewrite Hticks, Hclock. flat.
      split; [reflexivity|]. split; [reflexivity|]. left. exists e.
      split; [reflexivity|].
      rewrite Hs, Ht. flat. rewrite unlock_lock by exact Hfree.
      rewrite <- ?app_assoc. auto.
Qed.

Lemma pool_move_sweep P ks m : pool_move P m (sweep ks m).
Proof.
  revert m. induction ks as [|k r IH]; intros m.
  - apply move_none.
  - change (sweep (k :: r) m) with (sweep r (cleaned k m)).
    eapply move_then; [apply move_clean|apply IH].
Qed.

Lemma get_client_moves (lib : Library) k w :
  pool_move (built_by lib) (self w) (self (exec (get_client lib k) w)).
Proof.
  unfold exec. destruct (_lock (self w)) eqn:Hlock.
  { rewrite get_client_held by exact Hlock. apply move_none. }
  destruct (get k (_clients (self w))) as [c|] eqn:Hc.
  - destruct (get k (_connection_counts (self w))) as [n|] eqn:Hn.
    + rewrite (get_client_present lib k w c n Hlock Hc Hn). flat.
      now apply (move_reuse _ _ k c n).
    + rewrite (get_client_orphan lib k w c Hlock Hc Hn). apply move_none.
  - destruct (Z_lt_le_dec (len (_clients (self w))) (max_pool_size (self w))) as [Hroom|Hfull].
    + destruct (get_client_fresh_built lib k w Hlock Hc Hroom)
        as (o & w' & Hrun & _ & _ & Hcase).
      rewrite Hrun. cbn [snd].
      destruct Hcase as [(e & _ & Hs & _)|(c & _ & Hb & _ & Hs & _)]; rewrite Hs.
      * apply move_none.
      * now apply move_admit.
    + rewrite (get_client_full lib k w Hlock Hc Hfull). flat. apply move_lock.
Qed.

Lemma release_client_moves P k w :
  pool_move P (self w) (self (exec (release_client k) w)).
Proof.
  unfold exec. destruct (_lock (self w)) eqn:Hlock.
  { unfold release_client. rewrite with_lock_held by exact Hlock. apply move_none. }
  rewrite (release_client_run k w Hlock).
  destruct (get k (_connection_counts (self w))) as [n|] eqn:Hn; [|apply move_none].
  cbv zeta.
  pose proof (move_release P (with_lock_flag true (self w)) k n Hn) as Hmove.
  destruct (n - 1 <=? 0); flat;
    (eapply move_then; [apply (move_lock _ _ true)|]);
    (eapply move_then; [exact Hmove|apply move_lock]).
Qed.

Lemma cleanup_all_moves P w : pool_move P (self w) (self (exec cleanup_all w)).
Proof.
  unfold exec. destruct (_lock (self w)) eqn:Hlock.
  { unfold cleanup_all.
    rewrite (bind_run _ _ _ _ _ (with_lock_held _ w Hlock)). apply move_none. }
  rewrite (cleanup_all_run w Hlock). flat.
  eapply move_then; [apply (move_lock _ _ true)|].
  eapply move_then; [apply pool_move_sweep|apply move_lock].
Qed.

Lemma _periodic_cleanup_scan_moves (lib : Library) P interval w :
  pool_move P (self w) (self (exec (_periodic_cleanup_scan lib interval) w)).
Proof.
  unfold exec. destruct (_lock (self w)) eqn:Hlock.
  { unfold _periodic_cleanup_scan, try_except, _periodic_cleanup_mark. run.
    rewrite with_lock_held by exact Hlock. apply move_none. }
  destruct (_periodic_cleanup_scan_run lib interval w Hlock)
    as (evs & w' & Hrun & Hself & _).
  rewrite Hrun. cbn [snd]. rewrite Hself. apply pool_move_sweep.
Qed.

Lemma step_moves (lib : Library) o w :
  whole o = true ->
  pool_move (built_by lib) (self w) (self (step lib o w)).
Proof.
  destruct o as [k|k| |interval|interval|exits|k|k]; cbn [step whole];
    try discriminate; intros _.
  - apply get_client_moves.
  - apply release_client_moves.
  - apply cleanup_all_moves.
  - apply _periodic_cleanup_scan_moves.
  - unfold exec, start_periodic_cleanup. run.
    destruct (_cleanup_thread (self w)) as [[]|]; run; flat;
      try apply move_none;
      (eapply move_then; [apply (move_stop _ _ false)|apply move_thread]).
  - unfold exec, stop_periodic_cleanup. run.
    destruct (_cleanup_thread (self w)) as [t|]; [destruct exits|]; run; flat;
      try apply move_stop;
      (eapply move_then; [apply (move_stop _ _ true)|apply move_thread]).
Qed.

Lemma steps_moves (lib : Library) os w :
  forallb whole os = true ->
  pool_move (built_by lib) (self w) (self (steps lib os w)).
Proof.
  revert w. induction os as [|o r IH]; intros w Hos.
  - apply move_none.
  - change (steps lib (o :: r) w) with (steps lib r (step lib o w)).
    cbn [forallb] in Hos. apply andb_prop in Hos. destruct Hos as (Ho & Hr).
    eapply move_then; [exact (step_moves lib o w Ho)|exact (IH _ Hr)].
Qed.

(** ** The maps stay consistent *)

Lemma pool_ok_ext m m' :
  _clients m' = _clients m -> _connection_counts m' = _connection_counts m ->
  _last_used m' = _last_used m -> client_created_time m' = client_created_time m ->
  pool_ok m -> pool_ok m'.
Proof.
  intros H1 H2 H3 H4 [A B C D E F].
  constructor; rewrite ?H1, ?H2, ?H3, ?H4; auto.
Qed.

Lemma pool_ok_init a b c d : pool_ok (__init__ a b c d).
Proof. constructor; simpl; try constructor; auto; discriminate. Qed.

Lemma pool_ok_cleaned k m : pool_ok m -> pool_ok (cleaned k m).
Proof.
  intros Hok. unfold cleaned.
  destruct (get k (_clients m)) as [c|] eqn:Hc; auto.
  destruct (closes_cleanly c); auto.
  destruct Hok as [A B C D E F]. constructor; flat; auto using NoDup_keys_del.
  - intros k'. destruct (string_dec k k') as [->|Hne].
    + now rewrite !mem_del_same.
    + rewrite !mem_del_other by exact Hne. apply E.
  - intros k'. destruct (string_dec k k') as [->|Hne].
    + now rewrite mem_del_same.
    + rewrite mem_del_other by exact Hne. apply F.
Qed.

Lemma pool_ok_count k v m :
  mem k (_connection_counts m) = true ->
  pool_ok m -> pool_ok (with_connection_counts (set k v) m).
Proof.
  intros Hk [A B C D E F]. constructor; flat; auto using NoDup_keys_set.
  intros k'. destruct (string_dec k k') as [->|Hne].
  - rewrite mem_set_same. rewrite <- E. now rewrite Hk.
  - rewrite mem_set_other by exact Hne. apply E.
Qed.

Lemma pool_ok_move P m m' : pool_move P m m' -> pool_ok m -> pool_ok m'.
Proof.
  induction 1 as [m|m b|m t|m b|m k c n now Hc Hn|m k c now Hc Hp|m k n Hn|m k| ]; intros Hok;
    auto.
  - now apply (pool_ok_ext m).
  - now apply (pool_ok_ext m).
  - now apply (pool_ok_ext m).
  - destruct Hok as [A B C D E F]. unfold reused. constructor; flat; auto using NoDup_keys_set.
    + intros k'. destruct (string_dec k k') as [->|Hne].
      * rewrite mem_set_same. unfold mem. now rewrite Hc.
      * rewrite mem_set_other by exact Hne. apply E.
    + intros k' Hk'. destruct (F k' Hk'). split; auto. now apply mem_set.
  - destruct Hok as [A B C D E F]. unfold admitted. constructor; flat;
      auto using NoDup_keys_set.
    + intros k'. destruct (string_dec k k') as [->|Hne].
      * now rewrite !mem_set_same.
      * rewrite !mem_set_other by exact Hne. apply E.
    + intros k'. destruct (string_dec k k') as [->|Hne].
      * now rewrite !mem_set_same.
      * rewrite !mem_set_other by exact Hne. apply F.
  - assert (Hk : mem k (_connection_counts m) = true) by (unfold mem; now rewrite Hn).
    destruct (n - 1 <=? 0).
    + apply pool_ok_cleaned. now apply pool_ok_count.
    + now apply pool_ok_count.
  - now apply pool_ok_cleaned.
Qed.

Lemma begun_lock k m : _lock (begun k m) = _lock m.
Proof. unfold begun. now destruct (begins k m). Qed.

(** X1.  As long as no call falls inside an eviction of the reclaimer,
    the pool keeps its four maps consistent: through every sequence of
    whole calls and whole scans no map holds a key twice,
    [_connection_counts] has exactly the keys of [_clients], and every
    key of [_clients] has a last-used and a creation time.  The lock does
    not protect an eviction: when a [get_client] of the evicted key runs
    between its two [del] statements, the new entry loses its refcount,
    the maps disagree, and the next [get_client] of the key raises
    [KeyError]. *)
Theorem pool_maps_stay_consistent (lib : Library) :
  (forall (os : list op) (w : world),
     forallb whole os = true ->
     pool_ok (self w) -> pool_ok (self (steps lib os w))) /\
  (forall (k : string) (w : world) (c c' : Memory),
     _lock (self w) = false ->
     get k (_clients (self w)) = Some c ->
     closes_cleanly c = true ->
     eval (get_client lib k) (step lib (EvictBegin k) w) = Ret c' ->
     let w' := steps lib [EvictBegin k; Acquire k; EvictEnd k] w in
     get k (_clients (self w')) = Some c' /\
     get k (_connection_counts (self w')) = None /\
     ~ pool_ok (self w') /\
     eval (get_client lib k) w' = Raise (KeyError k)).
Proof.
  split.
  - intros os w Hos Hok. exact (pool_ok_move _ _ _ (steps_moves lib os w Hos) Hok).
  - intros k w c c' Hfree Hc Hclean Hret.
    change (steps lib [EvictBegin k; Acquire k; EvictEnd k] w)
      with (exec (_cleanup_client_end k)
              (exec (get_client lib k) (exec (_cleanup_client_begin k) w))).
    change (step lib (EvictBegin k) w) with (exec (_cleanup_client_begin k) w) in Hret.
    destruct (_cleanup_client_begin_run k w) as (evs1 & Hrun1).
    cbv zeta. unfold exec in *. rewrite Hrun1 in *. cbn [snd] in *.
    set (w1 := after (begun k (self w)) evs1 w) in *.
    assert (Hself1 : self w1 = with_clients (del k) (self w))
      by (unfold w1, begun, begins; flat; now rewrite Hc, Hclean).
    assert (Hfree1 : _lock (self w1) = false) by (rewrite Hself1; exact Hfree).
    assert (Habs1 : get k (_clients (self w1)) = None)
      by (rewrite Hself1; flat; apply get_del_same).
    unfold eval in Hret.
    destruct (Z_lt_le_dec (len (_clients (self w1))) (max_pool_size (self w1)))
      as [Hroom|Hfull].
    2:{ rewrite (get_client_full lib k w1 Hfree1 Habs1 Hfull) in Hret. discriminate. }
    destruct (get_client_fresh lib k w1 Hfree1 Habs1 Hroom) as (o & w2 & Hrun2 & Hcase).
    rewrite Hrun2 in Hret. cbn [fst] in Hret.
    destruct Hcase as [(e & -> & _)|(c2 & -> & Hself2 & _)]; [discriminate|].
    injection Hret as ->.
    rewrite Hrun2. cbn [snd].
    destruct (_cleanup_client_end_run k w2) as (evs3 & Hrun3).
    rewrite Hrun3. cbn [snd].
    set (w3 := after (ended k (self w2)) evs3 w2).
    assert (Hc3 : get k (_clients (self w3)) = Some c')
      by (unfold w3, ended; flat; rewrite Hself2; unfold admitted; flat;
          apply get_set_same).
    assert (Hn3 : get k (_connection_counts (self w3)) = None)
      by (unfold w3, ended; flat; apply get_del_same).
    assert (Hfree3 : _lock (self w3) = false)
      by (unfold w3, ended; flat; rewrite Hself2; unfold admitted; flat; exact Hfree1).
    split; [exact Hc3|]. split; [exact Hn3|]. split.
    + intros Hok. pose proof (ok_same _ Hok k) as Hsame. unfold mem in Hsame.
      rewrite Hc3, Hn3 in Hsame. discriminate.
    + unfold eval. now rewrite (get_client_orphan lib k w3 c' Hfree3 Hc3 Hn3).
Qed.

Lemma pool_maps_stay_consistent_witness :
  let lib := lenient_library sound_handle in
  pool_ok (self (steps lib
                   [Acquire "a"; Acquire "b"; Release "a"; Scan 60; Acquire "c"; EvictAll]
                   empty_pool)) /\
  eval (get_client lib "a")
       (steps lib [EvictBegin "a"; Acquire "a"; EvictEnd "a"] two_clients)
  = Raise (KeyError "a").
Proof.
  intros lib. split.
  - apply (proj1 (pool_maps_stay_consistent lib)).
    + reflexivity.
    + apply pool_ok_init.
  - apply (proj2 (pool_maps_stay_consistent lib) "a" two_clients
             (sound_handle 0) (sound_handle 2)).
    + reflexivity.
    + reflexivity.
    + reflexivity.
    + vm_compute. reflexivity.
Defined.

(** ** Refcounts of a pool whose handles close cleanly *)

Lemma all_held_cleaned k m : pool_ok m -> all_held m -> all_held (cleaned k m).
Proof.
  intros Hok [Hclean Hpos]. unfold cleaned.
  destruct (get k (_clients m)) as [c|] eqn:Hc; [|now split].
  destruct (closes_cleanly c); [|now split].
  split; flat.
  - intros k' c'. destruct (string_dec k k') as [->|Hne].
    + now rewrite get_del_same.
    + rewrite get_del_other by exact Hne. apply Hclean.
  - intros k' n'. destruct (string_dec k k') as [->|Hne].
    + now rewrite get_del_same.
    + rewrite get_del_other by exact Hne. apply Hpos.
Qed.

Lemma all_held_move P m m' :
  (forall c, P c -> closes_cleanly c = true) ->
  pool_move P m m' -> pool_ok m -> all_held m -> all_held m'.
Proof.
  intros HP.
  induction 1 as [m|m b|m t|m b|m k c n now Hc Hn|m k c now Hc Hp|m k n Hn|m k
                  |m1 m2 m3 H12 IH12 H23 IH23];
    intros Hok Hheld; auto.
  - destruct Hheld as [Hclean Hpos]. unfold reused. split; flat; auto.
    intros k' n'. destruct (string_dec k k') as [->|Hne].
    + rewrite get_set_same. intros [= <-]. specialize (Hpos _ _ Hn). lia.
    + rewrite get_set_other by exact Hne. apply Hpos.
  - destruct Hheld as [Hclean Hpos]. unfold admitted. split; flat.
    + intros k' c'. destruct (string_dec k k') as [->|Hne].
      * rewrite get_set_same. intros [= <-]. now apply HP.
      * rewrite get_set_other by exact Hne. apply Hclean.
    + intros k' n'. destruct (string_dec k k') as [->|Hne].
      * rewrite get_set_same. intros [= <-]. lia.
      * rewrite get_set_other by exact Hne. apply Hpos.
  - destruct Hheld as [Hclean Hpos].
    assert (Hk : mem k (_connection_counts m) = true) by (unfold mem; now rewrite Hn).
    destruct (n - 1 <=? 0) eqn:Hle.
    + unfold cleaned. flat.
      assert (Hmem : mem k (_clients m) = true) by (rewrite <- (ok_same m Hok); exact Hk).
      unfold mem in Hmem. destruct (get k (_clients m)) as [c|] eqn:Hc; [|discriminate].
      rewrite (Hclean k c Hc). split; flat.
      * intros k' c'. destruct (string_dec k k') as [->|Hne].
        -- now rewrite get_del_same.
        -- rewrite get_del_other by exact Hne. apply Hclean.
      * intros k' n'. rewrite del_set. destruct (string_dec k k') as [->|Hne].
        -- now rewrite get_del_same.
        -- rewrite get_del_other by exact Hne. apply Hpos.
    + apply Z.leb_gt in Hle. split; flat; auto.
      intros k' n'. destruct (string_dec k k') as [->|Hne].
      * rewrite get_set_same. intros [= <-]. lia.
      * rewrite get_set_other by exact Hne. apply Hpos.
  - now apply all_held_cleaned.
  - apply IH23; [now apply (pool_ok_move P m1)|now apply IH12].
Qed.

(** X2.  With a mem0 whose handles close without raising, and as long as
    no call falls inside an eviction of the reclaimer, every entry of the
    pool keeps a refcount of at least 1: through every sequence of whole
    calls and whole scans, an entry whose refcount reaches 0 is removed
    in the same call. *)
Theorem refcounts_stay_positive (lib : Library) (os : list op) (w : world) :
  clean_library lib ->
  forallb whole os = true ->
  pool_ok (self w) ->
  all_held (self w) ->
  all_held (self (steps lib os w)).
Proof.
  intros Hlib Hos Hok Hheld.
  exact (all_held_move _ _ _ Hlib (steps_moves lib os w Hos) Hok Hheld).
Qed.

Lemma refcounts_stay_positive_witness :
  all_held (self (steps (lenient_library sound_handle)
                    [Acquire "a"; Acquire "a"; Release "a"; Acquire "b"; Release "b"]
                    empty_pool)).
Proof.
  apply (refcounts_stay_positive (lenient_library sound_handle)).
  - intros c (n & cfg & H). injection H as <-. reflexivity.
  - reflexivity.
  - apply pool_ok_init.
  - split; intros k x H; discriminate H.
Defined.

(** ** The two paths of [get_client] *)

(** X3.  Acquiring a key that is in the pool returns the stored handle,
    adds 1 to its refcount and sets its last-used time to the clock
    reading.  The factory is not called, the environment, the client map
    and the creation times stay as they are, and the size of the pool
    plays no part. *)
Theorem get_client_reuses_entry
  (lib : Library) (k : string) (w : world) (c : Memory) (n : Z) :
  _lock (self w) = false ->
  get k (_clients (self w)) = Some c ->
  get k (_connection_counts (self w)) = Some n ->
  let w' := exec (get_client lib k) w in
  eval (get_client lib k) w = Ret c /\
  get k (_connection_counts (self w')) = Some (n + 1) /\
  get k (_last_used (self w')) = Some (clock w (ticks w)) /\
  _clients (self w') = _clients (self w) /\
  client_created_time (self w') = client_created_time (self w) /\
  constructed w' = constructed w /\
  environ w' = environ w /\
  _lock (self w') = false /\
  (forall k', k' <> k ->
     get k' (_connection_counts (self w')) = get k' (_connection_counts (self w)) /\
     get k' (_last_used (self w')) = get k' (_last_used (self w))).
Proof.
  intros Hfree Hc Hn. unfold eval, exec.
  rewrite (get_client_present lib k w c n Hfree Hc Hn). unfold reused. flat.
  rewrite !get_set_same.
  split; [reflexivity|]. split; [reflexivity|]. split; [reflexivity|].
  split; [reflexivity|]. split; [reflexivity|]. split; [reflexivity|].
  split; [reflexivity|]. split; [exact Hfree|].
  intros k' Hne. split; apply get_set_other; congruence.
Qed.

Lemma get_client_reuses_entry_witness :
  let w' := exec (get_client (lenient_library sound_handle) "a") two_clients in
  eval (get_client (lenient_library sound_handle) "a") two_clients = Ret (sound_handle 0) /\
  get "a" (_connection_counts (self w')) = Some 2 /\
  constructed w' = constructed two_clients.
Proof.
  intros w'.
  destruct (get_client_reuses_entry (lenient_library sound_handle) "a" two_clients
              (sound_handle 0) 1) as (H1 & H2 & _ & _ & _ & H3 & _).
  - reflexivity.
  - reflexivity.
  - reflexivity.
  - split; [exact H1|]. split; [exact H2|exact H3].
Defined.

(** ** Acquires and releases in balance *)

Lemma steps_app (lib : Library) a b w :
  steps lib (a ++ b) w = steps lib b (steps lib a w).
Proof. unfold steps. apply fold_left_app. Qed.

Lemma acquire_many (lib : Library) k c i :
  forall w j,
    _lock (self w) = false ->
    get k (_clients (self w)) = Some c ->
    get k (_connection_counts (self w)) = Some j ->
    let w' := steps lib (repeat (Acquire k) i) w in
    _lock (self w') = false /\
    get k (_clients (self w')) = Some c /\
    get k (_connection_counts (self w')) = Some (j + Z.of_nat i).
Proof.
  induction i as [|i IH]; intros w j Hfree Hc Hn.
  - cbn [repeat steps fold_left]. rewrite Z.add_0_r. auto.
  - change (steps lib (repeat (Acquire k) (S i)) w)
      with (steps lib (repeat (Acquire k) i) (exec (get_client lib k) w)).
    assert (Hself : self (exec (get_client lib k) w) = reused k j (clock w (ticks w)) (self w))
      by (unfold exec; now rewrite (get_client_present lib k w c j Hfree Hc Hn)).
    assert (Hfree' : _lock (self (exec (get_client lib k) w)) = false)
      by (rewrite Hself; exact Hfree).
    assert (Hc' : get k (_clients (self (exec (get_client lib k) w))) = Some c)
      by (rewrite Hself; exact Hc).
    assert (Hn' : get k (_connection_counts (self (exec (get_client lib k) w))) = Some (j + 1))
      by (rewrite Hself; unfold reused; flat; apply get_set_same).
    destruct (IH _ _ Hfree' Hc' Hn') as (H1 & H2 & H3).
    split; [exact H1|]. split; [exact H2|].
    rewrite H3. f_equal. lia.
Qed.

Lemma release_absent_many (lib : Library) k i :
  forall w,
    _lock (self w) = false ->
    get k (_connection_counts (self w)) = None ->
    steps lib (repeat (Release k) i) w = w.
Proof.
  induction i as [|i IH]; intros w Hfree Hn; auto.
  change (steps lib (repeat (Release k) (S i)) w)
    with (steps lib (repeat (Release k) i) (exec (release_client k) w)).
  assert (E : exec (release_client k) w = w)
    by (unfold exec; rewrite (release_client_run k w Hfree), Hn; reflexivity).
  rewrite E. now apply IH.
Qed.

Lemma release_many (lib : Library) k c i :
  forall w j,
    _lock (self w) = false ->
    get k (_clients (self w)) = Some c ->
    closes_cleanly c = true ->
    get k (_connection_counts (self w)) = Some j ->
    1 <= j ->
    let w' := steps lib (repeat (Release k) i) w in
    if Z.of_nat i <? j
    then get k (_clients (self w')) = Some c /\
         get k (_connection_counts (self w')) = Some (j - Z.of_nat i)
    else get k (_clients (self w')) = None /\
         get k (_connection_counts (self w')) = None.
Proof.
  induction i as [|i IH]; intros w j Hfree Hc Hclean Hn Hj.
  - cbn [repeat steps fold_left Z.of_nat].
    destruct (0 <? j) eqn:E; [|apply Z.ltb_ge in E; lia].
    rewrite Z.sub_0_r. auto.
  - change (steps lib (repeat (Release k) (S i)) w)
      with (steps lib (repeat (Release k) i) (exec (release_client k) w)).
    pose proof (release_client_run k w Hfree) as Hrel.
    rewrite Hn in Hrel. cbv zeta in Hrel.
    destruct (j - 1 <=? 0) eqn:Hle.
    + apply Z.leb_le in Hle.
      assert (Hself : self (exec (release_client k) w)
                      = with_lock_flag false
                          (with_connection_counts (del k)
                             (with_clients (del k)
                                (with_connection_counts (set k (j - 1))
                                   (with_lock_flag true (self w))))))
        by (unfold exec; rewrite Hrel; flat; unfold cleaned; flat;
            rewrite Hc, Hclean; reflexivity).
      assert (Hfree' : _lock (self (exec (release_client k) w)) = false)
        by (rewrite Hself; reflexivity).
      assert (Hc' : get k (_clients (self (exec (release_client k) w))) = None)
        by (rewrite Hself; flat; apply get_del_same).
      assert (Hn' : get k (_connection_counts (self (exec (release_client k) w))) = None)
        by (rewrite Hself; flat; apply get_del_same).
      rewrite (release_absent_many lib k i _ Hfree' Hn').
      destruct (Z.of_nat (S i) <? j) eqn:E; [apply Z.ltb_lt in E; lia|]. auto.
    + apply Z.leb_gt in Hle.
      assert (Hself : self (exec (release_client k) w)
                      = with_lock_flag false
                          (with_connection_counts (set k (j - 1))
                             (with_lock_flag true (self w))))
        by (unfold exec; now rewrite Hrel).
      assert (Hfree' : _lock (self (exec (release_client k) w)) = false)
        by (rewrite Hself; reflexivity).
      assert (Hc' : get k (_clients (self (exec (release_client k) w))) = Some c)
        by (rewrite Hself; exact Hc).
      assert (Hn' : get k (_connection_counts (self (exec (release_client k) w)))
                    = Some (j - 1))
        by (rewrite Hself; flat; apply get_set_same).
      specialize (IH _ (j - 1) Hfree' Hc' Hclean Hn' ltac:(lia)). cbv zeta in IH.
      replace (Z.of_nat (S i) <? j) with (Z.of_nat i <? j - 1)
        by (destruct (Z.of_nat i <? j - 1) eqn:E1; destruct (Z.of_nat (S i) <? j) eqn:E2;
            auto; rewrite ?Z.ltb_lt, ?Z.ltb_ge in *; lia).
      destruct (Z.of_nat i <? j - 1); [|exact IH].
      destruct IH as (H1 & H2). split; [exact H1|]. rewrite H2. f_equal. lia.
Qed.

(** X5.  A key acquired [n] times (the first acquire creating a handle
    that closes cleanly) and then released [m] times: while [m < n] the
    entry is in the pool with refcount [n - m]; from the [n]-th release
    on it is gone from the client map and the refcount map. *)
Theorem balanced_releases_empty_the_entry
  (lib : Library) (k : string) (w : world) (c : Memory) (n m : nat) :
  _lock (self w) = false ->
  get k (_clients (self w)) = None ->
  len (_clients (self w)) < max_pool_size (self w) ->
  eval (get_client lib k) w = Ret c ->
  closes_cleanly c = true ->
  let w' := steps lib (repeat (Acquire k) (S n) ++ repeat (Release k) m) w in
  if Z.of_nat m <? Z.of_nat (S n)
  then get k (_clients (self w')) = Some c /\
       get k (_connection_counts (self w')) = Some (Z.of_nat (S n) - Z.of_nat m)
  else get k (_clients (self w')) = None /\
       get k (_connection_counts (self w')) = None.
Proof.
  intros Hfree Habs Hroom Hret Hclean.
  destruct (get_client_fresh_built lib k w Hfree Habs Hroom)
    as (o & w1 & Hrun & _ & _ & Hcase).
  unfold eval in Hret. rewrite Hrun in Hret. cbn [fst] in Hret.
  destruct Hcase as [(e & -> & _)|(c' & -> & _ & _ & Hs & _)]; [discriminate|].
  injection Hret as ->.
  assert (Hw1 : exec (get_client lib k) w = w1) by (unfold exec; now rewrite Hrun).
  assert (Hfree1 : _lock (self (exec (get_client lib k) w)) = false)
    by (rewrite Hw1, Hs; exact Hfree).
  assert (Hc1 : get k (_clients (self (exec (get_client lib k) w))) = Some c)
    by (rewrite Hw1, Hs; unfold admitted; flat; apply get_set_same).
  assert (Hn1 : get k (_connection_counts (self (exec (get_client lib k) w))) = Some 1)
    by (rewrite Hw1, Hs; unfold admitted; flat; apply get_set_same).
  cbv zeta. rewrite steps_app.
  change (steps lib (repeat (Acquire k) (S n)) w)
    with (steps lib (repeat (Acquire k) n) (exec (get_client lib k) w)).
  destruct (acquire_many lib k c n _ 1 Hfree1 Hc1 Hn1) as (Hfree2 & Hc2 & Hn2).
  replace (1 + Z.of_nat n) with (Z.of_nat (S n)) in Hn2 by lia.
  apply (release_many lib k c m _ _ Hfree2 Hc2 Hclean Hn2). lia.
Qed.

Lemma balanced_releases_empty_the_entry_witness :
  let lib := lenient_library sound_handle in
  get "a" (_connection_counts
             (self (steps lib (repeat (Acquire "a") 3 ++ repeat (Release "a") 2) empty_pool)))
  = Some 1 /\
  get "a" (_clients
             (self (steps lib (repeat (Acquire "a") 3 ++ repeat (Release "a") 3) empty_pool)))
  = None.
Proof.
  intros lib.
  assert (H2 := balanced_releases_empty_the_entry lib "a" empty_pool (sound_handle 0) 2 2
                  eq_refl eq_refl eq_refl eq_refl eq_refl).
  assert (H3 := balanced_releases_empty_the_entry lib "a" empty_pool (sound_handle 0) 2 3
                  eq_refl eq_refl eq_refl eq_refl eq_refl).
  split; [exact (proj2 H2)|exact (proj1 H3)].
Defined.

(** ** [managed_mem0_client] *)

Lemma try_finally_run {A} (body : M A) (cleanup : M unit) w o w1 w2 :
  body w = (o, w1) -> o <> Block -> cleanup w1 = (Ret tt, w2) ->
  try_finally body cleanup w = (o, w2).
Proof.
  intros Hb Ho Hc. unfold try_finally. rewrite Hb.
  destruct o; try congruence; now rewrite Hc.
Qed.

(** X6.  A [with managed_mem0_client(k)] block on a key that is in the
    pool with refcount [n >= 1]: the block gets the stored handle, its
    result or its exception is that of the whole statement, and on the
    way out the refcount is [n] again, also when the block raises; the
    entry stays in the pool. *)
Theorem managed_block_restores_refcount
  {A} (lib : Library) (k : string) (body : Memory -> M A) (w : world) (c : Memory) (n : Z) :
  _lock (self w) = false ->
  get k (_clients (self w)) = Some c ->
  get k (_connection_counts (self w)) = Some n ->
  1 <= n ->
  leaves_pool_alone (body c) ->
  let w' := exec (managed_mem0_client lib k body) w in
  eval (managed_mem0_client lib k body) w = eval (body c) (exec (get_client lib k) w) /\
  get k (_connection_counts (self w')) = Some n /\
  _clients (self w') = _clients (self w) /\
  _lock (self w') = false.
Proof.
  intros Hfree Hc Hn Hpos Hbody.
  pose proof (get_client_present lib k w c n Hfree Hc Hn) as Hget.
  unfold eval, exec, managed_mem0_client. rewrite (bind_run _ _ _ _ _ Hget).
  rewrite Hget. cbn [snd].
  set (w1 := after (reused k n (clock w (ticks w)) (self w))
                   [Mutated f_connection_counts k true] (tick w)) in *.
  destruct (Hbody w1) as (Hnb & Hself). unfold eval, exec in Hnb, Hself.
  destruct (body c w1) as [o w2] eqn:Hrun. cbn [fst snd] in *.
  assert (Hfree2 : _lock (self w2) = false) by (rewrite Hself; exact Hfree).
  assert (Hn2 : get k (_connection_counts (self w2)) = Some (n + 1))
    by (rewrite Hself; unfold w1, reused; flat; apply get_set_same).
  pose proof (release_client_run k w2 Hfree2) as Hrel. rewrite Hn2 in Hrel.
  cbv zeta in Hrel.
  assert (Hle : (n + 1 - 1 <=? 0) = false) by (apply Z.leb_gt; lia).
  rewrite Hle in Hrel.
  rewrite (try_finally_run _ _ _ _ _ _ Hrun Hnb Hrel). flat.
  split; [reflexivity|]. rewrite Hself. unfold w1, reused. flat.
  split; [rewrite get_set_same; f_equal; lia|]. auto.
Qed.

Lemma managed_block_restores_refcount_witness :
  let lib := lenient_library sound_handle in
  let body := fun _ : Memory => (raise ValueError : M unit) in
  eval (managed_mem0_client lib "a" body) two_clients = Raise ValueError /\
  get "a" (_connection_counts (self (exec (managed_mem0_client lib "a" body) two_clients)))
  = Some 1.
Proof.
  intros lib body.
  destruct (managed_block_restores_refcount lib "a" body two_clients (sound_handle 0) 1)
    as (H1 & H2 & _).
  - reflexivity.
  - reflexivity.
  - reflexivity.
  - lia.
  - intros w. split; [discriminate|reflexivity].
  - split; [exact H1|exact H2].
Defined.

(** X7.  A [with managed_mem0_client(k)] block on a key that is not in a
    pool with room, when the factory returns a handle that closes
    cleanly: the block runs with the new handle, and on the way out, also
    when the block raises, the entry is torn down: the key is in neither
    the client map nor the refcount map, and the lock is free. *)
Theorem managed_block_removes_its_entry
  {A} (lib : Library) (k : string) (body : Memory -> M A) (w : world) (c : Memory) :
  _lock (self w) = false ->
  get k (_clients (self w)) = None ->
  len (_clients (self w)) < max_pool_size (self w) ->
  eval (get_client lib k) w = Ret c ->
  closes_cleanly c = true ->
  leaves_pool_alone (body c) ->
  let w' := exec (managed_mem0_client lib k body) w in
  eval (managed_mem0_client lib k body) w = eval (body c) (exec (get_client lib k) w) /\
  get k (_clients (self w')) = None /\
  get k (_connection_counts (self w')) = None /\
  _lock (self w') = false.
Proof.
  intros Hfree Habs Hroom Hret Hclean Hbody.
  destruct (get_client_fresh_built lib k w Hfree Habs Hroom)
    as (o & w1 & Hget & _ & _ & Hcase).
  unfold eval in Hret. rewrite Hget in Hret. cbn [fst] in Hret.
  destruct Hcase as [(e & -> & _)|(c' & -> & _ & _ & Hs & Ht)]; [discriminate|].
  injection Hret as ->.
  unfold eval, exec, managed_mem0_client. rewrite (bind_run _ _ _ _ _ Hget).
  rewrite Hget. cbn [snd].
  destruct (Hbody w1) as (Hnb & Hself). unfold eval, exec in Hnb, Hself.
  destruct (body c w1) as [o w2] eqn:Hrun. cbn [fst snd] in *.
  assert (Hfree2 : _lock (self w2) = false) by (rewrite Hself, Hs; exact Hfree).
  assert (Hn2 : get k (_connection_counts (self w2)) = Some 1)
    by (rewrite Hself, Hs; unfold admitted; flat; apply get_set_same).
  assert (Hc2 : get k (_clients (self w2)) = Some c)
    by (rewrite Hself, Hs; unfold admitted; flat; apply get_set_same).
  pose proof (release_client_run k w2 Hfree2) as Hrel. rewrite Hn2 in Hrel.
  cbv zeta in Hrel. change (1 - 1 <=? 0) with true in Hrel. cbv iota in Hrel.
  rewrite (try_finally_run _ _ _ _ _ _ Hrun Hnb Hrel). flat.
  split; [reflexivity|].
  unfold cleaned. flat. rewrite Hc2, Hclean. flat. rewrite !get_del_same.
  split; [reflexivity|]. split; reflexivity.
Qed.

Lemma managed_block_removes_its_entry_witness :
  let lib := lenient_library sound_handle in
  let body := fun _ : Memory => (raise ValueError : M unit) in
  eval (managed_mem0_client lib "a" body) empty_pool = Raise ValueError /\
  get "a" (_clients (self (exec (managed_mem0_client lib "a" body) empty_pool))) = None /\
  get "a" (_connection_counts (self (exec (managed_mem0_client lib "a" body) empty_pool)))
  = None.
Proof.
  intros lib body.
  destruct (managed_block_removes_its_entry lib "a" body empty_pool (sound_handle 0))
    as (H1 & H2 & H3 & _).
  - reflexivity.
  - reflexivity.
  - lazy. reflexivity.
  - lazy. reflexivity.
  - reflexivity.
  - intros w. split; [discriminate|reflexivity].
  - split; [exact H1|]. split; [exact H2|exact H3].
Defined.

(** ** Starting and stopping the reclaimer *)

(** X8.  [start_periodic_cleanup] always returns and leaves a live
    reclaimer thread.  When one is alive already it changes nothing, so a
    second call is a no-op whatever interval it is given.  Otherwise it
    clears the stop event and starts a thread with the given interval,
    where an interval of 0, like no interval, means [cleanup_interval]. *)
Theorem start_periodic_cleanup_starts_once (w : world) (i j : option Z) :
  let w1 := exec (start_periodic_cleanup i) w in
  eval (start_periodic_cleanup i) w = Ret tt /\
  _cleanup_thread (self w1) = Some Alive /\
  exec (start_periodic_cleanup j) w1 = w1 /\
  exec (start_periodic_cleanup (Some 0)) w = exec (start_periodic_cleanup None) w /\
  (_cleanup_thread (self w) = Some Alive -> w1 = w) /\
  (_cleanup_thread (self w) <> Some Alive ->
   _stop_cleanup (self w1) = false /\
   trace w1 =
   trace w ++ [Started match i with
                       | Some x => if x =? 0 then cleanup_interval (self w) else x
                       | None => cleanup_interval (self w)
                       end]).
Proof.
  unfold eval, exec, start_periodic_cleanup. run.
  destruct (_cleanup_thread (self w)) as [[]|] eqn:Ht; run; flat; rewrite ?Ht;
    (split; [reflexivity|]); (split; [reflexivity|]); (split; [reflexivity|]);
    (split; [reflexivity|]); split; try congruence; auto.
Qed.

(** X9.  A reclaimer that was asked to stop but did not end within the
    join timeout is still alive, so a following [start_periodic_cleanup]
    does nothing: the stop event stays set and no new thread is started. *)
Theorem restart_is_ignored_while_old_thread_lives (w : world) (i : option Z) :
  _cleanup_thread (self w) = Some Alive ->
  let w1 := exec (stop_periodic_cleanup false) w in
  let w2 := exec (start_periodic_cleanup i) w1 in
  eval (stop_periodic_cleanup false) w = Ret tt /\
  trace w1 = trace w ++ [Joined 5; Stopped] /\
  w2 = w1 /\
  _stop_cleanup (self w2) = true /\
  _cleanup_thread (self w2) = Some Alive.
Proof.
  intros Ht. unfold eval, exec, stop_periodic_cleanup, start_periodic_cleanup.
  do 3 (run; flat; rewrite ?Ht). rewrite <- app_assoc.
  split; [reflexivity|]. split; [reflexivity|]. split; [reflexivity|].
  split; reflexivity.
Qed.

Lemma restart_is_ignored_while_old_thread_lives_witness :
  let w := exec (start_periodic_cleanup (Some 300)) empty_pool in
  let w2 := exec (start_periodic_cleanup None) (exec (stop_periodic_cleanup false) w) in
  _stop_cleanup (self w2) = true /\ _cleanup_thread (self w2) = Some Alive.
Proof.
  intros w w2.
  destruct (restart_is_ignored_while_old_thread_lives w None) as (_ & _ & _ & H1 & H2).
  - reflexivity.
  - split; [exact H1|exact H2].
Defined.

(** ** The loop of the reclaimer *)

Lemma cleaned_stop k m : _stop_cleanup (cleaned k m) = _stop_cleanup m.
Proof.
  unfold cleaned. destruct (get k (_clients m)) as [c|]; auto.
  destruct (closes_cleanly c); auto.
Qed.

Lemma sweep_stop ks m : _stop_cleanup (sweep ks m) = _stop_cleanup m.
Proof.
  revert m. induction ks as [|k r IH]; intros m; simpl; auto.
  unfold sweep in *. simpl. rewrite IH. apply cleaned_stop.
Qed.

(** X10.  The reclaimer loop runs one scan at each wake-up for as long as
    the stop event is not set, whatever the scans meet: a teardown that
    raises does not end the loop.  When the stop event is set it runs no
    scan and leaves the process as it is. *)
Theorem _periodic_cleanup_scans_until_stopped
  (lib : Library) (interval : Z) (wakes : nat) (w : world) :
  _lock (self w) = false ->
  let w' := exec (_periodic_cleanup lib interval wakes) w in
  eval (_periodic_cleanup lib interval wakes) w = Ret tt /\
  (_stop_cleanup (self w) = true -> w' = w) /\
  (_stop_cleanup (self w) = false ->
   w' = steps lib (repeat (Scan interval) wakes) w).
Proof.
  revert w. induction wakes as [|n IH]; intros w Hfree.
  - cbn. auto.
  - unfold eval, exec. cbn [_periodic_cleanup]. run.
    destruct (_stop_cleanup (self w)) eqn:Hstop.
    + split; [reflexivity|]. split; [reflexivity|discriminate].
    + destruct (_periodic_cleanup_scan_run lib interval w Hfree)
        as (evs & w1 & Hrun & Hself & _).
      rewrite Hrun.
      assert (Hfree1 : _lock (self w1) = false) by (rewrite Hself, sweep_lock; exact Hfree).
      assert (Hstop1 : _stop_cleanup (self w1) = false)
        by (rewrite Hself, sweep_stop; exact Hstop).
      destruct (IH w1 Hfree1) as (Hret & _ & Hsteps). unfold eval, exec in Hret, Hsteps.
      split; [exact Hret|]. split; [discriminate|]. intros _.
      rewrite (Hsteps Hstop1).
      change (steps lib (repeat (Scan interval) (S n)) w)
        with (steps lib (repeat (Scan interval) n)
                (exec (_periodic_cleanup_scan lib interval) w)).
      unfold exec. now rewrite Hrun.
Qed.

Lemma _periodic_cleanup_scans_until_stopped_witness :
  let lib := lenient_library faulty_handle in
  let w := at_time 200 one_faulty_client in
  eval (_periodic_cleanup lib 1 3) w = Ret tt /\
  exec (_periodic_cleanup lib 1 3) w = steps lib [Scan 1; Scan 1; Scan 1] w.
Proof.
  intros lib w.
  destruct (_periodic_cleanup_scans_until_stopped lib 1 3 w) as (H1 & _ & H2).
  - reflexivity.
  - split; [exact H1|]. apply H2. reflexivity.
Defined.

(** ** What a scan leaves alone *)

Lemma get_of_in (d : dict Z) k v : NoDup (keys d) -> In (k, v) d -> get k d = Some v.
Proof.
  induction d as [|[k' v'] r IH]; simpl; [tauto|].
  intros Hnd [H|H].
  - injection H as -> ->. now rewrite String.eqb_refl.
  - inversion Hnd as [|? ? Hk Hr]; subst.
    destruct (String.eqb_spec k k') as [->|Hne]; [|auto].
    exfalso. apply Hk. change k' with (fst (k', v)). now apply in_map.
Qed.

Lemma sweep_counts_untouched ks k m :
  ~ In k ks -> get k (_connection_counts (sweep ks m)) = get k (_connection_counts m).
Proof.
  revert m. induction ks as [|k0 r IH]; intros m Hin; auto.
  change (sweep (k0 :: r) m) with (sweep r (cleaned k0 m)).
  simpl in Hin. rewrite IH by tauto. apply cleaned_counts_other. intros ->. tauto.
Qed.

(** X11.  A scan removes no entry that has not expired: a key whose idle
    time is at most [idle_timeout] and whose age is at most
    [max_lifetime] keeps its client and its refcount. *)
Theorem scan_keeps_unexpired_entries
  (lib : Library) (interval : Z) (w : world) (k : string) (last_used : Z) :
  _lock (self w) = false ->
  NoDup (keys (_last_used (self w))) ->
  get k (_last_used (self w)) = Some last_used ->
  clock w (ticks w) - last_used <= idle_timeout (self w) ->
  clock w (ticks w)
    - match get k (client_created_time (self w)) with
      | Some t => t
      | None => clock w (ticks w)
      end
    <= max_lifetime (self w) ->
  let w' := exec (_periodic_cleanup_scan lib interval) w in
  ~ In k (marked (self w) (clock w (ticks w))) /\
  get k (_clients (self w')) = get k (_clients (self w)) /\
  get k (_connection_counts (self w')) = get k (_connection_counts (self w)).
Proof.
  intros Hfree Hnd Hlu Hidle Hage.
  assert (Hout : ~ In k (marked (self w) (clock w (ticks w)))).
  { unfold marked. intros Hin. apply in_map_iff in Hin.
    destruct Hin as ([k' lu] & Hk & Hin). cbn [fst] in Hk. subst k'.
    apply filter_In in Hin. destruct Hin as (Hin & Hexp).
    apply (get_of_in _ _ _ Hnd) in Hin. rewrite Hlu in Hin. injection Hin as <-.
    unfold expired in Hexp. cbn [fst snd] in Hexp. apply orb_true_iff in Hexp.
    destruct Hexp as [H|H]; apply Z.gtb_lt in H; lia. }
  destruct (_periodic_cleanup_scan_run lib interval w Hfree)
    as (evs & w' & Hrun & Hself & _).
  unfold exec. rewrite Hrun. cbn [snd]. rewrite Hself.
  split; [exact Hout|]. split.
  - rewrite sweep_clients. now apply purge_untouched.
  - now apply sweep_counts_untouched.
Qed.

Lemma scan_keeps_unexpired_entries_witness :
  let w := at_time 50 two_clients in
  let w' := exec (_periodic_cleanup_scan (lenient_library sound_handle) 60) w in
  get "a" (_clients (self w')) = get "a" (_clients (self w)) /\
  get "a" (_connection_counts (self w')) = get "a" (_connection_counts (self w)).
Proof.
  intros w w'.
  destruct (scan_keeps_unexpired_entries (lenient_library sound_handle) 60 w "a" 0)
    as (_ & H1 & H2).
  - reflexivity.
  - lazy. repeat constructor; simpl; intuition discriminate.
  - reflexivity.
  - lazy. discriminate.
  - lazy. discriminate.
  - split; [exact H1|exact H2].
Defined.

Lemma start_periodic_cleanup_starts_once_witness :
  _stop_cleanup (self (exec (start_periodic_cleanup (Some 0)) empty_pool)) = false /\
  trace (exec (start_periodic_cleanup (Some 0)) empty_pool) = [Started 300].
Proof.
  destruct (start_periodic_cleanup_starts_once empty_pool (Some 0) None)
    as (_ & _ & _ & _ & _ & H).
  apply H. discriminate.
Defined.

(** ** Pressure eviction on its own *)

Lemma _force_cleanup_idle_connections_run w :
  _lock (self w) = false ->
  _force_cleanup_idle_connections w =
  (Ret tt,
   after (sweep (pressure_marked (self w) (clock w (ticks w))) (self w))
         (sweep_events (fun k => [ForceRemoved k])
            (pressure_marked (self w) (clock w (ticks w))) (self w))
         (tick w)).
Proof.
  intros Hfree. unfold _force_cleanup_idle_connections, try_except.
  erewrite bind_run by (unfold time_time; reflexivity). cbv iota beta.
  erewrite bind_run by (unfold gets; reflexivity). cbv iota beta.
  assert (Hmark :
            with_lock
              (last_used <- gets _last_used ;;
               ret (map fst
                      (filter (fun kv => clock w (ticks w) - snd kv
                                         >? idle_timeout (self (tick w)) / 2)
                              (items last_used))))
              (tick w)
            = (Ret (pressure_marked (self w) (clock w (ticks w))), tick w)).
  { rewrite with_lock_free by exact Hfree. run. f_equal. same_world.
    now apply unlock_lock. }
  rewrite (bind_run _ _ _ _ _ Hmark). cbv iota beta.
  rewrite for_each_cleanup_log. reflexivity.
Qed.

(** X12.  [_force_cleanup_idle_connections], called while the lock is
    free, returns and tears down every entry idle for more than half of
    [idle_timeout], the half rounded down; the creation time plays no
    part.  Such an entry is removed unless a close step raises, and a key
    idle for at most that long keeps its client. *)
Theorem pressure_eviction_uses_half_the_idle_timeout (w : world) (k : string) (last_used : Z) :
  _lock (self w) = false ->
  NoDup (keys (_last_used (self w))) ->
  get k (_last_used (self w)) = Some last_used ->
  let now := clock w (ticks w) in
  let w' := exec _force_cleanup_idle_connections w in
  eval _force_cleanup_idle_connections w = Ret tt /\
  _lock (self w') = false /\
  (now - last_used > idle_timeout (self w) / 2 ->
   get k (_clients (self w')) =
   match get k (_clients (self w)) with
   | Some c => if closes_cleanly c then None else Some c
   | None => None
   end) /\
  (now - last_used <= idle_timeout (self w) / 2 ->
   get k (_clients (self w')) = get k (_clients (self w))).
Proof.
  intros Hfree Hnd Hlu. cbv zeta. unfold eval, exec.
  rewrite (_force_cleanup_idle_connections_run w Hfree). flat.
  split; [reflexivity|]. split; [now rewrite sweep_lock|].
  rewrite sweep_clients. split; intros Hidle.
  - apply purge_touched. unfold pressure_marked.
    change k with (fst (k, last_used)). apply in_map. apply filter_In. split.
    + now apply get_in_items.
    + cbn [snd]. apply Z.gtb_lt. lia.
  - apply purge_untouched. unfold pressure_marked. intros Hin.
    apply in_map_iff in Hin. destruct Hin as ([k' lu] & Hk & Hin).
    cbn [fst] in Hk. subst k'. apply filter_In in Hin. destruct Hin as (Hin & Hexp).
    apply (get_of_in _ _ _ Hnd) in Hin. rewrite Hlu in Hin. injection Hin as <-.
    cbn [snd] in Hexp. apply Z.gtb_lt in Hexp. lia.
Qed.

Lemma pressure_eviction_uses_half_the_idle_timeout_witness :
  let w := at_time 51 two_clients in
  let w' := exec _force_cleanup_idle_connections w in
  idle_timeout (self w) / 2 = 50 /\
  get "a" (_clients (self w')) = None /\
  get "b" (_clients (self w')) = Some (sound_handle 1).
Proof.
  intros w w'. split; [reflexivity|].
  destruct (pressure_eviction_uses_half_the_idle_timeout w "a" 0) as (_ & _ & Ha & _).
  { reflexivity. }
  { lazy. repeat constructor; simpl; intuition discriminate. }
  { reflexivity. }
  destruct (pressure_eviction_uses_half_the_idle_timeout w "b" 1) as (_ & _ & _ & Hb).
  { reflexivity. }
  { lazy. repeat constructor; simpl; intuition discriminate. }
  { reflexivity. }
  split.
  - apply Ha. lazy. reflexivity.
  - apply Hb. lazy. discriminate.
Defined.

(** ** The values of [get_connection_count] *)

(** X13.  [get_connection_count] answers 0, without logging and whatever
    the database would do, when DATABASE_URL is unset or empty.  With a
    DATABASE_URL and a database that answers every step, it returns the
    first column of the row fetched. *)
Theorem get_connection_count_values (lib : Library) (w : world) :
  (truthy (get "DATABASE_URL" (environ w)) = false ->
   get_connection_count lib w = (Ret 0, w)) /\
  (forall url count row,
     get "DATABASE_URL" (environ w) = Some url ->
     url <> "" ->
     pg_connect (psycopg2 lib) url = Ok tt ->
     pg_cursor (psycopg2 lib) = Ok tt ->
     pg_execute (psycopg2 lib) = Ok tt ->
     pg_fetchone (psycopg2 lib) = Ok (Some (count :: row)) ->
     pg_cursor_close (psycopg2 lib) = Ok tt ->
     pg_conn_close (psycopg2 lib) = Ok tt ->
     get_connection_count lib w = (Ret count, w)).
Proof.
  split.
  - intros Hurl. unfold get_connection_count, try_except, count_sessions. run.
    destruct (get "DATABASE_URL" (environ w)) as [url|]; [|reflexivity].
    now rewrite Hurl.
  - intros url count row Hurl Hne H1 H2 H3 H4 H5 H6.
    unfold get_connection_count, try_except, count_sessions, first_column. run.
    rewrite Hurl. unfold truthy.
    destruct (String.eqb_spec url "") as [->|_]; [congruence|]. cbn [negb].
    rewrite H1. run. rewrite H2. run. rewrite H3. run. rewrite H4. run.
    rewrite H5. run. rewrite H6. reflexivity.
Qed.

Lemma get_connection_count_values_witness :
  eval (get_connection_count (lenient_library sound_handle))
       (configured [("DATABASE_URL", "")]) = Ret 0 /\
  eval (get_connection_count (answering_library sound_handle 1536 7))
       (configured [("DATABASE_URL", "postgresql://db/postgres")]) = Ret 7.
Proof.
  unfold eval. split.
  - rewrite (proj1 (get_connection_count_values (lenient_library sound_handle) _)).
    + reflexivity.
    + reflexivity.
  - rewrite (proj2 (get_connection_count_values (answering_library sound_handle 1536 7) _)
               "postgresql://db/postgres" 7 []).
    + reflexivity.
    + reflexivity.
    + discriminate.
    + reflexivity.
    + reflexivity.
    + reflexivity.
    + reflexivity.
    + reflexivity.
    + reflexivity.
Defined.

(** ** The factory, step by step *)

Lemma with_environ_same w : with_environ (environ w) w = w.
Proof. now destruct w. Qed.

Lemma set_openai_key_if_unset_exact a w :
  set_openai_key_if_unset a w =
  (Ret tt, with_environ (openai_key_environ a (environ w)) w).
Proof.
  unfold set_openai_key_if_unset, openai_key_environ. run.
  destruct a as [key|]; [|now rewrite with_environ_same].
  destruct (truthy (Some key) && negb (truthy (get "OPENAI_API_KEY" (environ w))))%bool.
  - reflexivity.
  - now rewrite with_environ_same.
Qed.

Lemma base_url_entry_exact key w :
  base_url_entry key w = (Ret (base_url_of key (environ w)), w).
Proof.
  unfold base_url_entry, base_url_of. run.
  destruct (get "LLM_BASE_URL" (environ w)); reflexivity.
Qed.

Lemma llm_section_exact w :
  llm_section (get "LLM_PROVIDER" (environ w)) (get "LLM_API_KEY" (environ w))
    (get "LLM_CHOICE" (environ w)) w =
  (Ret (llm_value (environ w)), with_environ (llm_environ (environ w)) w).
Proof.
  unfold llm_section, llm_value, llm_environ.
  destruct (is_str (get "LLM_PROVIDER" (environ w)) "openai"
            || is_str (get "LLM_PROVIDER" (environ w)) "openrouter")%bool.
  - rewrite (bind_run _ _ _ _ _ (base_url_entry_exact "openai_base_url" w)).
    rewrite (bind_run _ _ _ _ _ (set_openai_key_if_unset_exact _ w)).
    destruct (get "LLM_API_KEY" (environ w)) as [key|]; run.
    + destruct (is_str (get "LLM_PROVIDER" (environ w)) "openrouter" && truthy (Some key))%bool;
        run; reflexivity.
    + reflexivity.
  - destruct (is_str (get "LLM_PROVIDER" (environ w)) "ollama").
    + rewrite (bind_run _ _ _ _ _ (base_url_entry_exact "ollama_base_url" w)).
      run. now rewrite with_environ_same.
    + run. now rewrite with_environ_same.
Qed.

Lemma dims_or_default_exact (lib : Library) ed dflt w :
  dims_or_default lib ed dflt w =
  (outcome_of match ed with
              | Some s => if truthy (Some s) then py_int lib s else Ok dflt
              | None => Ok dflt
              end, w).
Proof.
  unfold dims_or_default. destruct ed as [s|]; [|reflexivity].
  destruct (truthy (Some s)); [|reflexivity].
  unfold call. destruct (py_int lib s); reflexivity.
Qed.

(** What the LLM part leaves of the environment. *)
Lemma openai_key_environ_other a env k :
  k <> "OPENAI_API_KEY" -> get k (openai_key_environ a env) = get k env.
Proof.
  intros Hk. unfold openai_key_environ. destruct a as [key|]; auto.
  destruct (truthy (Some key) && negb (truthy (get "OPENAI_API_KEY" env)))%bool; auto.
  apply get_set_other. congruence.
Qed.

Lemma llm_environ_other env k :
  k <> "OPENAI_API_KEY" -> k <> "OPENROUTER_API_KEY" ->
  get k (llm_environ env) = get k env.
Proof.
  intros H1 H2. unfold llm_environ.
  destruct (is_str (get "LLM_PROVIDER" env) "openai"
            || is_str (get "LLM_PROVIDER" env) "openrouter")%bool; auto.
  destruct (get "LLM_API_KEY" env) as [key|] eqn:Ha.
  - destruct (is_str (get "LLM_PROVIDER" env) "openrouter" && truthy (Some key))%bool.
    + rewrite get_set_other by congruence. now apply openai_key_environ_other.
    + now apply openai_key_environ_other.
  - now apply openai_key_environ_other.
Qed.

Lemma openai_key_environ_twice a env :
  openai_key_environ a (openai_key_environ a env) = openai_key_environ a env.
Proof.
  unfold openai_key_environ. destruct a as [key|]; auto.
  destruct (truthy (Some key)) eqn:Hk; cbn [andb]; auto.
  destruct (truthy (get "OPENAI_API_KEY" env)) eqn:Ho; cbn [negb].
  - now rewrite Ho.
  - now rewrite get_set_same, Hk.
Qed.

Lemma with_environ_twice e1 e2 w :
  with_environ e2 (with_environ e1 w) = with_environ e2 w.
Proof. reflexivity. Qed.

(** The environment the embedder part sees is the one the LLM part left:
    for the keys it reads, and for the key it may set, nothing is new. *)
Lemma llm_environ_openai env :
  is_str (get "LLM_PROVIDER" env) "openai" = true ->
  llm_environ env = openai_key_environ (get "LLM_API_KEY" env) env.
Proof.
  intros Hp. unfold llm_environ. rewrite Hp. cbn [orb].
  assert (Hr : is_str (get "LLM_PROVIDER" env) "openrouter" = false).
  { destruct (get "LLM_PROVIDER" env) as [p|]; [|reflexivity]. cbn in *.
    apply String.eqb_eq in Hp. now subst p. }
  rewrite Hr. cbn [andb]. now destruct (get "LLM_API_KEY" env).
Qed.

Lemma llm_environ_ollama env :
  is_str (get "LLM_PROVIDER" env) "openai" = false ->
  is_str (get "LLM_PROVIDER" env) "ollama" = true ->
  llm_environ env = env.
Proof.
  intros Ho Hp. unfold llm_environ. rewrite Ho. cbn [orb].
  assert (Hr : is_str (get "LLM_PROVIDER" env) "openrouter" = false).
  { destruct (get "LLM_PROVIDER" env) as [p|]; [|reflexivity]. cbn in *.
    apply String.eqb_eq in Hp. now subst p. }
  now rewrite Hr.
Qed.

Lemma base_url_of_llm_environ key env :
  base_url_of key (llm_environ env) = base_url_of key env.
Proof.
  unfold base_url_of. now rewrite llm_environ_other by discriminate.
Qed.

Lemma embedder_section_exact (lib : Library) w :
  let env := environ w in
  embedder_section lib (get "LLM_PROVIDER" env) (get "LLM_API_KEY" env)
    (get "EMBEDDING_MODEL_CHOICE" env) (get "EMBEDDING_DIMS" env)
    (with_environ (llm_environ env) w) =
  if has_embedder env then
    match embedder_dims lib env with
    | Ok dims => (Ret (embedder_value env dims), with_environ (llm_environ env) w)
    | Err e => (Raise e, with_environ (llm_environ env) w)
    end
  else (Ret None, with_environ (llm_environ env) w).
Proof.
  intros env. unfold embedder_section, has_embedder, embedder_dims, embedder_value,
    default_dims. fold env.
  destruct (is_str (get "LLM_PROVIDER" env) "openai") eqn:Hp; cbn [orb].
  - match goal with
    | |- context [dims_or_default lib ?ed ?d] =>
        assert (Hd : d = if is_str (get "EMBEDDING_MODEL_CHOICE" env) "text-embedding-3-large"
                         then 3072 else 1536)
          by (destruct (is_str (get "EMBEDDING_MODEL_CHOICE" env) "text-embedding-3-large");
              [reflexivity|];
              destruct (is_str (get "EMBEDDING_MODEL_CHOICE" env) "text-embedding-ada-002");
              reflexivity);
        rewrite Hd
    end.
    unfold bind at 1. rewrite dims_or_default_exact.
    destruct (get "EMBEDDING_DIMS" env) as [s|].
    + destruct (truthy (Some s)).
      * destruct (py_int lib s) as [d|e]; cbn [outcome_of]; [|reflexivity].
        rewrite (bind_run _ _ _ _ _ (base_url_entry_exact _ _)).
        rewrite (bind_run _ _ _ _ _ (set_openai_key_if_unset_exact _ _)).
        run. cbn [with_environ environ]. rewrite with_environ_twice.
        rewrite base_url_of_llm_environ.
        rewrite (llm_environ_openai env Hp), openai_key_environ_twice. reflexivity.
      * cbn [outcome_of].
        rewrite (bind_run _ _ _ _ _ (base_url_entry_exact _ _)).
        rewrite (bind_run _ _ _ _ _ (set_openai_key_if_unset_exact _ _)).
        run. cbn [with_environ environ]. rewrite with_environ_twice.
        rewrite base_url_of_llm_environ.
        rewrite (llm_environ_openai env Hp), openai_key_environ_twice. reflexivity.
    + cbn [outcome_of].
      rewrite (bind_run _ _ _ _ _ (base_url_entry_exact _ _)).
      rewrite (bind_run _ _ _ _ _ (set_openai_key_if_unset_exact _ _)).
      run. cbn [with_environ environ]. rewrite with_environ_twice.
      rewrite base_url_of_llm_environ.
      rewrite (llm_environ_openai env Hp), openai_key_environ_twice. reflexivity.
  - destruct (is_str (get "LLM_PROVIDER" env) "ollama") eqn:Ho; [|reflexivity].
    match goal with
    | |- context [dims_or_default lib ?ed ?d] =>
        assert (Hd : d = match get "EMBEDDING_MODEL_CHOICE" env with
                         | Some m =>
                             if truthy (get "EMBEDDING_MODEL_CHOICE" env)
                                && contains "nomic-embed-text" m then 768
                             else if truthy (get "EMBEDDING_MODEL_CHOICE" env)
                                     && contains "all-minilm" m then 384
                             else 768
                         | None => 768
                         end)
          by (destruct (get "EMBEDDING_MODEL_CHOICE" env); reflexivity);
        rewrite Hd
    end.
    unfold bind at 1. rewrite dims_or_default_exact.
    destruct (get "EMBEDDING_DIMS" env) as [s|].
    + destruct (truthy (Some s)).
      * destruct (py_int lib s) as [d|e]; cbn [outcome_of]; [|reflexivity].
        rewrite (bind_run _ _ _ _ _ (base_url_entry_exact _ _)).
        run. cbn [with_environ environ]. now rewrite base_url_of_llm_environ.
      * cbn [outcome_of].
        rewrite (bind_run _ _ _ _ _ (base_url_entry_exact _ _)).
        run. cbn [with_environ environ]. now rewrite base_url_of_llm_environ.
    + cbn [outcome_of].
      rewrite (bind_run _ _ _ _ _ (base_url_entry_exact _ _)).
      run. cbn [with_environ environ]. now rewrite base_url_of_llm_environ.
Qed.

(** [get_mem0_client] as a whole: the environment it leaves, the one
    configuration it hands to mem0, and the one way it fails before
    reaching mem0. *)
Lemma get_mem0_client_exact (lib : Library) w :
  let env := environ w in
  get_mem0_client lib w =
  if has_embedder env then
    match embedder_dims lib env with
    | Ok dims =>
        (outcome_of (Memory_from_config lib (constructed w) (config_of env dims)),
         built (with_environ (llm_environ env) w))
    | Err e => (Raise e, with_environ (llm_environ env) w)
    end
  else
    (outcome_of (Memory_from_config lib (constructed w) (config_of env 1536)),
     built (with_environ (llm_environ env) w)).
Proof.
  intros env. unfold get_mem0_client.
  unfold bind at 1, os_getenv at 1. unfold bind at 1, os_getenv at 1.
  unfold bind at 1, os_getenv at 1. unfold bind at 1, os_getenv at 1.
  unfold bind at 1, os_getenv at 1. cbv beta iota.
  rewrite (bind_run _ _ _ _ _ (llm_section_exact w)).
  unfold bind at 1. rewrite (embedder_section_exact lib w). fold env.
  unfold config_of.
  destruct (has_embedder env) eqn:Hh.
  - destruct (embedder_dims lib env) as [dims|e]; [|reflexivity].
    unfold bind, os_getenv, from_config, call. cbv beta iota.
    cbn [with_environ environ constructed].
    rewrite llm_environ_other by discriminate.
    assert (He : match embedder_value env dims with
                 | Some (_, c) => ec_embedding_dims c
                 | None => 1536
                 end = dims).
    { unfold embedder_value. unfold has_embedder in Hh.
      destruct (is_str (get "LLM_PROVIDER" env) "openai"); [reflexivity|].
      cbn [orb] in Hh. now rewrite Hh. }
    rewrite He.
    destruct (Memory_from_config lib (constructed w) _); reflexivity.
  - unfold bind, os_getenv, from_config, call. cbv beta iota.
    cbn [with_environ environ constructed].
    rewrite llm_environ_other by discriminate.
    assert (He : embedder_value env 1536 = None).
    { unfold embedder_value. unfold has_embedder in Hh.
      destruct (is_str (get "LLM_PROVIDER" env) "openai"); [discriminate|].
      cbn [orb] in Hh. now rewrite Hh. }
    rewrite He.
    destruct (Memory_from_config lib (constructed w) _); reflexivity.
Qed.

Lemma llm_environ_twice env : llm_environ (llm_environ env) = llm_environ env.
Proof.
  unfold llm_environ at 1.
  rewrite !llm_environ_other by discriminate.
  unfold llm_environ.
  destruct (is_str (get "LLM_PROVIDER" env) "openai"
            || is_str (get "LLM_PROVIDER" env) "openrouter")%bool; [|reflexivity].
  destruct (get "LLM_API_KEY" env) as [key|] eqn:Ha; [|reflexivity].
  destruct (is_str (get "LLM_PROVIDER" env) "openrouter" && truthy (Some key))%bool.
  - assert (H : openai_key_environ (Some key)
                  (set "OPENROUTER_API_KEY" key (openai_key_environ (Some key) env))
                = set "OPENROUTER_API_KEY" key (openai_key_environ (Some key) env)).
    { unfold openai_key_environ at 1.
      rewrite get_set_other by discriminate.
      destruct (truthy (Some key)) eqn:Hk; cbn [andb]; [|reflexivity].
      unfold openai_key_environ. rewrite Hk. cbn [andb].
      destruct (truthy (get "OPENAI_API_KEY" env)) eqn:Ho; cbn [negb].
      - now rewrite Ho.
      - now rewrite get_set_same, Hk. }
    rewrite H. apply set_set.
  - apply openai_key_environ_twice.
Qed.

Lemma config_of_llm_environ env dims : config_of (llm_environ env) dims = config_of env dims.
Proof.
  unfold config_of, llm_value, embedder_value, has_embedder.
  rewrite !base_url_of_llm_environ.
  now rewrite !llm_environ_other by discriminate.
Qed.

Lemma embedder_dims_llm_environ lib env :
  embedder_dims lib (llm_environ env) = embedder_dims lib env.
Proof.
  unfold embedder_dims, default_dims.
  now rewrite !llm_environ_other by discriminate.
Qed.

Lemma has_embedder_llm_environ env : has_embedder (llm_environ env) = has_embedder env.
Proof. unfold has_embedder. now rewrite !llm_environ_other by discriminate. Qed.

Lemma get_mem0_client_environ (lib : Library) w :
  environ (exec (get_mem0_client lib) w) = llm_environ (environ w).
Proof.
  unfold exec. rewrite get_mem0_client_exact.
  destruct (has_embedder (environ w)); [destruct (embedder_dims lib (environ w))|];
    reflexivity.
Qed.

Lemma is_str_eq o s : is_str o s = true <-> o = Some s.
Proof.
  destruct o as [t|]; cbn; [|split; discriminate].
  rewrite String.eqb_eq. split; congruence.
Qed.

(** ** The factory inside [get_client] *)

(** The outcome of the factory depends on the environment and on the
    number of handles built so far, and on nothing else. *)
Lemma get_mem0_client_outcome (lib : Library) w0 w :
  environ w0 = environ w ->
  constructed w0 = constructed w ->
  eval (get_mem0_client lib) w0 = eval (get_mem0_client lib) w.
Proof.
  intros He Hc. unfold eval. rewrite !get_mem0_client_exact. cbv zeta.
  rewrite He, Hc.
  destruct (has_embedder (environ w)); [destruct (embedder_dims lib (environ w))|];
    reflexivity.
Qed.

Lemma get_client_fresh_outcome (lib : Library) k w :
  _lock (self w) = false ->
  get k (_clients (self w)) = None ->
  len (_clients (self w)) < max_pool_size (self w) ->
  eval (get_client lib k) w = eval (get_mem0_client lib) w.
Proof.
  intros Hfree Habs Hroom. unfold eval at 1. unfold get_client.
  rewrite with_lock_free by exact Hfree. run.
  unfold mem. rewrite Habs. cbn [negb]. run.
  assert (E : (len (_clients (self w)) >=? max_pool_size (self w)) = false)
    by (rewrite Z.geb_leb; apply Z.leb_gt; lia).
  rewrite E. run. unfold _create_client.
  match goal with
  | |- context [get_mem0_client lib ?w0] =>
      rewrite <- (get_mem0_client_outcome lib w0 w eq_refl eq_refl);
      unfold eval; destruct (get_mem0_client lib w0) as [[c|e|] w1]
  end.
  - run. rewrite !get_set_same. run. rewrite !get_set_same. reflexivity.
  - reflexivity.
  - reflexivity.
Qed.

(** X4.  Acquiring a key that is not in a pool with room has the outcome
    of the factory [get_mem0_client] in the same environment, which returns
    or raises.  When the factory raises, [get_client] raises the same
    exception and the manager is exactly as before (nothing is stored and
    the lock is free again).  When the factory returns a handle,
    [get_client] returns that handle, which [Memory.from_config] built,
    and stores it with refcount 1 and with the clock reading as both
    creation and last-used time; the other keys are not touched. *)
Theorem get_client_creates_or_fails (lib : Library) (k : string) (w : world) :
  _lock (self w) = false ->
  get k (_clients (self w)) = None ->
  len (_clients (self w)) < max_pool_size (self w) ->
  let w' := exec (get_client lib k) w in
  eval (get_client lib k) w = eval (get_mem0_client lib) w /\
  eval (get_mem0_client lib) w <> Block /\
  (forall e, eval (get_mem0_client lib) w = Raise e -> self w' = self w) /\
  (forall c, eval (get_mem0_client lib) w = Ret c ->
     built_by lib c /\
     get k (_clients (self w')) = Some c /\
     get k (_connection_counts (self w')) = Some 1 /\
     get k (client_created_time (self w')) = Some (clock w (ticks w)) /\
     get k (_last_used (self w')) = Some (clock w (ticks w)) /\
     _lock (self w') = false /\
     forall k', k' <> k ->
       get k' (_clients (self w')) = get k' (_clients (self w)) /\
       get k' (_connection_counts (self w')) = get k' (_connection_counts (self w)) /\
       get k' (client_created_time (self w')) = get k' (client_created_time (self w)) /\
       get k' (_last_used (self w')) = get k' (_last_used (self w))).
Proof.
  intros Hfree Habs Hroom.
  pose proof (get_client_fresh_outcome lib k w Hfree Habs Hroom) as Hout.
  destruct (get_client_fresh_built lib k w Hfree Habs Hroom)
    as (o & w1 & Hrun & _ & _ & Hcase).
  cbv zeta. rewrite <- Hout. unfold eval, exec. rewrite Hrun. cbn [fst snd].
  split; [reflexivity|].
  destruct Hcase as [(e & -> & Hs & _)|(c & -> & Hb & _ & Hs & _)].
  - split; [discriminate|]. split; [intros _ _; exact Hs|]. intros c Hc. discriminate.
  - split; [discriminate|]. split; [intros e He; discriminate|].
    intros c0 Hc. injection Hc as <-.
    rewrite Hs. unfold admitted. flat. rewrite !get_set_same.
    split; [exact Hb|]. split; [reflexivity|].
    split; [reflexivity|]. split; [reflexivity|]. split; [reflexivity|].
    split; [exact Hfree|].
    intros k' Hne. rewrite !get_set_other by congruence. auto.
Qed.

Lemma get_client_creates_or_fails_witness :
  let w1 := exec (get_client (lenient_library sound_handle) "a") empty_pool in
  let w2 := exec (get_client (strict_library sound_handle) "a") empty_pool in
  (eval (get_client (lenient_library sound_handle) "a") empty_pool = Ret (sound_handle 0) /\
   get "a" (_clients (self w1)) = Some (sound_handle 0) /\
   get "a" (_connection_counts (self w1)) = Some 1) /\
  (eval (get_client (strict_library sound_handle) "a") empty_pool = Raise (LibraryError 3) /\
   self w2 = self empty_pool).
Proof.
  intros w1 w2. split.
  - destruct (get_client_creates_or_fails (lenient_library sound_handle) "a" empty_pool)
      as (H1 & _ & _ & H2).
    + reflexivity.
    + reflexivity.
    + reflexivity.
    + destruct (H2 (sound_handle 0)) as (_ & H3 & H4 & _); [reflexivity|].
      split; [rewrite H1; reflexivity|]. split; [exact H3|exact H4].
  - destruct (get_client_creates_or_fails (strict_library sound_handle) "a" empty_pool)
      as (H1 & _ & H2 & _).
    + reflexivity.
    + reflexivity.
    + reflexivity.
    + split; [rewrite H1; reflexivity|]. apply (H2 (LibraryError 3)). reflexivity.
Defined.

(** ** The factory: what it hands to mem0 and what it does to the environment *)

(** X14.  With LLM_PROVIDER unset, or set to anything but "openai",
    "openrouter" and "ollama", [get_mem0_client] raises nothing of its
    own: it leaves the environment as it is, never reads EMBEDDING_DIMS
    through [int], and calls [Memory.from_config] with a configuration
    that has no "llm" and no "embedder" entry and a vector store of 1536
    dimensions. *)
Theorem unknown_provider_configures_only_the_vector_store (lib : Library) (w : world) :
  is_str (get "LLM_PROVIDER" (environ w)) "openai" = false ->
  is_str (get "LLM_PROVIDER" (environ w)) "openrouter" = false ->
  is_str (get "LLM_PROVIDER" (environ w)) "ollama" = false ->
  get_mem0_client lib w =
  (outcome_of
     (Memory_from_config lib (constructed w)
        {| cfg_llm := None;
           cfg_embedder := None;
           cfg_vector_store :=
             Some ("supabase",
                   {| connection_string :=
                        match get "DATABASE_URL" (environ w) with
                        | Some s => s
                        | None => ""
                        end;
                      collection_name := "mem0_memories";
                      embedding_model_dims := 1536 |}) |}),
   built w).
Proof.
  intros H1 H2 H3. rewrite get_mem0_client_exact.
  unfold config_of, has_embedder, llm_value, embedder_value, llm_environ.
  rewrite H1, H2, H3. cbn [orb]. now rewrite with_environ_same.
Qed.

Lemma unknown_provider_configures_only_the_vector_store_witness :
  eval (get_mem0_client (lenient_library sound_handle))
       (configured [("LLM_PROVIDER", "anthropic"); ("EMBEDDING_DIMS", "many")])
  = Ret (sound_handle 0).
Proof.
  unfold eval.
  rewrite (unknown_provider_configures_only_the_vector_store (lenient_library sound_handle));
    reflexivity.
Defined.

(** X15.  With LLM_PROVIDER "openrouter" and a non-empty LLM_API_KEY, the
    configuration names "openai" as the LLM provider and has no embedder,
    so the vector store gets 1536 dimensions whatever EMBEDDING_DIMS says;
    afterwards OPENROUTER_API_KEY holds the key, and OPENAI_API_KEY holds
    it too unless it already had a non-empty value. *)
Theorem openrouter_has_llm_but_no_embedder (lib : Library) (w : world) (key : string) :
  get "LLM_PROVIDER" (environ w) = Some "openrouter" ->
  get "LLM_API_KEY" (environ w) = Some key ->
  truthy (Some key) = true ->
  eval (get_mem0_client lib) w =
  outcome_of
    (Memory_from_config lib (constructed w)
       {| cfg_llm :=
            Some ("openai",
                  {| llm_model := get "LLM_CHOICE" (environ w);
                     llm_temperature := "0.2";
                     llm_max_tokens := 2000;
                     llm_base_url :=
                       match get "LLM_BASE_URL" (environ w) with
                       | Some url => if truthy (Some url)
                                     then Some ("openai_base_url", url) else None
                       | None => None
                       end |});
          cfg_embedder := None;
          cfg_vector_store :=
            Some ("supabase",
                  {| connection_string :=
                       match get "DATABASE_URL" (environ w) with
                       | Some s => s
                       | None => ""
                       end;
                     collection_name := "mem0_memories";
                     embedding_model_dims := 1536 |}) |}) /\
  get "OPENROUTER_API_KEY" (environ (exec (get_mem0_client lib) w)) = Some key /\
  get "OPENAI_API_KEY" (environ (exec (get_mem0_client lib) w)) =
    (if truthy (get "OPENAI_API_KEY" (environ w))
     then get "OPENAI_API_KEY" (environ w) else Some key).
Proof.
  intros Hp Ha Hk.
  assert (Henv : llm_environ (environ w) =
                 set "OPENROUTER_API_KEY" key (openai_key_environ (Some key) (environ w))).
  { unfold llm_environ. rewrite Hp, Ha, Hk. reflexivity. }
  rewrite get_mem0_client_environ, Henv.
  split; [|split].
  - unfold eval. rewrite get_mem0_client_exact.
    unfold config_of, has_embedder, llm_value, embedder_value, base_url_of.
    rewrite Hp. reflexivity.
  - apply get_set_same.
  - rewrite get_set_other by discriminate.
    unfold openai_key_environ. rewrite Hk. cbn [andb].
    destruct (truthy (get "OPENAI_API_KEY" (environ w))); cbn [negb].
    + reflexivity.
    + apply get_set_same.
Qed.

Lemma openrouter_has_llm_but_no_embedder_witness :
  get "OPENROUTER_API_KEY"
    (environ (exec (get_mem0_client (lenient_library sound_handle))
                (configured [("LLM_PROVIDER", "openrouter"); ("LLM_API_KEY", "sk-or");
                             ("EMBEDDING_DIMS", "many")])))
  = Some "sk-or".
Proof.
  apply (openrouter_has_llm_but_no_embedder (lenient_library sound_handle)
           (configured [("LLM_PROVIDER", "openrouter"); ("LLM_API_KEY", "sk-or");
                        ("EMBEDDING_DIMS", "many")]) "sk-or");
    reflexivity.
Defined.

(** X16.  For the providers "openai" and "ollama" the vector store is
    given the dimensions of the embedder: [int(EMBEDDING_DIMS)] when the
    variable is set and not empty, the default of the embedding model
    otherwise. *)
Theorem vector_store_dims_follow_the_embedder (lib : Library) (w : world) (dims : Z) :
  has_embedder (environ w) = true ->
  embedder_dims lib (environ w) = Ok dims ->
  exists llm provider embedder store,
    eval (get_mem0_client lib) w =
    outcome_of
      (Memory_from_config lib (constructed w)
         {| cfg_llm := llm;
            cfg_embedder := Some (provider, embedder);
            cfg_vector_store := Some ("supabase", store) |}) /\
    Some provider = get "LLM_PROVIDER" (environ w) /\
    ec_embedding_dims embedder = dims /\
    embedding_model_dims store = dims.
Proof.
  intros Hh Hd. unfold eval. rewrite get_mem0_client_exact, Hh, Hd.
  unfold config_of. rewrite Hh. cbn [fst].
  unfold has_embedder in Hh. unfold embedder_value.
  destruct (is_str (get "LLM_PROVIDER" (environ w)) "openai") eqn:Ho.
  - apply is_str_eq in Ho. repeat eexists. now rewrite Ho.
  - cbn [orb] in Hh. rewrite Hh. apply is_str_eq in Hh. repeat eexists. now rewrite Hh.
Qed.

Lemma vector_store_dims_follow_the_embedder_witness :
  exists llm provider embedder store,
    eval (get_mem0_client (lenient_library sound_handle))
         (configured [("LLM_PROVIDER", "ollama"); ("EMBEDDING_MODEL_CHOICE", "all-minilm:l6");
                      ("EMBEDDING_DIMS", "")]) =
    outcome_of
      (Memory_from_config (lenient_library sound_handle) 0
         {| cfg_llm := llm;
            cfg_embedder := Some (provider, embedder);
            cfg_vector_store := Some ("supabase", store) |}) /\
    Some provider = Some "ollama" /\
    ec_embedding_dims embedder = 384 /\
    embedding_model_dims store = 384.
Proof.
  apply (vector_store_dims_follow_the_embedder (lenient_library sound_handle)
           (configured [("LLM_PROVIDER", "ollama");
                        ("EMBEDDING_MODEL_CHOICE", "all-minilm:l6");
                        ("EMBEDDING_DIMS", "")]) 384);
    reflexivity.
Defined.

(** X17.  For the providers "openai" and "ollama", an EMBEDDING_DIMS that
    [int] rejects makes [get_mem0_client] raise that exception before
    [Memory.from_config] is called; the manager and the log are left as
    they were. *)
Theorem bad_embedding_dims_raise_before_mem0
  (lib : Library) (w : world) (s : string) (e : exn) :
  has_embedder (environ w) = true ->
  get "EMBEDDING_DIMS" (environ w) = Some s ->
  truthy (Some s) = true ->
  py_int lib s = Err e ->
  eval (get_mem0_client lib) w = Raise e /\
  constructed (exec (get_mem0_client lib) w) = constructed w /\
  self (exec (get_mem0_client lib) w) = self w /\
  trace (exec (get_mem0_client lib) w) = trace w.
Proof.
  intros Hh Hs Ht He. unfold eval, exec. rewrite get_mem0_client_exact, Hh.
  unfold embedder_dims. rewrite Hs, Ht, He. cbn [fst snd]. auto.
Qed.

Lemma bad_embedding_dims_raise_before_mem0_witness :
  eval (get_mem0_client (lenient_library sound_handle))
       (configured [("LLM_PROVIDER", "openai"); ("EMBEDDING_DIMS", "many")])
  = Raise ValueError.
Proof.
  apply (bad_embedding_dims_raise_before_mem0 (lenient_library sound_handle)
           (configured [("LLM_PROVIDER", "openai"); ("EMBEDDING_DIMS", "many")])
           "many" ValueError);
    reflexivity.
Defined.

(** X18.  Whatever its outcome, [get_mem0_client] changes no environment
    variable other than OPENAI_API_KEY and OPENROUTER_API_KEY, and it
    never replaces a non-empty OPENAI_API_KEY.  For "openai" and
    "openrouter" with a non-empty LLM_API_KEY and no OPENAI_API_KEY, the
    key is exported to OPENAI_API_KEY, also when the call then raises. *)
Theorem get_mem0_client_environment (lib : Library) (w : world) :
  let w' := exec (get_mem0_client lib) w in
  (forall k, k <> "OPENAI_API_KEY" -> k <> "OPENROUTER_API_KEY" ->
             get k (environ w') = get k (environ w)) /\
  (truthy (get "OPENAI_API_KEY" (environ w)) = true ->
   get "OPENAI_API_KEY" (environ w') = get "OPENAI_API_KEY" (environ w)) /\
  (forall key,
     is_str (get "LLM_PROVIDER" (environ w)) "openai"
     || is_str (get "LLM_PROVIDER" (environ w)) "openrouter" = true ->
     get "LLM_API_KEY" (environ w) = Some key ->
     truthy (Some key) = true ->
     truthy (get "OPENAI_API_KEY" (environ w)) = false ->
     get "OPENAI_API_KEY" (environ w') = Some key).
Proof.
  cbv zeta. rewrite get_mem0_client_environ. split; [|split].
  - intros k H1 H2. now apply llm_environ_other.
  - intros Ho. unfold llm_environ.
    assert (Hkeep : forall a, get "OPENAI_API_KEY" (openai_key_environ a (environ w))
                              = get "OPENAI_API_KEY" (environ w)).
    { intros a. unfold openai_key_environ. destruct a as [key|]; [|reflexivity].
      rewrite Ho. now rewrite Bool.andb_false_r. }
    destruct (is_str (get "LLM_PROVIDER" (environ w)) "openai"
              || is_str (get "LLM_PROVIDER" (environ w)) "openrouter")%bool; [|reflexivity].
    destruct (get "LLM_API_KEY" (environ w)) as [key|]; [|apply Hkeep].
    destruct (is_str (get "LLM_PROVIDER" (environ w)) "openrouter" && truthy (Some key))%bool.
    + rewrite get_set_other by discriminate. apply Hkeep.
    + apply Hkeep.
  - intros key Hp Ha Hk Ho. unfold llm_environ. rewrite Hp, Ha.
    assert (Hset : get "OPENAI_API_KEY" (openai_key_environ (Some key) (environ w))
                   = Some key).
    { unfold openai_key_environ. rewrite Hk, Ho. apply get_set_same. }
    destruct (is_str (get "LLM_PROVIDER" (environ w)) "openrouter" && truthy (Some key))%bool.
    + now rewrite get_set_other by discriminate.
    + exact Hset.
Qed.

Lemma get_mem0_client_environment_witness :
  eval (get_mem0_client (lenient_library sound_handle))
       (configured [("LLM_PROVIDER", "openai"); ("LLM_API_KEY", "sk-1");
                    ("EMBEDDING_DIMS", "many")]) = Raise ValueError /\
  get "OPENAI_API_KEY"
    (environ (exec (get_mem0_client (lenient_library sound_handle))
                (configured [("LLM_PROVIDER", "openai"); ("LLM_API_KEY", "sk-1");
                             ("EMBEDDING_DIMS", "many")])))
  = Some "sk-1".
Proof.
  split; [reflexivity|].
  apply (proj2 (proj2 (get_mem0_client_environment (lenient_library sound_handle)
           (configured [("LLM_PROVIDER", "openai"); ("LLM_API_KEY", "sk-1");
                        ("EMBEDDING_DIMS", "many")]))) "sk-1");
    reflexivity.
Defined.

(** X19.  A second call of [get_mem0_client] repeats the first: it leaves
    the environment as the first call left it, and either both calls
    raise the exception of [int] on EMBEDDING_DIMS, or both hand
    [Memory.from_config] the same configuration. *)
Theorem get_mem0_client_twice (lib : Library) (w : world) :
  let w' := exec (get_mem0_client lib) w in
  environ (exec (get_mem0_client lib) w') = environ w' /\
  ((exists e, eval (get_mem0_client lib) w = Raise e /\
              eval (get_mem0_client lib) w' = Raise e /\
              constructed (exec (get_mem0_client lib) w') = constructed w) \/
   (exists cfg,
      eval (get_mem0_client lib) w
      = outcome_of (Memory_from_config lib (constructed w) cfg) /\
      eval (get_mem0_client lib) w'
      = outcome_of (Memory_from_config lib (S (constructed w)) cfg))).
Proof.
  cbv zeta. split.
  - now rewrite !get_mem0_client_environ, llm_environ_twice.
  - unfold eval, exec. rewrite (get_mem0_client_exact lib w).
    destruct (has_embedder (environ w)) eqn:Hh.
    + destruct (embedder_dims lib (environ w)) as [dims|e] eqn:Hd; cbn [fst snd].
      * right. exists (config_of (environ w) dims). split; [reflexivity|].
        rewrite get_mem0_client_exact. cbn [built with_environ environ constructed].
        rewrite has_embedder_llm_environ, Hh, embedder_dims_llm_environ, Hd.
        now rewrite config_of_llm_environ.
      * left. exists e. split; [reflexivity|].
        rewrite get_mem0_client_exact. cbn [with_environ environ constructed].
        rewrite has_embedder_llm_environ, Hh, embedder_dims_llm_environ, Hd. auto.
    + cbn [fst snd]. right. exists (config_of (environ w) 1536). split; [reflexivity|].
      rewrite get_mem0_client_exact. cbn [built with_environ environ constructed].
      rewrite has_embedder_llm_environ, Hh.
      now rewrite config_of_llm_environ.
Qed.

(** ** The lifespan of the server *)

Lemma start_periodic_cleanup_run i w :
  exists evs,
    start_periodic_cleanup i w = (Ret tt, after (started (self w)) evs w) /\
    mutation_locks evs = [].
Proof.
  unfold start_periodic_cleanup, started. run.
  destruct (_cleanup_thread (self w)) as [[]|] eqn:Ht; run.
  - exists []. now rewrite after_nothing.
  - eexists [Started _]. split; [|reflexivity]. f_equal. same_world.
  - eexists [Started _]. split; [|reflexivity]. f_equal. same_world.
Qed.

Lemma stop_periodic_cleanup_run exits w :
  exists evs,
    stop_periodic_cleanup exits w = (Ret tt, after (stopped exits (self w)) evs w) /\
    mutation_locks evs = [].
Proof.
  unfold stop_periodic_cleanup, stopped. run.
  destruct (_cleanup_thread (self w)) as [t|] eqn:Ht; run.
  - destruct exits; run; exists [Joined 5; Stopped]; (split; [|reflexivity]); f_equal;
      same_world; try (now rewrite <- app_assoc).
  - exists [Stopped]. split; [|reflexivity]. f_equal; try same_world.
Qed.


Lemma stopped_moves P exits m : pool_move P m (stopped exits m).
Proof.
  unfold stopped. destruct (_cleanup_thread m) as [t|]; [destruct exits|];
    try apply move_stop.
  eapply move_then; [apply move_stop | apply move_thread].
Qed.

Lemma started_lock m : _lock (started m) = _lock m.
Proof. unfold started. now destruct (_cleanup_thread m) as [[]|]. Qed.

Lemma started_clients m : _clients (started m) = _clients m.
Proof. unfold started. now destruct (_cleanup_thread m) as [[]|]. Qed.

Lemma started_counts m : _connection_counts (started m) = _connection_counts m.
Proof. unfold started. now destruct (_cleanup_thread m) as [[]|]. Qed.

Lemma started_max m : max_pool_size (started m) = max_pool_size m.
Proof. unfold started. now destruct (_cleanup_thread m) as [[]|]. Qed.

Lemma stopped_lock exits m : _lock (stopped exits m) = _lock m.
Proof. unfold stopped. now destruct (_cleanup_thread m) as [t|]; [destruct exits|]. Qed.

Lemma stopped_clients exits m : _clients (stopped exits m) = _clients m.
Proof. unfold stopped. now destruct (_cleanup_thread m) as [t|]; [destruct exits|]. Qed.

Lemma stopped_stop exits m : _stop_cleanup (stopped exits m) = true.
Proof. unfold stopped. now destruct (_cleanup_thread m) as [t|]; [destruct exits|]. Qed.

Lemma closable_cleaned k m : closable m -> closable (cleaned k m).
Proof.
  intros H k' c. rewrite cleaned_clients.
  destruct (string_dec k k') as [->|Hne].
  - rewrite purge1_same. destruct (get k' (_clients m)) as [c'|] eqn:Hc; [|discriminate].
    destruct (closes_cleanly c'); [discriminate|]. intros [= <-]. eauto.
  - rewrite purge1_other by exact Hne. apply H.
Qed.

Lemma closable_move P m m' :
  (forall c, P c -> closes_cleanly c = true) ->
  pool_move P m m' -> closable m -> closable m'.
Proof.
  intros HP Hmove. induction Hmove; intros Hc; auto.
  - intros k' c'. unfold admitted. flat.
    destruct (string_dec k k') as [->|Hne].
    + rewrite get_set_same. intros [= <-]. auto.
    + rewrite get_set_other by exact Hne. apply Hc.
  - destruct (n - 1 <=? 0); [apply closable_cleaned|]; exact Hc.
  - now apply closable_cleaned.
Qed.

Lemma dict_nil {V} (d : dict V) : (forall k, get k d = None) -> d = [].
Proof.
  destruct d as [|[k v] r]; [reflexivity|]. intros H. specialize (H k).
  simpl in H. now rewrite String.eqb_refl in H.
Qed.

(** With handles that close, [cleanup_all] leaves nothing. *)
Lemma sweep_all_clients m :
  pool_ok m -> closable m -> _clients (sweep (keys (_clients m)) m) = [].
Proof.
  intros Hok Hc. rewrite sweep_clients, purge_keys by apply (ok_clients _ Hok).
  apply faulty_none; [exact Hc | apply (ok_clients _ Hok)].
Qed.

Lemma sweep_all_counts m :
  pool_ok m -> closable m -> _connection_counts (sweep (keys (_clients m)) m) = [].
Proof.
  intros Hok Hc. apply dict_nil. intros k.
  destruct (get k (_clients m)) as [c|] eqn:Hk.
  - apply (sweep_counts_removed _ k c); [|exact Hk|eauto].
    apply get_in_keys. congruence.
  - apply sweep_absent_stays; [exact Hk|].
    apply mem_false_get. rewrite (ok_same _ Hok). now apply mem_false_get.
Qed.

Lemma release_client_ends k w :
  _lock (self w) = false ->
  exists w1, release_client k w = (Ret tt, w1) /\ _lock (self w1) = false.
Proof.
  intros Hfree. rewrite release_client_run by exact Hfree.
  destruct (get k (_connection_counts (self w))) as [n|]; [|eauto].
  cbv zeta. destruct (n - 1 <=? 0); eexists; (split; [reflexivity|]); reflexivity.
Qed.

Lemma quiescent_move P m m' :
  (forall c, P c -> closes_cleanly c = true) ->
  pool_move P m m' -> _lock m' = false -> quiescent m -> quiescent m'.
Proof.
  intros HP Hmove Hfree (_ & Hok & Hc). split; [exact Hfree|]. split.
  - eapply pool_ok_move; eauto.
  - eapply closable_move; eauto.
Qed.

(** The [finally] block of the lifespan, from a quiescent manager. *)
Lemma lifespan_shutdown_run (lib : Library) exits w :
  quiescent (self w) ->
  exists w',
    lifespan_shutdown lib exits w = (Ret tt, w') /\
    _clients (self w') = [] /\ _connection_counts (self w') = [] /\
    _stop_cleanup (self w') = true /\ _lock (self w') = false.
Proof.
  intros Hq. unfold lifespan_shutdown, try_except.
  destruct (release_client_ends "main_server" w (proj1 Hq)) as (w1 & H1 & Hf1).
  assert (Hq1 : quiescent (self w1)).
  { apply (quiescent_move (fun _ => False) (self w)); [tauto| |exact Hf1|exact Hq].
    pose proof (release_client_moves (fun _ => False) "main_server" w) as Hm.
    unfold exec in Hm. now rewrite H1 in Hm. }
  rewrite (bind_run _ _ _ _ _ H1).
  destruct (stop_periodic_cleanup_run exits w1) as (evs & H2 & _).
  rewrite (bind_run _ _ _ _ _ H2).
  set (m2 := stopped exits (self w1)).
  assert (Hq2 : quiescent m2).
  { apply (quiescent_move (fun _ => False) (self w1)); [tauto| | |exact Hq1].
    - apply stopped_moves.
    - unfold m2. now rewrite stopped_lock. }
  assert (H3 := cleanup_all_run (after m2 evs w1) (proj1 Hq2)).
  cbn [self after] in H3. rewrite (bind_run _ _ _ _ _ H3).
  match goal with
  | |- context [bind (get_connection_count lib) _ ?w0] =>
      destruct (get_connection_count_run lib w0) as (n & evs' & H4 & _)
  end.
  rewrite (bind_run _ _ _ _ _ H4). unfold ret. eexists. split; [reflexivity|].
  flat.
  assert (Hok : pool_ok (with_lock_flag true m2)).
  { eapply pool_ok_move; [apply (move_lock (fun _ => False))|apply Hq2]. }
  assert (Hc : closable (with_lock_flag true m2)).
  { intros k c. flat. apply Hq2. }
  change (keys (_clients m2)) with (keys (_clients (with_lock_flag true m2))).
  rewrite (sweep_all_clients _ Hok Hc), (sweep_all_counts _ Hok Hc).
  rewrite sweep_stop. flat. unfold m2. rewrite stopped_stop. auto.
Qed.



(** X20.  The [finally] block of [mem0_lifespan], run on a manager whose
    lock is free and whose handles close without raising, raises
    nothing and leaves the pool empty, whatever the refcounts were: no
    client and no refcount is left, the stop event is set and the lock is
    free. *)
Theorem lifespan_shutdown_empties_the_pool (lib : Library) (exits : bool) (w : world) :
  quiescent (self w) ->
  let w' := exec (lifespan_shutdown lib exits) w in
  eval (lifespan_shutdown lib exits) w = Ret tt /\
  _clients (self w') = [] /\
  _connection_counts (self w') = [] /\
  _stop_cleanup (self w') = true /\
  _lock (self w') = false.
Proof.
  intros Hq. destruct (lifespan_shutdown_run lib exits w Hq) as (w' & Hrun & H).
  unfold eval, exec. rewrite Hrun. cbn [fst snd]. auto.
Qed.

Lemma two_clients_quiescent : quiescent (self two_clients).
Proof.
  split; [reflexivity|]. split.
  - apply (pool_ok_move (built_by (lenient_library sound_handle)) (self empty_pool));
      [|apply (pool_ok_init 2 300 100 1000)].
    apply (move_then _ _
             (self (exec (get_client (lenient_library sound_handle) "a") empty_pool))).
    + apply (get_client_moves (lenient_library sound_handle) "a" empty_pool).
    + apply (get_client_moves (lenient_library sound_handle) "b"
               (exec (get_client (lenient_library sound_handle) "a") empty_pool)).
  - intros k c. cbn.
    destruct (String.eqb k "a"); [now intros [= <-]|].
    destruct (String.eqb k "b"); [now intros [= <-]|discriminate].
Qed.

Lemma lifespan_shutdown_empties_the_pool_witness :
  len (_clients (self two_clients)) = 2 /\
  _clients (self (exec (lifespan_shutdown (lenient_library sound_handle) true) two_clients))
  = [].
Proof.
  split; [reflexivity|].
  apply (lifespan_shutdown_empties_the_pool (lenient_library sound_handle) true two_clients).
  exact two_clients_quiescent.
Defined.



Lemma started_idle_timeout m : idle_timeout (started m) = idle_timeout m.
Proof. unfold started. now destruct (_cleanup_thread m) as [[]|]. Qed.

Lemma lifespan_startup_fresh (lib : Library) w c w1 :
  _lock (self w) = false ->
  get "main_server" (_clients (self w)) = None ->
  len (_clients (self w)) < max_pool_size (self w) ->
  lifespan_startup lib w = (Ret c, w1) ->
  self w1 = admitted "main_server" c (clock w (ticks w)) (started (self w)).
Proof.
  intros Hfree Habs Hroom Hrun. unfold lifespan_startup in Hrun.
  destruct (start_periodic_cleanup_run (Some 300) w) as (evs & H0 & _).
  rewrite (bind_run _ _ _ _ _ H0) in Hrun.
  destruct (get_client_fresh_built lib "main_server" (after (started (self w)) evs w))
    as (o & w0 & Hget & _ & _ & Hcase).
  { flat. now rewrite started_lock. }
  { flat. now rewrite started_clients. }
  { flat. now rewrite started_clients, started_max. }
  destruct Hcase as [(e & -> & _)|(c' & -> & _ & _ & Hs & _)].
  - unfold bind at 1 in Hrun. rewrite Hget in Hrun. discriminate.
  - rewrite (bind_run _ _ _ _ _ Hget) in Hrun.
    destruct (get_connection_count_run lib w0) as (n & evs' & H2 & _).
    rewrite (bind_run _ _ _ _ _ H2) in Hrun. unfold ret in Hrun.
    injection Hrun as <- <-. flat. exact Hs.
Qed.

(** X22.  The reclaimer takes the server's own client.  [mem0_lifespan]
    acquires "main_server" once at startup and never touches it again, so
    the first scan that runs more than [idle_timeout] after startup marks
    the entry, although its refcount is still 1, and starts its teardown
    while the server holds the handle: the entry leaves the pool unless a
    close step raises. *)
Theorem reclaimer_takes_the_serving_client
  (lib : Library) (w w1 w2 : world) (c : Memory) :
  _lock (self w) = false ->
  get "main_server" (_clients (self w)) = None ->
  len (_clients (self w)) < max_pool_size (self w) ->
  lifespan_startup lib w = (Ret c, w1) ->
  self w2 = self w1 ->
  clock w2 (ticks w2) - clock w (ticks w) > idle_timeout (self w) ->
  let w' := exec (_periodic_cleanup_scan lib 300) w2 in
  get "main_server" (_connection_counts (self w2)) = Some 1 /\
  get "main_server" (_clients (self w2)) = Some c /\
  (cleanings "main_server" (trace w2) < cleanings "main_server" (trace w'))%nat /\
  get "main_server" (_clients (self w')) = (if closes_cleanly c then None else Some c).
Proof.
  intros Hfree Habs Hroom Hstart Hsame Hlate.
  pose proof (lifespan_startup_fresh lib w c w1 Hfree Habs Hroom Hstart) as Hs.
  rewrite <- Hsame in Hs.
  assert (Hn : get "main_server" (_connection_counts (self w2)) = Some 1)
    by (rewrite Hs; unfold admitted; flat; apply get_set_same).
  assert (Hc : get "main_server" (_clients (self w2)) = Some c)
    by (rewrite Hs; unfold admitted; flat; apply get_set_same).
  assert (Hlu : get "main_server" (_last_used (self w2)) = Some (clock w (ticks w)))
    by (rewrite Hs; unfold admitted; flat; apply get_set_same).
  assert (Hfree2 : _lock (self w2) = false)
    by (rewrite Hs; unfold admitted; flat; now rewrite started_lock).
  assert (Hidle : idle_timeout (self w2) = idle_timeout (self w))
    by (rewrite Hs; unfold admitted; flat; apply started_idle_timeout).
  assert (Hmarked : In "main_server" (marked (self w2) (clock w2 (ticks w2)))).
  { apply (expired_marked _ _ _ _ Hlu). left. now rewrite Hidle. }
  destruct (_periodic_cleanup_scan_run lib 300 w2 Hfree2)
    as (evs & w' & Hrun & Hself & Htrace & Hquiet & _).
  cbv zeta. unfold exec. rewrite Hrun. cbn [snd].
  split; [exact Hn|]. split; [exact Hc|]. split.
  - rewrite Htrace, !cleanings_app, Hquiet.
    pose proof (cleanings_sweep_some (fun k => [Removed k]) "main_server" _ (self w2) Hmarked)
      as H.
    unfold mem in H. rewrite Hc in H. specialize (H eq_refl). lia.
  - rewrite Hself, sweep_clients, (purge_touched _ _ _ Hmarked), Hc. reflexivity.
Qed.

Lemma reclaimer_takes_the_serving_client_witness :
  let lib := lenient_library sound_handle in
  let w1 := exec (lifespan_startup lib) (configured []) in
  let w' := exec (_periodic_cleanup_scan lib 300) (at_time 601 w1) in
  get "main_server" (_connection_counts (self (at_time 601 w1))) = Some 1 /\
  get "main_server" (_clients (self w')) = None.
Proof.
  intros lib w1 w'.
  destruct (reclaimer_takes_the_serving_client lib (configured []) w1 (at_time 601 w1)
              (sound_handle 0))
    as (H1 & _ & _ & H2).
  - reflexivity.
  - reflexivity.
  - lazy. reflexivity.
  - vm_compute. reflexivity.
  - vm_compute. reflexivity.
  - vm_compute. reflexivity.
  - split; [exact H1|exact H2].
Defined.

(** ** Keys that have left the pool *)

Lemma purge_absent ks k d : get k d = None -> get k (purge ks d) = None.
Proof.
  intros H. destruct (in_dec string_dec k ks) as [Hin|Hin].
  - now rewrite (purge_touched _ _ _ Hin), H.
  - now rewrite (purge_untouched _ _ _ Hin).
Qed.

Lemma cleanings_sweep_gone (note : string -> list event) k ks m :
  (forall k0, cleanings k (note k0) = 0%nat) ->
  get k (_clients m) = None ->
  cleanings k (sweep_events note ks m) = 0%nat.
Proof.
  intros Hquiet. revert m. induction ks as [|k0 r IH]; intros m Habs; auto.
  simpl sweep_events. rewrite !cleanings_app, cleanings_cleanup_events, Hquiet, IH.
  - destruct (String.eqb_spec k k0) as [<-|]; [|reflexivity].
    apply mem_false_get in Habs. now rewrite Habs.
  - rewrite cleaned_clients. destruct (string_dec k0 k) as [->|Hne].
    + now rewrite purge1_same, Habs.
    + now rewrite purge1_other.
Qed.

Lemma sweep_events_notes (ev : string -> event) k ks m :
  In k ks -> In (ev k) (sweep_events (fun k => [ev k]) ks m).
Proof.
  revert m. induction ks as [|k0 r IH]; intros m Hin; simpl in Hin; [tauto|].
  simpl sweep_events. apply in_or_app. destruct Hin as [->|Hin].
  - left. apply in_or_app. right. now left.
  - right. now apply IH.
Qed.

(** X23.  The reclaimer reports again and again the removal of keys that
    are gone.  A key that has left the client map keeps its entry in
    [_last_used]; once its idle time exceeds [idle_timeout], every scan
    marks it and logs that it has cleaned the client up, although no
    teardown takes place, and leaves the [_last_used] entry for the next
    scan. *)
Theorem scan_reports_gone_keys_again
  (lib : Library) (interval : Z) (w : world) (k : string) (last_used : Z) :
  _lock (self w) = false ->
  get k (_clients (self w)) = None ->
  get k (_last_used (self w)) = Some last_used ->
  clock w (ticks w) - last_used > idle_timeout (self w) ->
  let w' := exec (_periodic_cleanup_scan lib interval) w in
  (exists evs,
     trace w' = trace w ++ evs /\ In (Removed k) evs /\ cleanings k evs = 0%nat) /\
  get k (_clients (self w')) = None /\
  get k (_last_used (self w')) = Some last_used.
Proof.
  intros Hfree Habs Hlu Hidle.
  assert (Hmarked : In k (marked (self w) (clock w (ticks w))))
    by (apply (expired_marked _ _ _ _ Hlu); now left).
  destruct (_periodic_cleanup_scan_run lib interval w Hfree)
    as (evs & w' & Hrun & Hself & Htrace & Hquiet & _).
  cbv zeta. unfold exec. rewrite Hrun. cbn [snd]. split; [|split].
  - eexists. split; [exact Htrace|]. split.
    + apply in_or_app. left. now apply (sweep_events_notes Removed).
    + rewrite cleanings_app, Hquiet, cleanings_sweep_gone; auto.
  - rewrite Hself, sweep_clients. now apply purge_absent.
  - now rewrite Hself, sweep_last_used.
Qed.

Lemma scan_reports_gone_keys_again_witness :
  let lib := lenient_library sound_handle in
  let w := at_time 500 (exec (_periodic_cleanup_scan lib 1) (at_time 200 two_clients)) in
  get "a" (_clients (self w)) = None /\
  exists evs,
    trace (exec (_periodic_cleanup_scan lib 1) w) = trace w ++ evs /\
    In (Removed "a") evs /\ cleanings "a" evs = 0%nat.
Proof.
  intros lib w.
  destruct (scan_reports_gone_keys_again lib 1 w "a" 0) as (H & _).
  - vm_compute. reflexivity.
  - vm_compute. reflexivity.
  - vm_compute. reflexivity.
  - vm_compute. reflexivity.
  - split; [vm_compute; reflexivity|exact H].
Defined.

Lemma cleaned_max k m : max_pool_size (cleaned k m) = max_pool_size m.
Proof.
  unfold cleaned. destruct (get k (_clients m)) as [c|]; [|reflexivity].
  now destruct (closes_cleanly c).
Qed.

Lemma sweep_max ks m : max_pool_size (sweep ks m) = max_pool_size m.
Proof.
  revert m. induction ks as [|k r IH]; intros m; [reflexivity|].
  change (sweep (k :: r) m) with (sweep r (cleaned k m)).
  now rewrite IH, cleaned_max.
Qed.

(** X24.  An eviction forgets the refcount.  On an empty pool, acquire a
    key twice and release it once: the entry stays, with refcount 1.  Let
    a scan run between the two acquires, late enough for the entry to
    count as idle: the scan evicts the entry although it is held, the
    second acquire creates a new handle with refcount 1, and the one
    release tears that handle down. *)
Theorem eviction_forgets_the_refcount
  (lib : Library) (interval : Z) (k : string) (w : world) (c1 c2 : Memory) :
  _lock (self w) = false ->
  _clients (self w) = [] ->
  0 < max_pool_size (self w) ->
  eval (get_client lib k) w = Ret c1 ->
  closes_cleanly c1 = true ->
  clock w (S (ticks w)) - clock w (ticks w) > idle_timeout (self w) ->
  eval (get_client lib k) (steps lib [Acquire k; Scan interval] w) = Ret c2 ->
  closes_cleanly c2 = true ->
  let kept := steps lib [Acquire k; Acquire k; Release k] w in
  let lost := steps lib [Acquire k; Scan interval; Acquire k; Release k] w in
  get k (_clients (self kept)) = Some c1 /\
  get k (_connection_counts (self kept)) = Some 1 /\
  get k (_clients (self lost)) = None /\
  get k (_connection_counts (self lost)) = None.
Proof.
  intros Hfree Hempty Hmax Hret1 Hclean1 Hlate Hret2 Hclean2.
  assert (Habs : get k (_clients (self w)) = None) by now rewrite Hempty.
  assert (Hroom : len (_clients (self w)) < max_pool_size (self w))
    by (rewrite Hempty; exact Hmax).
  destruct (get_client_fresh_built lib k w Hfree Habs Hroom)
    as (o & w1 & Hrun & Hticks & Hclock & Hcase).
  unfold eval in Hret1. rewrite Hrun in Hret1. cbn [fst] in Hret1.
  destruct Hcase as [(e & -> & _)|(c' & -> & _ & _ & Hs & _)]; [discriminate|].
  injection Hret1 as ->.
  assert (Hw1 : exec (get_client lib k) w = w1) by (unfold exec; now rewrite Hrun).
  assert (Hfree1 : _lock (self w1) = false) by (rewrite Hs; exact Hfree).
  assert (Hc1 : get k (_clients (self w1)) = Some c1)
    by (rewrite Hs; unfold admitted; flat; apply get_set_same).
  assert (Hn1 : get k (_connection_counts (self w1)) = Some 1)
    by (rewrite Hs; unfold admitted; flat; apply get_set_same).
  cbv zeta.
  change (steps lib [Acquire k; Acquire k; Release k] w)
    with (steps lib (repeat (Release k) 1)
            (steps lib (repeat (Acquire k) 1) (exec (get_client lib k) w))).
  change (steps lib [Acquire k; Scan interval; Acquire k; Release k] w)
    with (exec (release_client k)
            (exec (get_client lib k)
               (exec (_periodic_cleanup_scan lib interval) (exec (get_client lib k) w)))).
  change (steps lib [Acquire k; Scan interval] w)
    with (exec (_periodic_cleanup_scan lib interval) (exec (get_client lib k) w)) in Hret2.
  rewrite Hw1 in *.
  split; [|split].
  - destruct (acquire_many lib k c1 1 w1 1 Hfree1 Hc1 Hn1) as (Hf & Hc & Hn).
    pose proof (release_many lib k c1 1 _ 2 Hf Hc Hclean1 Hn ltac:(lia)) as H.
    cbv zeta in H. change (Z.of_nat 1 <? 2) with true in H. cbv iota in H.
    apply H.
  - destruct (acquire_many lib k c1 1 w1 1 Hfree1 Hc1 Hn1) as (Hf & Hc & Hn).
    pose proof (release_many lib k c1 1 _ 2 Hf Hc Hclean1 Hn ltac:(lia)) as H.
    cbv zeta in H. change (Z.of_nat 1 <? 2) with true in H. cbv iota in H.
    apply H.
  - (* the scan evicts the held entry *)
    assert (Hlu : get k (_last_used (self w1)) = Some (clock w (ticks w)))
      by (rewrite Hs; unfold admitted; flat; apply get_set_same).
    assert (Hmarked : In k (marked (self w1) (clock w1 (ticks w1)))).
    { apply (expired_marked _ _ _ _ Hlu). left.
      rewrite Hclock, Hticks, Hs. unfold admitted. flat. exact Hlate. }
    destruct (_periodic_cleanup_scan_run lib interval w1 Hfree1)
      as (evs & w2 & Hscan & Hself2 & _).
    unfold exec at 3 6. unfold exec at 1 in Hret2. rewrite Hscan in *. cbn [snd] in *.
    assert (Hempty2 : _clients (self w2) = []).
    { apply dict_nil. intros k'. rewrite Hself2, sweep_clients.
      destruct (string_dec k' k) as [->|Hne].
      - now rewrite (purge_touched _ _ _ Hmarked), Hc1, Hclean1.
      - apply purge_absent. rewrite Hs. unfold admitted. flat.
        rewrite get_set_other by congruence. now rewrite Hempty. }
    assert (Hfree2 : _lock (self w2) = false) by (rewrite Hself2, sweep_lock; exact Hfree1).
    assert (Habs2 : get k (_clients (self w2)) = None) by now rewrite Hempty2.
    assert (Hroom2 : len (_clients (self w2)) < max_pool_size (self w2)).
    { rewrite Hempty2, Hself2, sweep_max, Hs. unfold admitted. flat. exact Hmax. }
    (* the second acquire creates a new entry *)
    destruct (get_client_fresh_built lib k w2 Hfree2 Habs2 Hroom2)
      as (o & w3 & Hrun3 & _ & _ & Hcase).
    unfold eval in Hret2. rewrite Hrun3 in Hret2. cbn [fst] in Hret2.
    destruct Hcase as [(e & -> & _)|(c' & -> & _ & _ & Hs3 & _)]; [discriminate|].
    injection Hret2 as ->.
    unfold exec at 2 4. rewrite Hrun3. cbn [snd].
    assert (Hfree3 : _lock (self w3) = false) by (rewrite Hs3; exact Hfree2).
    assert (Hc3 : get k (_clients (self w3)) = Some c2)
      by (rewrite Hs3; unfold admitted; flat; apply get_set_same).
    assert (Hn3 : get k (_connection_counts (self w3)) = Some 1)
      by (rewrite Hs3; unfold admitted; flat; apply get_set_same).
    (* and the release tears it down *)
    pose proof (release_client_run k w3 Hfree3) as Hrel. rewrite Hn3 in Hrel.
    cbv zeta in Hrel. change (1 - 1 <=? 0) with true in Hrel. cbv iota in Hrel.
    unfold exec. rewrite Hrel. flat. unfold cleaned. flat. rewrite Hc3, Hclean2. flat.
    rewrite !get_del_same. split; reflexivity.
Qed.

Lemma eviction_forgets_the_refcount_witness :
  let lib := lenient_library sound_handle in
  get "a" (_connection_counts
             (self (steps lib [Acquire "a"; Acquire "a"; Release "a"] unhurried))) = Some 1 /\
  get "a" (_clients
             (self (steps lib [Acquire "a"; Scan 300; Acquire "a"; Release "a"] unhurried)))
  = None.
Proof.
  intros lib.
  destruct (eviction_forgets_the_refcount lib 300 "a" unhurried
              (sound_handle 0) (sound_handle 1))
    as (_ & H1 & H2 & _).
  - reflexivity.
  - reflexivity.
  - vm_compute. reflexivity.
  - vm_compute. reflexivity.
  - reflexivity.
  - vm_compute. reflexivity.
  - vm_compute. reflexivity.
  - reflexivity.
  - split; [exact H1|exact H2].
Defined.

(** ** The statistics line *)

Lemma sum_at_least_length (d : dict Z) :
  (forall k n, In (k, n) d -> 1 <= n) ->
  Z.of_nat (length d) <= fold_right Z.add 0 (map snd d).
Proof.
  induction d as [|[k n] r IH]; intros H; [reflexivity|].
  cbn [length map fold_right snd].
  assert (1 <= n) by (apply (H k); now left).
  assert (Z.of_nat (length r) <= fold_right Z.add 0 (map snd r))
    by (apply IH; intros k' n' Hin; apply (H k'); now right).
  lia.
Qed.

Lemma in_items_get {V} (d : dict V) k v : In (k, v) d -> get k d <> None.
Proof.
  intros Hin. apply get_in_keys. unfold keys.
  change k with (fst (k, v)). now apply in_map.
Qed.

Lemma same_keys_same_len {V W} (d : dict V) (d' : dict W) :
  NoDup (keys d) -> NoDup (keys d') ->
  (forall k, mem k d = mem k d') -> len d = len d'.
Proof.
  intros Hd Hd' Hsame. unfold len. f_equal.
  rewrite <- (length_map fst d), <- (length_map fst d').
  change (map fst d) with (keys d). change (map fst d') with (keys d').
  assert (H1 : incl (keys d) (keys d')).
  { intros k Hin. apply get_in_keys. apply mem_get. rewrite <- Hsame.
    apply mem_get. now apply get_in_keys. }
  assert (H2 : incl (keys d') (keys d)).
  { intros k Hin. apply get_in_keys. apply mem_get. rewrite Hsame.
    apply mem_get. now apply get_in_keys. }
  apply Nat.le_antisymm; now apply NoDup_incl_length.
Qed.

(** X25.  [_log_stats], called with the lock free, raises nothing and
    leaves the manager as it is, whatever the pool holds.  Its line
    reports the number of clients, the sum of the refcounts and the value
    of [get_connection_count].  When the maps agree and every refcount is
    at least 1, the connections it reports are never fewer than the
    clients; an entry left at refcount 0 by a teardown that failed is
    counted as a client with no connection. *)
Theorem _log_stats_reports_the_pool (lib : Library) (w : world) :
  _lock (self w) = false ->
  let w' := exec (_log_stats lib) w in
  eval (_log_stats lib) w = Ret tt /\
  self w' = self w /\
  exists evs db_connections,
    trace w' =
      trace w ++ evs ++
      [Stats (len (_clients (self w)))
             (fold_right Z.add 0 (map snd (_connection_counts (self w))))
             db_connections] /\
    eval (get_connection_count lib) w = Ret db_connections /\
    (evs = [] \/ exists e, evs = [ConnCountError e]) /\
    (pool_ok (self w) ->
     (forall k n, get k (_connection_counts (self w)) = Some n -> 1 <= n) ->
     len (_clients (self w)) <= fold_right Z.add 0 (map snd (_connection_counts (self w)))).
Proof.
  intros Hfree. cbv zeta. unfold eval, exec, _log_stats, try_except.
  edestruct (with_lock_quiet
               (clients <- gets _clients ;;
                counts <- gets _connection_counts ;;
                ret (len clients, fold_right Z.add 0 (map snd counts))) w)
    as [w1 [H1 [Hs1 Ht1]]]; [exact Hfree|reflexivity|reflexivity|].
  rewrite (bind_run _ _ _ _ _ H1).
  destruct (get_connection_count_run lib w1) as [n [evs [H2 Hevs]]].
  rewrite (bind_run _ _ _ _ _ H2).
  erewrite bind_run by (unfold log; reflexivity).
  match goal with
  | |- context [with_lock ?b ?w0] =>
      destruct (for_each_readings (items (_connection_counts (self w)))
                  (on_self (with_lock_flag true) w0)) as [w3 [H3 [Hs3 Ht3]]];
      edestruct (with_lock_quiet b w0) as [w4 [H4 [Hs4 Ht4]]]
  end.
  - flat. now rewrite Hs1.
  - run. flat. rewrite Hs1 in *. exact H3.
  - rewrite Hs3. reflexivity.
  - rewrite H4. cbn [fst snd]. split; [reflexivity|].
    rewrite Hs4, Ht4, Ht3. flat. rewrite Hs1, Ht1. flat.
    split; [reflexivity|]. exists evs, n. split; [now rewrite app_assoc|].
    split; [|split].
    + assert (Hsame : get_connection_count lib w1 = (Ret n, after (self w1) evs w1))
        by exact H2.
      assert (Hfst : fst (get_connection_count lib w) = fst (get_connection_count lib w1)).
      { unfold get_connection_count, try_except, count_sessions. run.
        assert (He : environ w1 = environ w).
        { rewrite with_lock_free in H1 by exact Hfree.
          cbv beta iota delta [bind gets ret] in H1.
          injection H1; intros; subst; reflexivity. }
        rewrite He. destruct (get "DATABASE_URL" (environ w)) as [url|]; [|reflexivity].
        destruct (truthy (Some url)); [|reflexivity].
        destruct (pg_connect (psycopg2 lib) url); [|reflexivity]. run.
        destruct (pg_cursor (psycopg2 lib)); [|reflexivity]. run.
        destruct (pg_execute (psycopg2 lib)); [|reflexivity]. run.
        destruct (pg_fetchone (psycopg2 lib)) as [[[|count row]|]|]; try reflexivity.
        unfold first_column. run.
        destruct (pg_cursor_close (psycopg2 lib)); [|reflexivity]. run.
        destruct (pg_conn_close (psycopg2 lib)); reflexivity. }
      rewrite Hfst, H2. reflexivity.
    + destruct Hevs as [[-> _]|[_ [e [-> _]]]]; eauto.
    + intros Hok Hheld.
      rewrite (same_keys_same_len _ (_connection_counts (self w))
                 (ok_clients _ Hok) (ok_counts _ Hok)).
      * apply sum_at_least_length. intros k x Hin. apply (Hheld k).
        apply get_of_in; [apply (ok_counts _ Hok)|exact Hin].
      * intros k. symmetry. apply (ok_same _ Hok).
Qed.

Lemma _log_stats_reports_the_pool_witness :
  let lib := lenient_library faulty_handle in
  let w := exec (release_client "a") one_faulty_client in
  (exists evs db_connections,
     trace (exec (_log_stats lib) w) = trace w ++ evs ++ [Stats 1 0 db_connections]) /\
  len (_clients (self one_faulty_client))
  <= fold_right Z.add 0 (map snd (_connection_counts (self one_faulty_client))).
Proof.
  intros lib w. split.
  - destruct (_log_stats_reports_the_pool lib w) as (_ & _ & evs & n & H & _).
    + reflexivity.
    + exists evs, n. exact H.
  - destruct (_log_stats_reports_the_pool lib one_faulty_client)
      as (_ & _ & evs & n & _ & _ & _ & H).
    + reflexivity.
    + apply H.
      * apply (pool_ok_move (built_by lib) (self empty_pool) _
                 (get_client_moves lib "a" empty_pool)).
        apply pool_ok_init.
      * intros k x. cbn.
        destruct (String.eqb k "a"); [intros [= <-]; lia|discriminate].
Defined.

(** ** The reply of [save_memory] *)

(** X26.  When [add] succeeds, [save_memory] confirms with the text
    itself if it has at most 100 characters (code points, not bytes), and
    with its first 100 characters and "..." otherwise: the reply then has
    exactly 130 characters, and so none is longer than that. *)
Theorem save_memory_reply_is_short
  (add : str -> result unit) (message : exn -> str) (text : str) :
  add text = Ok tt ->
  let reply := save_memory add message text in
  (length reply <= 130)%nat /\
  ((length text <= 100)%nat ->
   reply = literal "Successfully saved memory: " ++ text) /\
  ((100 < length text)%nat ->
   length reply = 130%nat /\
   reply = literal "Successfully saved memory: " ++ firstn 100 text ++ literal "...").
Proof.
  intros Hadd. cbv zeta. unfold save_memory. rewrite Hadd.
  destruct (100 <? length text)%nat eqn:Hlen.
  - apply Nat.ltb_lt in Hlen.
    assert (Hl : length (literal "Successfully saved memory: " ++ firstn 100 text
                         ++ literal "...") = 130%nat).
    { rewrite !length_app, length_firstn. rewrite Nat.min_l by lia. reflexivity. }
    split; [rewrite Hl; lia|]. split; [lia|]. intros _. split; [exact Hl|reflexivity].
  - apply Nat.ltb_ge in Hlen. split; [|split; [reflexivity|lia]].
    rewrite length_app.
    change (length (literal "Successfully saved memory: ")) with 27%nat. lia.
Qed.

Lemma save_memory_reply_is_short_witness :
  let saved := fun _ : str => Ok tt in
  let failed := fun _ : exn => literal "failed" in
  save_memory saved failed (repeat 20320%N 66)
  = literal "Successfully saved memory: " ++ repeat 20320%N 66 /\
  length (save_memory saved failed (repeat 20320%N 101)) = 130%nat.
Proof.
  intros saved failed. split.
  - apply (save_memory_reply_is_short saved failed (repeat 20320%N 66)).
    + reflexivity.
    + vm_compute. lia.
  - apply (save_memory_reply_is_short saved failed (repeat 20320%N 101)).
    + reflexivity.
    + vm_compute. lia.
Defined.

(** ** The leak test *)

Section LeakTestFacts.

Import LeakTest.

Lemma sbind_run {A B} (c : Script A) (k : A -> Script B) s a s' :
  c s = (Ret a, s') -> sbind c k s = k a s'.
Proof. intros H. unfold sbind. now rewrite H. Qed.

Lemma in_process_same s : in_process (proc s) s = s.
Proof. now destruct s. Qed.

Lemma at_query_same s : at_query (asked s) s = s.
Proof. now destruct s. Qed.

Lemma lift_run {A} (c : M A) s o w :
  c (proc s) = (o, w) -> lift c s = (o, in_process w s).
Proof. intros H. unfold lift. now rewrite H. Qed.

Lemma lift_getenv k s :
  lift (os_getenv k) s = (Ret (get k (environ (proc s))), s).
Proof.
  rewrite (lift_run _ s (Ret (get k (environ (proc s)))) (proc s)) by reflexivity.
  now rewrite in_process_same.
Qed.

Lemma lift_log e s :
  lift (log e) s = (Ret tt, in_process (emit e (proc s)) s).
Proof. now apply lift_run. Qed.

(** [count_database_connections] always answers, and changes nothing but
    the number of queries. *)
Lemma count_database_connections_run (out : Outside) s :
  count_database_connections out s =
  (Ret (answer out (get "DATABASE_URL" (environ (proc s))) (asked s)),
   at_query (S (asked s)) s).
Proof.
  unfold count_database_connections, next_query, stry_except, answer.
  unfold sbind at 1. cbv beta iota.
  change {| proc := proc s; asked := S (asked s);
            successful_tests := successful_tests s; failed_tests := failed_tests s |}
    with (at_query (S (asked s)) s).
  set (s1 := at_query (S (asked s)) s).
  unfold get_db_connection_info.
  unfold sbind at 1. unfold sbind at 1. rewrite lift_getenv.
  change (environ (proc s1)) with (environ (proc s)).
  destruct (get "DATABASE_URL" (environ (proc s))) as [url|]; [|reflexivity].
  destruct (truthy (Some url)); [|reflexivity].
  unfold sbind, scall, sret, sraise, first_of.
  destruct (urlparse out url) as [parsed|e]; [|reflexivity].
  destruct (port parsed) as [pp|e]; [|reflexivity].
  cbv zeta.
  match goal with |- context [session out (asked s) ?i] => set (db := session out (asked s) i) end.
  destruct (ss_connect db) as [[]|]; [|reflexivity].
  destruct (ss_cursor db) as [[]|]; [|reflexivity].
  destruct (ss_execute db) as [[]|]; [|reflexivity].
  destruct (ss_fetchone db) as [[[|count row]|]|]; try reflexivity.
  destruct (ss_cursor_exit db) as [[]|]; [|reflexivity].
  destruct (ss_conn_exit db) as [[]|]; reflexivity.
Qed.

Lemma reading_answer (out : Outside) q s :
  reading out q s = Ret (answer out (get "DATABASE_URL" (environ (proc s))) q).
Proof. unfold reading. now rewrite count_database_connections_run. Qed.

Lemma in_process_twice w1 w2 s : in_process w2 (in_process w1 s) = in_process w2 s.
Proof. reflexivity. Qed.

(** The [finally] block of the context calls the closers it finds, keeps
    to itself what they raise, and collects garbage. *)
Lemma context_cleanup_run client s :
  context_cleanup client s =
  (Ret tt,
   in_process (after (self (proc s)) (context_calls client ++ [GcCollect]) (proc s)) s).
Proof.
  unfold context_cleanup, context_calls, close_found, stry_except.
  destruct (vector_closer client) as [[m [[]|e]]|];
    destruct (connection_closer client) as [[m' [[]|e']]|];
    unfold sbind, scall, sret, sraise; rewrite ?lift_log; cbv beta iota;
    rewrite ?lift_log; cbv beta iota; rewrite ?lift_log; cbv beta iota;
    unfold in_process; cbn [proc asked successful_tests failed_tests];
    f_equal; f_equal; same_world; rewrite <- ?app_assoc; reflexivity.
Qed.

Lemma memory_client_context_raise {A} (lib : Library) (body : Memory -> Script A) s e w1 :
  get_mem0_client lib (proc s) = (Raise e, w1) ->
  memory_client_context lib body s = (Raise e, in_process w1 s).
Proof.
  intros H. unfold memory_client_context, stry_except, sbind.
  now rewrite (lift_run _ _ _ _ H).
Qed.

Lemma memory_client_context_ret {A} (lib : Library) (body : Memory -> Script A)
  s c w1 o s2 :
  get_mem0_client lib (proc s) = (Ret c, w1) ->
  body c (in_process w1 s) = (o, s2) ->
  o <> Block ->
  memory_client_context lib body s =
  (o, in_process (after (self (proc s2)) (context_calls c ++ [GcCollect]) (proc s2)) s2).
Proof.
  intros H Hbody Hnb. unfold memory_client_context, stry_except.
  rewrite (sbind_run _ _ _ _ _ (lift_run _ _ _ _ H)).
  unfold stry_finally, sraise. rewrite Hbody, context_cleanup_run.
  destruct o; [reflexivity|reflexivity|congruence].
Qed.

Lemma get_mem0_client_ends (lib : Library) w :
  exists o w1,
    get_mem0_client lib w = (o, w1) /\ o <> Block /\
    self w1 = self w /\
    get "DATABASE_URL" (environ w1) = get "DATABASE_URL" (environ w).
Proof.
  rewrite get_mem0_client_exact. cbv zeta.
  assert (Hurl : get "DATABASE_URL" (llm_environ (environ w)) = get "DATABASE_URL" (environ w))
    by (apply llm_environ_other; discriminate).
  destruct (has_embedder (environ w)).
  - destruct (embedder_dims lib (environ w)) as [dims|e].
    + eexists _, _. split; [reflexivity|]. split; [|split; [reflexivity|exact Hurl]].
      destruct (Memory_from_config lib (constructed w) _); discriminate.
    + eexists _, _. split; [reflexivity|]. split; [discriminate|].
      split; [reflexivity|exact Hurl].
  - eexists _, _. split; [reflexivity|]. split; [|split; [reflexivity|exact Hurl]].
    destruct (Memory_from_config lib (constructed w) _); discriminate.
Qed.

Lemma test_memory_operations_run (out : Outside) client test_id s :
  exists success, test_memory_operations out client test_id s = (Ret success, s).
Proof.
  unfold test_memory_operations, stry_except, sbind, scall, sret, sraise.
  destruct (client_add out client test_id); [|now exists false].
  destruct (client_search out client test_id); [now exists true|now exists false].
Qed.

(** One iteration makes two queries and counts itself once, as a success
    or as a failure. *)
Lemma leak_test_iteration_run (lib : Library) (out : Outside) i s :
  exists s',
    leak_test_iteration lib out i s = (Ret tt, s') /\
    asked s' = S (S (asked s)) /\
    successful_tests s' + failed_tests s' = successful_tests s + failed_tests s + 1 /\
    successful_tests s <= successful_tests s' /\
    failed_tests s <= failed_tests s' /\
    self (proc s') = self (proc s) /\
    get "DATABASE_URL" (environ (proc s')) = get "DATABASE_URL" (environ (proc s)).
Proof.
  unfold leak_test_iteration.
  rewrite (sbind_run _ _ _ _ _ (count_database_connections_run out s)).
  set (s1 := at_query (S (asked s)) s).
  assert (Hmid : exists s2,
             stry_except
               (memory_client_context lib
                  (fun client =>
                     sbind (test_memory_operations out client i)
                       (fun success =>
                          if success
                          then sbind (reads successful_tests)
                                 (fun n => set_successful_tests (n + 1))
                          else sbind (reads failed_tests)
                                 (fun n => set_failed_tests (n + 1)))))
               (fun e => sbind (reads failed_tests) (fun n => set_failed_tests (n + 1)))
               s1 = (Ret tt, s2) /\
             asked s2 = asked s1 /\
             successful_tests s2 + failed_tests s2
             = successful_tests s1 + failed_tests s1 + 1 /\
             successful_tests s1 <= successful_tests s2 /\
             failed_tests s1 <= failed_tests s2 /\
             self (proc s2) = self (proc s1) /\
             get "DATABASE_URL" (environ (proc s2))
             = get "DATABASE_URL" (environ (proc s1))).
  { destruct (get_mem0_client_ends lib (proc s1)) as (o & w1 & Hget & Hnb & Hself & Hurl).
    destruct o as [c|e|]; [| |congruence].
    - destruct (test_memory_operations_run out c i (in_process w1 s1)) as (success & Ht).
      unfold stry_except at 1.
      erewrite (memory_client_context_ret lib _ s1 c w1 (Ret tt)); [| exact Hget | | discriminate].
      + eexists. split; [reflexivity|].
        cbn [in_process proc asked successful_tests failed_tests after self environ].
        instantiate (1 := if success
                          then {| proc := w1; asked := asked s1;
                                  successful_tests := successful_tests s1 + 1;
                                  failed_tests := failed_tests s1 |}
                          else {| proc := w1; asked := asked s1;
                                  successful_tests := successful_tests s1;
                                  failed_tests := failed_tests s1 + 1 |}).
        destruct success; cbn [proc asked successful_tests failed_tests];
          (split; [reflexivity|]); (split; [lia|]); (split; [lia|]); (split; [lia|]);
          split; assumption.
      + rewrite (sbind_run _ _ _ _ _ Ht). destruct success; reflexivity.
    - unfold stry_except at 1.
      rewrite (memory_client_context_raise lib _ s1 e w1 Hget).
      eexists. split; [reflexivity|].
      cbn [in_process proc asked successful_tests failed_tests].
      split; [reflexivity|]. split; [lia|]. split; [lia|]. split; [lia|].
      split; assumption. }
  destruct Hmid as (s2 & Hrun & Ha & Hsum & Hs & Hf & Hself & Hurl).
  rewrite (sbind_run _ _ _ _ _ Hrun).
  rewrite (sbind_run _ _ _ _ _ (count_database_connections_run out s2)).
  eexists. split; [reflexivity|].
  cbn [at_query proc asked successful_tests failed_tests]. rewrite Ha.
  cbn [at_query proc asked successful_tests failed_tests] in *.
  split; [reflexivity|]. split; [exact Hsum|]. split; [exact Hs|]. split; [exact Hf|].
  split; assumption.
Qed.

Lemma leak_test_loop_run (lib : Library) (out : Outside) (ids : list Z) :
  forall s,
  exists s',
    sfor_each ids (leak_test_iteration lib out) s = (Ret tt, s') /\
    asked s' = (asked s + 2 * length ids)%nat /\
    successful_tests s' + failed_tests s'
    = successful_tests s + failed_tests s + Z.of_nat (length ids) /\
    successful_tests s <= successful_tests s' /\
    failed_tests s <= failed_tests s' /\
    self (proc s') = self (proc s) /\
    get "DATABASE_URL" (environ (proc s')) = get "DATABASE_URL" (environ (proc s)).
Proof.
  induction ids as [|i r IH]; intros s.
  - exists s. cbn [sfor_each length]. unfold sret.
    split; [reflexivity|]. split; [lia|]. split; [cbn; lia|]. split; [lia|].
    split; [lia|]. split; reflexivity.
  - destruct (leak_test_iteration_run lib out i s)
      as (s1 & H1 & Ha1 & Hsum1 & Hs1 & Hf1 & Hself1 & Hurl1).
    destruct (IH s1) as (s2 & H2 & Ha2 & Hsum2 & Hs2 & Hf2 & Hself2 & Hurl2).
    exists s2. cbn [sfor_each]. rewrite (sbind_run _ _ _ _ _ H1).
    split; [exact H2|]. cbn [length]. split; [lia|]. split; [lia|]. split; [lia|].
    split; [lia|]. split; congruence.
Qed.

Lemma length_range_from_1 n : length (range_from_1 n) = Z.to_nat n.
Proof. unfold range_from_1. now rewrite length_map, length_seq. Qed.

Lemma run_connection_leak_test_run (lib : Library) (out : Outside) n s :
  let url := get "DATABASE_URL" (environ (proc s)) in
  exists r s',
    run_connection_leak_test lib out n s = (Ret r, s') /\
    report_successful_tests r + report_failed_tests r = Z.max 0 n /\
    0 <= report_successful_tests r /\
    0 <= report_failed_tests r /\
    report_initial_connections r = answer out url (asked s) /\
    report_final_connections r = answer out url (asked s + 2 * Z.to_nat n + 1) /\
    report_leaked_connections r
    = Z.max 0 (report_final_connections r - report_initial_connections r) /\
    asked s' = (asked s + 2 * Z.to_nat n + 2)%nat /\
    self (proc s') = self (proc s).
Proof.
  intros url. unfold run_connection_leak_test.
  rewrite (sbind_run _ _ _ _ _ (count_database_connections_run out s)). fold url.
  unfold sbind at 1, set_successful_tests at 1. cbv beta iota.
  unfold sbind at 1, set_failed_tests at 1. cbv beta iota.
  cbn [at_query proc asked successful_tests failed_tests].
  match goal with
  | |- context [sbind (sfor_each _ _) _ ?s0] =>
      destruct (leak_test_loop_run lib out (range_from_1 n) s0)
        as (s2 & Hloop & Ha & Hsum & Hs & Hf & Hself & Hurl)
  end.
  cbn [proc asked successful_tests failed_tests] in Ha, Hsum, Hs, Hf, Hself, Hurl.
  rewrite length_range_from_1 in Ha, Hsum.
  rewrite (sbind_run _ _ _ _ _ Hloop).
  rewrite (sbind_run _ _ _ _ _ (count_database_connections_run out s2)).
  unfold sbind, reads, sret. eexists _, _. split; [reflexivity|].
  cbn [report_successful_tests report_failed_tests report_initial_connections
       report_final_connections report_leaked_connections
       at_query proc asked successful_tests failed_tests].
  rewrite Hurl, Ha, Hself. fold url.
  split; [lia|]. split; [lia|]. split; [lia|]. split; [reflexivity|].
  split; [f_equal; lia|]. split; [reflexivity|]. split; [lia|reflexivity].
Qed.

End LeakTestFacts.

(** X27.  [count_database_connections] of the leak test never raises and
    changes nothing but the number of queries made.  With DATABASE_URL
    unset or empty it answers -1 without contacting the database, where
    [get_connection_count] of the pool answers 0. *)
Theorem leak_test_count_answers_minus_one
  (lib : Library) (out : LeakTest.Outside) (s : LeakTest.lab) :
  (exists n,
     LeakTest.count_database_connections out s
     = (Ret n, LeakTest.at_query (S (LeakTest.asked s)) s)) /\
  (truthy (get "DATABASE_URL" (environ (LeakTest.proc s))) = false ->
   fst (LeakTest.count_database_connections out s) = Ret (-1) /\
   eval (get_connection_count lib) (LeakTest.proc s) = Ret 0).
Proof.
  split.
  - eexists. apply count_database_connections_run.
  - intros Hurl. rewrite count_database_connections_run. cbn [fst]. split.
    + unfold LeakTest.answer.
      destruct (get "DATABASE_URL" (environ (LeakTest.proc s))) as [url|]; [|reflexivity].
      now rewrite Hurl.
    + unfold eval, get_connection_count, try_except, count_sessions. run.
      destruct (get "DATABASE_URL" (environ (LeakTest.proc s))) as [url|]; [|reflexivity].
      now rewrite Hurl.
Qed.

Lemma leak_test_count_answers_minus_one_witness :
  fst (LeakTest.count_database_connections (calm_outside (fun _ => Ok 7))
         (LeakTest.start (configured []))) = Ret (-1) /\
  eval (get_connection_count (lenient_library sound_handle)) (configured []) = Ret 0.
Proof.
  apply (proj2 (leak_test_count_answers_minus_one (lenient_library sound_handle)
                  (calm_outside (fun _ => Ok 7)) (LeakTest.start (configured [])))).
  reflexivity.
Defined.

(** X28.  [memory_client_context] of the leak test hands its block the
    client [get_mem0_client] built and ends as the block ends.  On the
    way out it calls the vector client's closer and, unless that raised,
    [close()] on the database connection, keeps to itself what they
    raise, and collects garbage.  It never disposes a database engine,
    which [_cleanup_client] of the pool does for a handle that offers an
    engine and no connection. *)
Theorem leak_test_context_never_disposes_the_engine
  {A} (lib : Library) (body : Memory -> LeakTest.Script A)
  (s s2 : LeakTest.lab) (c : Memory) (w1 : world) (o : outcome A) :
  get_mem0_client lib (LeakTest.proc s) = (Ret c, w1) ->
  body c (LeakTest.in_process w1 s) = (o, s2) ->
  o <> Block ->
  let s' := snd (LeakTest.memory_client_context lib body s) in
  fst (LeakTest.memory_client_context lib body s) = o /\
  trace (LeakTest.proc s')
  = trace (LeakTest.proc s2) ++ LeakTest.context_calls c ++ [GcCollect] /\
  ~ In (Called (mem_id c) db_engine_dispose) (LeakTest.context_calls c) /\
  (forall k m r,
     get k (_clients m) = Some c ->
     closer_result (vector_closer c) = Ok tt ->
     db_closer c = Some (db_engine_dispose, r) ->
     In (Called (mem_id c) db_engine_dispose) (cleanup_events k m)).
Proof.
  intros Hget Hbody Hnb. cbv zeta.
  rewrite (memory_client_context_ret lib body s c w1 o s2 Hget Hbody Hnb). cbn [fst snd].
  split; [reflexivity|]. split; [reflexivity|]. split.
  - unfold LeakTest.context_calls, LeakTest.connection_closer, vector_closer.
    destruct (vector_store c) as [vs|]; [destruct (vs_client vs) as [vc|];
      [destruct (vc_close vc) as [[[]|]|]; [| |destruct (vc_inner_close vc) as [[[]|]|]]|]|];
      (destruct (db c) as [d|]; [destruct (db_connection d)|]);
      cbn; intuition discriminate.
  - intros k m r Hk Hv Hd. unfold cleanup_events. rewrite Hk, Hv, Hd.
    right. apply in_or_app. right. apply in_or_app. left.
    unfold closer_events. right. now left.
Qed.

Lemma leak_test_context_never_disposes_the_engine_witness :
  let lib := lenient_library engine_handle in
  let body := fun _ : Memory => (LeakTest.sret tt : LeakTest.Script unit) in
  let s := LeakTest.start (configured []) in
  trace (LeakTest.proc (snd (LeakTest.memory_client_context lib body s))) = [GcCollect] /\
  In (Called 0 db_engine_dispose)
     (cleanup_events "a" (self (exec (get_client lib "a") (configured [])))).
Proof.
  intros lib body s.
  destruct (leak_test_context_never_disposes_the_engine lib body s
              (LeakTest.in_process (built (configured [])) s) (engine_handle 0)
              (built (configured [])) (Ret tt))
    as (_ & H1 & _ & H2).
  - reflexivity.
  - reflexivity.
  - discriminate.
  - split; [exact H1|].
    apply (H2 "a" (self (exec (get_client lib "a") (configured []))) (Ok tt));
      vm_compute; reflexivity.
Defined.

(** X29.  [run_connection_leak_test] always returns its report.  Every
    iteration is counted once, as a success or as a failure, so the two
    counters add up to the number of iterations (to 0 for a negative
    number).  The run makes two queries per iteration and one before and
    one after; the first is the initial count, the last the final count,
    and the leak reported is their difference when it is positive and 0
    otherwise.  The pool of the process is not touched. *)
Theorem leak_test_counts_every_iteration
  (lib : Library) (out : LeakTest.Outside) (n : Z) (s : LeakTest.lab) :
  exists r s',
    LeakTest.run_connection_leak_test lib out n s = (Ret r, s') /\
    LeakTest.report_successful_tests r + LeakTest.report_failed_tests r = Z.max 0 n /\
    0 <= LeakTest.report_successful_tests r /\
    0 <= LeakTest.report_failed_tests r /\
    LeakTest.reading out (LeakTest.asked s) s = Ret (LeakTest.report_initial_connections r) /\
    LeakTest.reading out (LeakTest.asked s + 2 * Z.to_nat n + 1) s
    = Ret (LeakTest.report_final_connections r) /\
    LeakTest.report_leaked_connections r
    = Z.max 0 (LeakTest.report_final_connections r - LeakTest.report_initial_connections r) /\
    LeakTest.asked s' = (LeakTest.asked s + 2 * Z.to_nat n + 2)%nat /\
    self (LeakTest.proc s') = self (LeakTest.proc s).
Proof.
  destruct (run_connection_leak_test_run lib out n s)
    as (r & s' & Hrun & Hsum & Hs & Hf & Hi & Hfin & Hl & Ha & Hself).
  exists r, s'. rewrite !reading_answer, <- Hi, <- Hfin.
  split; [exact Hrun|]. split; [exact Hsum|]. split; [exact Hs|]. split; [exact Hf|].
  split; [reflexivity|]. split; [reflexivity|]. split; [exact Hl|].
  split; [exact Ha|exact Hself].
Qed.

(** X30.  The exit code of the leak test.  With DATABASE_URL unset or
    empty [main] returns 1 at once, without a query and without a
    client.  Otherwise it runs five iterations and returns 1 exactly when
    the final count exceeds the initial one, and 2 or 0 when it does
    not.  The answer -1 of a failed query is compared like a
    count: a database that cannot be reached for the first query and
    answers the last one gives exit code 1, and one that cannot be
    reached for the last query never does. *)
Theorem leak_test_exit_code (lib : Library) (out : LeakTest.Outside) (s : LeakTest.lab) :
  (truthy (get "DATABASE_URL" (environ (LeakTest.proc s))) = false ->
   LeakTest.main lib out s = (Ret 1, s)) /\
  (truthy (get "DATABASE_URL" (environ (LeakTest.proc s))) = true ->
   exists code initial final,
     fst (LeakTest.main lib out s) = Ret code /\
     LeakTest.reading out (LeakTest.asked s) s = Ret initial /\
     LeakTest.reading out (LeakTest.asked s + 11) s = Ret final /\
     (code = 1 <-> initial < final) /\
     (code = 0 \/ code = 1 \/ code = 2) /\
     (initial = -1 -> 0 <= final -> code = 1) /\
     (final = -1 -> -1 <= initial -> code <> 1)).
Proof.
  split.
  - intros Hurl. unfold LeakTest.main, LeakTest.stry_except.
    rewrite (sbind_run _ _ _ _ _ (lift_getenv "DATABASE_URL" s)).
    now rewrite Hurl.
  - intros Hurl. unfold LeakTest.main, LeakTest.stry_except.
    rewrite (sbind_run _ _ _ _ _ (lift_getenv "DATABASE_URL" s)).
    rewrite Hurl. cbn [negb].
    destruct (run_connection_leak_test_run lib out 5 s)
      as (r & s' & Hrun & Hsum & Hs & Hf & Hi & Hfin & Hl & _).
    rewrite (sbind_run _ _ _ _ _ Hrun).
    replace (LeakTest.asked s + 2 * Z.to_nat 5 + 1)%nat with (LeakTest.asked s + 11)%nat
      in Hfin by (change (Z.to_nat 5) with 5%nat; lia).
    rewrite !reading_answer, <- Hi, <- Hfin.
    set (initial := LeakTest.report_initial_connections r) in *.
    set (final := LeakTest.report_final_connections r) in *.
    destruct (LeakTest.report_leaked_connections r >? 0) eqn:Hleak.
    + apply Z.gtb_lt in Hleak. exists 1, initial, final. cbn [fst].
      split; [reflexivity|]. split; [reflexivity|]. split; [reflexivity|].
      split; [split; [lia|reflexivity]|]. split; [auto|]. split; [reflexivity|lia].
    + assert (Hle : final <= initial).
      { destruct (Z.gtb_spec (LeakTest.report_leaked_connections r) 0); [discriminate|]. lia. }
      destruct (LeakTest.report_failed_tests r >? 0).
      * exists 2, initial, final. cbn [fst].
        split; [reflexivity|]. split; [reflexivity|]. split; [reflexivity|].
        split; [split; [discriminate|lia]|]. split; [auto|]. split; [lia|discriminate].
      * exists 0, initial, final. cbn [fst].
        split; [reflexivity|]. split; [reflexivity|]. split; [reflexivity|].
        split; [split; [discriminate|lia]|]. split; [auto|]. split; [lia|discriminate].
Qed.

Lemma leak_test_exit_code_witness :
  let lib := lenient_library sound_handle in
  let out := calm_outside (fun q => if Nat.eqb q 0 then Err (LibraryError 2) else Ok 3) in
  let s := LeakTest.start (configured [("DATABASE_URL", "postgresql://db/postgres")]) in
  LeakTest.reading out 0 s = Ret (-1) /\
  LeakTest.reading out 11 s = Ret 3 /\
  fst (LeakTest.main lib out s) = Ret 1.
Proof.
  intros lib out s.
  destruct (proj2 (leak_test_exit_code lib out s))
    as (code & initial & final & Hcode & Hi & Hf & _ & _ & Hfalse & _).
  - reflexivity.
  - assert (E1 : initial = -1)
      by (assert (H : Ret initial = Ret (-1)) by (rewrite <- Hi; vm_compute; reflexivity);
          now injection H).
    assert (E2 : final = 3)
      by (assert (H : Ret final = Ret 3) by (rewrite <- Hf; vm_compute; reflexivity);
          now injection H).
    subst initial final.
    split; [exact Hi|]. split; [exact Hf|].
    rewrite Hcode. f_equal. apply Hfalse; [reflexivity|lia].
Defined.
